(** * oscpie: action-manifest validation and binding-code generation

    A shallow embedding of
      - utils/action_manifest_types.ts                    (the zod schemas),
      - packages/oscpie/utils/validate_action_manifests.ts (the validator),
      - utils/generate_action_codes.ts                    (the generator),
      - unnamed/part_001                     (the cookie jar of the API client),
    followed by the properties established for them.

    Conventions.  A JavaScript string is a [string]: one [ascii] stands for
    one UTF-16 code unit below 256, so the white space of [trim] and of the
    regular expression class \s is the set {9,10,11,12,13,32,160}.  The
    platform (the file system, the console, [JSON.parse], [path.dirname],
    [path.resolve]) is explicit: files and console live in a [World] that
    is threaded through the effectful code, together with which paths
    lead to the same file and which writes fail; the three library
    functions are the fields of a [Platform] the code is parameterized
    by. *)

From Stdlib Require Import String Ascii List Bool Arith Lia ZArith Permutation.
Import ListNotations.
Open Scope list_scope.
Open Scope string_scope.

(* ================================================================== *)
(** * Part I: definitions                                              *)
(* ================================================================== *)

(** ** JavaScript string primitives used by the sources *)

Module JS.

Definition LF : ascii := "010"%char.
Definition SLASH : ascii := "/"%char.
Definition UNDERSCORE : ascii := "_"%char.
(** The double quote character, code 34. *)
Definition DQUOTE : ascii := ascii_of_nat 34.

Definition nl : string := String LF EmptyString.
Definition dq : string := String DQUOTE EmptyString.

(** White space as [String.prototype.trim] and the class \s see it. *)
Definition is_whitespace (c : ascii) : bool :=
  match N_of_ascii c with
  | 9%N | 10%N | 11%N | 12%N | 13%N | 32%N | 160%N => true
  | _ => false
  end.

Fixpoint trimStart (s : string) : string :=
  match s with
  | EmptyString => EmptyString
  | String c r => if is_whitespace c then trimStart r else s
  end.

Fixpoint trimEnd (s : string) : string :=
  match s with
  | EmptyString => EmptyString
  | String c r =>
      match trimEnd r with
      | EmptyString => if is_whitespace c then EmptyString else String c EmptyString
      | r' => String c r'
      end
  end.

(** [s.trim()] *)
Definition trim (s : string) : string := trimEnd (trimStart s).

(** [s.split(sep)] for a one-character separator: never the empty list. *)
Fixpoint split (sep : ascii) (s : string) : list string :=
  match s with
  | EmptyString => [EmptyString]
  | String c r =>
      if Ascii.eqb c sep then EmptyString :: split sep r
      else match split sep r with
           | [] => [String c EmptyString]
           | l :: ls => String c l :: ls
           end
  end.

(** [xs.join(sep)] *)
Definition join (sep : string) (xs : list string) : string :=
  String.concat sep xs.

(** [s.replaceAll(pat, rep)] for a one-character pattern. *)
Fixpoint replaceAll (pat : ascii) (rep : string) (s : string) : string :=
  match s with
  | EmptyString => EmptyString
  | String c r =>
      if Ascii.eqb c pat then rep ++ replaceAll pat rep r
      else String c (replaceAll pat rep r)
  end.

(** [s.replace(/^c/, rep)]: the anchored pattern matches at most once,
    at the start. *)
Definition replace_at_start (c : ascii) (rep : string) (s : string) : string :=
  match s with
  | EmptyString => EmptyString
  | String c' r => if Ascii.eqb c' c then rep ++ r else s
  end.

(** [s.length > 0] *)
Definition nonempty (s : string) : bool :=
  match s with EmptyString => false | String _ _ => true end.

(** [s.startsWith(p)], returning what follows [p]. *)
Fixpoint strip_prefix (p s : string) : option string :=
  match p with
  | EmptyString => Some s
  | String a p' =>
      match s with
      | EmptyString => None
      | String b s' => if Ascii.eqb a b then strip_prefix p' s' else None
      end
  end.

(** The number a property key stands for when it is an array index: a
    decimal numeral without sign or leading zero ("0" itself apart)
    below 2^32 - 1. *)
Definition digit (c : ascii) : option N :=
  let n := N_of_ascii c in
  if ((48 <=? n) && (n <=? 57))%N then Some (n - 48)%N else None.

Fixpoint numeral (acc : N) (s : string) : option N :=
  match s with
  | EmptyString => Some acc
  | String c r =>
      match digit c with
      | Some d => numeral (10 * acc + d)%N r
      | None => None
      end
  end.

Definition array_index (key : string) : option N :=
  match key with
  | EmptyString => None
  | String "0" EmptyString => Some 0%N
  | String "0" _ => None
  | _ => match numeral 0%N key with
         | Some n => if (n <? 4294967295)%N then Some n else None
         | None => None
         end
  end.

Fixpoint insert_index {A} (n : N) (kv : string * A) (sorted : list (N * (string * A)))
  : list (N * (string * A)) :=
  match sorted with
  | [] => [(n, kv)]
  | (m, x) :: r =>
      if (n <? m)%N then (n, kv) :: sorted else (m, x) :: insert_index n kv r
  end.

(** The own properties of an object as [Object.entries] and [for in]
    go through them, given in the order they were created: the array
    indices in ascending order first, then the other keys in the order
    of their creation. *)
Definition own_properties {A} (created : list (string * A)) : list (string * A) :=
  (map snd
     (fold_right (fun kv sorted => match array_index (fst kv) with
                                   | Some n => insert_index n kv sorted
                                   | None => sorted
                                   end) [] created)
   ++ filter (fun kv => match array_index (fst kv) with
                        | Some _ => false
                        | None => true
                        end) created)%list.

End JS.

(** [needle] occurs in [text] as a contiguous piece. *)
Definition contains (text needle : string) : Prop :=
  exists pre post, text = pre ++ needle ++ post.

(** Empty, or starting with a character that is not white space. *)
Definition starts_clean (s : string) : Prop :=
  match s with
  | EmptyString => True
  | String c _ => JS.is_whitespace c = false
  end.

(** Ending with a character that is not white space. *)
Definition ends_clean (s : string) : Prop :=
  exists body c, s = body ++ String c EmptyString /\ JS.is_whitespace c = false.

Fixpoint all_whitespace (s : string) : bool :=
  match s with
  | EmptyString => true
  | String c r => JS.is_whitespace c && all_whitespace r
  end.

(** The prelude's marker in the specification's words: a line comment
    opener, any white space, the word STUB_FOLLOWS. *)
Definition marker_at_start (s : string) : Prop :=
  exists ws rest,
    all_whitespace ws = true /\ s = "//" ++ ws ++ "STUB_FOLLOWS" ++ rest.

(** ** Name canonicalizer (generate_action_codes.ts, lines 168-174) *)

Definition canonicalizedActionName (actionName : string) : string :=
  JS.replace_at_start JS.UNDERSCORE EmptyString
    (JS.replaceAll JS.SLASH "_" actionName).

Definition canonicalizedActionSetName (actionSetName : string) : string :=
  JS.replace_at_start JS.UNDERSCORE EmptyString
    (JS.replaceAll JS.SLASH "_" actionSetName).

(** The contract in the specification's words: every slash becomes an
    underscore, character by character, then at most one leading
    underscore is removed. *)
Fixpoint slashes_to_underscores (s : string) : string :=
  match s with
  | EmptyString => EmptyString
  | String c r =>
      String (if Ascii.eqb c "/" then "_"%char else c) (slashes_to_underscores r)
  end.

Definition strip_one_leading_underscore (s : string) : string :=
  match s with
  | String "_" r => r
  | _ => s
  end.

Definition canonicalize_spec (raw : string) : string :=
  strip_one_leading_underscore (slashes_to_underscores raw).

(** Canonical form: no slash anywhere and no underscore in front. *)
Fixpoint has_char (c : ascii) (s : string) : bool :=
  match s with
  | EmptyString => false
  | String c' r => Ascii.eqb c' c || has_char c r
  end.

Definition starts_with_char (c : ascii) (s : string) : bool :=
  match s with
  | EmptyString => false
  | String c' _ => Ascii.eqb c' c
  end.

Definition is_canonical (s : string) : bool :=
  negb (has_char JS.SLASH s) && negb (starts_with_char JS.UNDERSCORE s).

(** ** Schema model (utils/action_manifest_types.ts) *)

(** A parsed JSON value.  An object is its property list in insertion
    order.  A number is kept as an integer: the code only ever asks
    whether a number is zero (truthiness) or rejects it (schemas). *)
#[warnings="-register-all"]
Inductive json : Type :=
| JNull
| JBool (b : bool)
| JNumber (n : Z)
| JString (s : string)
| JArray (items : list json)
| JObject (props : list (string * json)).

Module ActionType.
(** [z.enum] of [ActionSchema.type]; also [keyof typeof ACTION_TYPE_MAP]. *)
Inductive t := boolean | vibration | vector1 | vector2 | vector3 | pose | skeleton.

Definition eqb (a b : t) : bool :=
  match a, b with
  | boolean, boolean | vibration, vibration | vector1, vector1
  | vector2, vector2 | vector3, vector3 | pose, pose | skeleton, skeleton => true
  | _, _ => false
  end.

Definition to_string (a : t) : string :=
  match a with
  | boolean => "boolean" | vibration => "vibration" | vector1 => "vector1"
  | vector2 => "vector2" | vector3 => "vector3" | pose => "pose"
  | skeleton => "skeleton"
  end.

(** The option list of the enum, in source order. *)
Definition options : list t :=
  [boolean; vibration; vector1; vector2; vector3; pose; skeleton].
End ActionType.

Module Requirement.
Inductive t := mandatory | optional | suggested.
Definition to_string (a : t) : string :=
  match a with
  | mandatory => "mandatory" | optional => "optional" | suggested => "suggested"
  end.
Definition options : list t := [mandatory; optional; suggested].
End Requirement.

Module Usage.
Inductive t := leftright | single.
Definition to_string (a : t) : string :=
  match a with leftright => "leftright" | single => "single" end.
Definition options : list t := [leftright; single].
End Usage.

Module OutputPathMapping.
Record t := { output : string; path : string }.
End OutputPathMapping.

Module Source.
Record t := {
  inputs : list (string * string);       (* input name |-> its [output] *)
  mode : string;
  path : string;
  parameters : option (list (string * string))
}.
End Source.

Module ActionBinding.
Record t := {
  sources : option (list Source.t);
  chords : option (list json);
  haptics : option (list OutputPathMapping.t);
  poses : option (list OutputPathMapping.t);
  skeleton : option (list OutputPathMapping.t)
}.
End ActionBinding.

Module BindingFile.
Record t := {
  bindings : list (string * ActionBinding.t);
  controller_type : string;
  description : string;
  name : string
}.
End BindingFile.

Module DefaultBinding.
Record t := { controller_type : string; binding_url : string }.
End DefaultBinding.

Module Action.
Record t := {
  name : string;
  requirement : option Requirement.t;
  type : ActionType.t;
  skeleton : option string
}.
End Action.

Module ActionSet.
Record t := { name : string; usage : Usage.t }.
End ActionSet.

(** A parsed localization entry: the properties of the object, the
    "language_tag" first, then every other key with its string. *)
Definition Localization := list (string * string).

Module ActionManifest.
Record t := {
  default_bindings : list DefaultBinding.t;
  actions : list Action.t;
  action_sets : list ActionSet.t;
  localization : list Localization
}.
End ActionManifest.

(** *** The zod combinators the schemas are built from *)

Module Zod.

(** A schema is the function [safeParse] applies: [None] is a failed
    parse (the issue list is not modelled). *)
Definition schema (A : Type) := json -> option A.

Fixpoint mapM {A B : Type} (f : A -> option B) (xs : list A) : option (list B) :=
  match xs with
  | [] => Some []
  | x :: r =>
      match f x with
      | None => None
      | Some y => match mapM f r with
                  | None => None
                  | Some ys => Some (y :: ys)
                  end
      end
  end.

(** [data[key]]: [None] is JavaScript's [undefined]. *)
Fixpoint get (key : string) (props : list (string * json)) : option json :=
  match props with
  | [] => None
  | (k, v) :: r => if String.eqb k key then Some v else get key r
  end.

Definition string : schema string :=
  fun j => match j with JString s => Some s | _ => None end.

Definition any : schema json := fun j => Some j.

Definition array {A} (item : schema A) : schema (list A) :=
  fun j => match j with JArray xs => mapM item xs | _ => None end.

Fixpoint lookup_option {A} (to_string : A -> String.string)
         (options : list A) (s : String.string) : option A :=
  match options with
  | [] => None
  | o :: r => if String.eqb (to_string o) s then Some o
              else lookup_option to_string r s
  end.

(** [z.enum([...])] *)
Definition enum {A} (to_string : A -> String.string) (options : list A) : schema A :=
  fun j => match j with
           | JString s => lookup_option to_string options s
           | _ => None
           end.

(** [z.record(value)] *)
Definition record {A} (value : schema A) : schema (list (String.string * A)) :=
  fun j =>
    match j with
    | JObject props =>
        mapM (fun kv => match value (snd kv) with
                        | Some a => Some (fst kv, a)
                        | None => None
                        end) props
    | _ => None
    end.

(** A required property of a [z.object]: [undefined] fails the parse. *)
Definition required {A} (key : String.string) (s : schema A)
           (props : list (String.string * json)) : option A :=
  match get key props with
  | Some v => s v
  | None => None
  end.

(** A property declared [.optional()]: [undefined] is accepted. *)
Definition optional {A} (key : String.string) (s : schema A)
           (props : list (String.string * json)) : option (option A) :=
  match get key props with
  | Some v => match s v with Some a => Some (Some a) | None => None end
  | None => Some None
  end.

(** [z.object({...})]: the value has to be an object; unknown keys are
    stripped, so only the declared properties are looked at. *)
Definition object {A} (shape : list (String.string * json) -> option A) : schema A :=
  fun j => match j with JObject props => shape props | _ => None end.

End Zod.

Notation "'let?' x ':=' e 'in' k" :=
  (match e with Some x => k | None => None end)
  (at level 10, x name, e at level 100, k at level 200, only parsing).

Definition InputMappingSchema : Zod.schema (list (string * string)) :=
  Zod.record (Zod.object (fun o => Zod.required "output" Zod.string o)).

Definition SourceSchema : Zod.schema Source.t :=
  Zod.object (fun o =>
    let? i := Zod.required "inputs" InputMappingSchema o in
    let? m := Zod.required "mode" Zod.string o in
    let? p := Zod.required "path" Zod.string o in
    let? ps := Zod.optional "parameters" (Zod.record Zod.string) o in
    Some {| Source.inputs := i; Source.mode := m; Source.path := p;
            Source.parameters := ps |}).

Definition OutputPathMappingSchema : Zod.schema OutputPathMapping.t :=
  Zod.object (fun o =>
    let? out := Zod.required "output" Zod.string o in
    let? p := Zod.required "path" Zod.string o in
    Some {| OutputPathMapping.output := out; OutputPathMapping.path := p |}).

Definition ActionBindingSchema : Zod.schema ActionBinding.t :=
  Zod.object (fun o =>
    let? s := Zod.optional "sources" (Zod.array SourceSchema) o in
    let? c := Zod.optional "chords" (Zod.array Zod.any) o in
    let? h := Zod.optional "haptics" (Zod.array OutputPathMappingSchema) o in
    let? p := Zod.optional "poses" (Zod.array OutputPathMappingSchema) o in
    let? k := Zod.optional "skeleton" (Zod.array OutputPathMappingSchema) o in
    Some {| ActionBinding.sources := s; ActionBinding.chords := c;
            ActionBinding.haptics := h; ActionBinding.poses := p;
            ActionBinding.skeleton := k |}).

Definition BindingsSchema : Zod.schema (list (string * ActionBinding.t)) :=
  Zod.record ActionBindingSchema.

Definition BindingFileSchema : Zod.schema BindingFile.t :=
  Zod.object (fun o =>
    let? b := Zod.required "bindings" BindingsSchema o in
    let? c := Zod.required "controller_type" Zod.string o in
    let? d := Zod.required "description" Zod.string o in
    let? n := Zod.required "name" Zod.string o in
    Some {| BindingFile.bindings := b; BindingFile.controller_type := c;
            BindingFile.description := d; BindingFile.name := n |}).

Definition DefaultBindingSchema : Zod.schema DefaultBinding.t :=
  Zod.object (fun o =>
    let? c := Zod.required "controller_type" Zod.string o in
    let? u := Zod.required "binding_url" Zod.string o in
    Some {| DefaultBinding.controller_type := c; DefaultBinding.binding_url := u |}).

Definition ActionSchema : Zod.schema Action.t :=
  Zod.object (fun o =>
    let? n := Zod.required "name" Zod.string o in
    let? r := Zod.optional "requirement"
                (Zod.enum Requirement.to_string Requirement.options) o in
    let? t := Zod.required "type"
                (Zod.enum ActionType.to_string ActionType.options) o in
    let? s := Zod.optional "skeleton" Zod.string o in
    Some {| Action.name := n; Action.requirement := r; Action.type := t;
            Action.skeleton := s |}).

Definition ActionSetSchema : Zod.schema ActionSet.t :=
  Zod.object (fun o =>
    let? n := Zod.required "name" Zod.string o in
    let? u := Zod.required "usage" (Zod.enum Usage.to_string Usage.options) o in
    Some {| ActionSet.name := n; ActionSet.usage := u |}).

(** [z.object({language_tag: z.string()}).catchall(z.string())]: every
    property besides "language_tag" has to be a string and is kept.
    The object returned is created with "language_tag" first and the
    other properties after it; the entry is that object as its
    properties are gone through. *)
Definition LocalizationSchema : Zod.schema Localization :=
  Zod.object (fun o =>
    let? tag := Zod.required "language_tag" Zod.string o in
    let? rest := Zod.mapM (fun kv => match Zod.string (snd kv) with
                                     | Some s => Some (fst kv, s)
                                     | None => None
                                     end)
                   (filter (fun kv => negb (String.eqb (fst kv) "language_tag")) o) in
    Some (JS.own_properties (("language_tag", tag) :: rest))).

Definition ActionManifestSchema : Zod.schema ActionManifest.t :=
  Zod.object (fun o =>
    let? d := Zod.required "default_bindings" (Zod.array DefaultBindingSchema) o in
    let? a := Zod.required "actions" (Zod.array ActionSchema) o in
    let? s := Zod.required "action_sets" (Zod.array ActionSetSchema) o in
    let? l := Zod.required "localization" (Zod.array LocalizationSchema) o in
    Some {| ActionManifest.default_bindings := d; ActionManifest.actions := a;
            ActionManifest.action_sets := s; ActionManifest.localization := l |}).


(** ** The platform and the effects of the two tools *)

(** Library functions of the runtime the sources call. *)
Record Platform := {
  JSON_parse : string -> option json;          (* [None]: a SyntaxError *)
  path_dirname : string -> string;
  path_resolve : string -> string -> string
}.

Inductive exn :=
| NotFound (path : string)        (* thrown by [Deno.readTextFileSync] *)
| SyntaxError                     (* thrown by [JSON.parse] *)
| ZodError                        (* thrown by [schema.parse] *)
| Error (message : string).       (* [throw new Error(message)] *)

(** The file system and what has been printed so far (oldest first).
    Several paths can lead to one file ("m.json", "./m.json", a link):
    [file_id w p] is the file that the path [p] leads to, and
    [content w f] is the text of the file [f], so that a write at one
    path is seen at every path of the same file.  A write can fail:
    [write_failure w p text] is then the exception of the write and
    what it leaves as the content of the file (nothing new when the
    file could not be opened, a torn text when the write broke off). *)
Record World := {
  content : string -> option string;           (* [None]: unreadable *)
  console : list string;
  file_id : string -> string;
  write_failure : string -> string -> option (exn * option string)
}.

(** What reading at a path gives. *)
Definition files (w : World) (path : string) : option string :=
  content w (file_id w path).

(** How a call ends: it returns, it throws, or the process exits. *)
Inductive completion (A : Type) :=
| Normal (a : A)
| Thrown (e : exn)
| Exited (code : Z).
Arguments Normal {A} a.
Arguments Thrown {A} e.
Arguments Exited {A} code.

Definition M (A : Type) := World -> completion A * World.

Definition ret {A} (a : A) : M A := fun w => (Normal a, w).
Definition throw {A} (e : exn) : M A := fun w => (Thrown e, w).
Definition bind {A B} (m : M A) (k : A -> M B) : M B :=
  fun w => match m w with
           | (Normal a, w') => k a w'
           | (Thrown e, w') => (Thrown e, w')
           | (Exited c, w') => (Exited c, w')
           end.

Notation "x <- m ;; k" := (bind m (fun x => k))
  (at level 61, m at next level, right associativity).
Notation "m ;; k" := (bind m (fun _ => k))
  (at level 61, right associativity).


(** The world in which the file of [path] holds [text]. *)
Definition left_at (w : World) (path : string) (text : option string) : World :=
  {| content := fun f => if String.eqb f (file_id w path) then text
                         else content w f;
     console := console w;
     file_id := file_id w;
     write_failure := write_failure w |}.

(** The world after [text] has been stored under [path]. *)
Definition written (w : World) (path text : string) : World :=
  left_at w path (Some text).

Module Deno.
Definition readTextFileSync (path : string) : M string :=
  fun w => match files w path with
           | Some text => (Normal text, w)
           | None => (Thrown (NotFound path), w)
           end.

Definition writeTextFileSync (path text : string) : M unit :=
  fun w => match write_failure w path text with
           | None => (Normal tt, written w path text)
           | Some (e, torn) => (Thrown e, left_at w path torn)
           end.

Definition exit {A} (code : Z) : M A := fun w => (Exited code, w).
End Deno.

(** The world after [lines] have been printed. *)
Definition log (w : World) (lines : list string) : World :=
  {| content := content w; console := (console w ++ lines)%list;
     file_id := file_id w; write_failure := write_failure w |}.

(** [console.error] and [console.log]: one more line on the console.
    Where the source passes the zod issue list as a second argument,
    only the message is kept. *)
Definition console_error (line : string) : M unit :=
  fun w => (Normal tt, log w [line]).
Definition console_log (line : string) : M unit := console_error line.

(** [!v] for a value that came out of [JSON.parse]. *)
Definition falsy (v : json) : bool :=
  match v with
  | JNull => true
  | JBool b => negb b
  | JNumber n => Z.eqb n 0
  | JString s => negb (JS.nonempty s)
  | JArray _ | JObject _ => false
  end.

(** A positional argument as [parseArgs] delivers it in [flags._]. *)
Inductive positional := PString (s : string) | PNumber (n : Z).

(** ** The validator (packages/oscpie/utils/validate_action_manifests.ts) *)

Module Validator.

Record Options := { allow_missing_localization : bool }.

Inductive ValidationResult (T : Type) :=
| VALIDATION_FAILED
| Success (data : T).
Arguments VALIDATION_FAILED {T}.
Arguments Success {T} data.

Definition success {T} (r : ValidationResult T) : bool :=
  match r with VALIDATION_FAILED => false | Success _ => true end.

(** The [success] flag of the result a call returned, if it returned. *)
Definition success_of {T} (c : completion (ValidationResult T)) : option bool :=
  match c with Normal r => Some (success r) | _ => None end.

(** [new Set(xs)]: the elements in insertion order, each once. *)
Fixpoint Set_of (xs : list string) : list string :=
  match xs with
  | [] => []
  | x :: r => x :: filter (fun y => negb (String.eqb y x)) (Set_of r)
  end.

(** [set.delete(x)] *)
Definition Set_delete (x : string) (set : list string) : list string :=
  filter (fun y => negb (String.eqb y x)) set.

(** The inner loop over [Object.entries(localization)], lines 79-87. *)
Fixpoint delete_localized (entries : list (string * string))
         (missingActions : list string) : list string :=
  match entries with
  | [] => missingActions
  | (actionId, _) :: rest =>
      if String.eqb actionId "language_tag"
      then delete_localized rest missingActions
      else delete_localized rest (Set_delete actionId missingActions)
  end.

(** [missingActions] when the inner loop is over, lines 75-87. *)
Definition missing_for (m : ActionManifest.t) (localization : Localization)
  : list string :=
  delete_localized localization
    (Set_of (map Action.name (ActionManifest.actions m))).

(** [missingActions.size > 0] *)
Definition deficient (m : ActionManifest.t) (localization : Localization) : bool :=
  (0 <? List.length (missing_for m localization))%nat.

(** The line printed for a deficient entry, lines 90-94. *)
Definition warning (m : ActionManifest.t) (localization : Localization) : string :=
  "Localization is missing for actions: " ++ JS.join ", " (missing_for m localization).

Section WithPlatform.
Variable P : Platform.

(** [JSON.parse(Deno.readTextFileSync(path))] *)
Definition read_json (path : string) : M json :=
  text <- Deno.readTextFileSync path ;;
  match JSON_parse P text with
  | Some v => ret v
  | None => throw SyntaxError
  end.

Definition validateBindings (bindingPath : string)
  : M (ValidationResult BindingFile.t) :=
  binding <- read_json bindingPath ;;
  if falsy binding then
    console_error ("Failed to read or parse the binding file at "
                     ++ bindingPath ++ ".") ;;
    ret VALIDATION_FAILED
  else
    match BindingFileSchema binding with
    | None =>
        console_error ("Binding validation failed for " ++ bindingPath ++ ":") ;;
        ret VALIDATION_FAILED
    | Some data => ret (Success data)
    end.

(** The loop over the localization entries, lines 74-100: [None]
    stands for the early [return VALIDATION_FAILED]. *)
Fixpoint check_localizations (options : Options) (m : ActionManifest.t)
         (entries : list Localization) : M (option unit) :=
  match entries with
  | [] => ret (Some tt)
  | localization :: rest =>
      if deficient m localization then
        console_error (warning m localization) ;;
        if negb (allow_missing_localization options)
        then ret None
        else check_localizations options m rest
      else check_localizations options m rest
  end.

(** The loop over the default bindings, lines 102-136. *)
Fixpoint check_default_bindings (manifestPath : string)
         (entries : list DefaultBinding.t) : M (option unit) :=
  match entries with
  | [] => ret (Some tt)
  | defaultBinding :: rest =>
      let bindingPath :=
        path_resolve P (path_dirname P manifestPath)
                       (DefaultBinding.binding_url defaultBinding) in
      parsedBindings <- validateBindings bindingPath ;;
      if negb (success parsedBindings) then
        console_error ("Binding validation failed for " ++ bindingPath ++ ".") ;;
        ret None
      else check_default_bindings manifestPath rest
  end.

Definition validateManifest (manifestPath : string) (options : Options)
  : M (ValidationResult ActionManifest.t) :=
  manifest <- read_json manifestPath ;;
  if falsy manifest then
    console_error "Failed to read or parse the manifest file." ;;
    ret VALIDATION_FAILED
  else
    match ActionManifestSchema manifest with
    | None =>
        console_error "Manifest validation failed:" ;;
        ret VALIDATION_FAILED
    | Some data =>
        l <- check_localizations options data (ActionManifest.localization data) ;;
        match l with
        | None => ret VALIDATION_FAILED
        | Some _ =>
            b <- check_default_bindings manifestPath
                   (ActionManifest.default_bindings data) ;;
            match b with
            | None => ret VALIDATION_FAILED
            | Some _ => ret (Success data)
            end
        end
    end.

(** [main] with [flags._] and the parsed flag. *)
Definition main (args : list positional) (flags : Options) : M unit :=
  match nth_error args 0 with
  | Some (PString manifestPath) =>
      r <- validateManifest manifestPath flags ;;
      if success r then console_log "Manifest is valid."
      else console_error "Manifest validation failed." ;; Deno.exit 1
  | _ =>
      console_error "Please provide the path to the action manifest file." ;;
      Deno.exit 1
  end.

End WithPlatform.

End Validator.


(** ** The generator (utils/generate_action_codes.ts) *)

Module Generator.

(** A template literal, one list element per source line. *)
Definition template (source_lines : list string) : string :=
  JS.join JS.nl source_lines.

Definition INPUT_ACTIONS : list ActionType.t :=
  [ActionType.boolean; ActionType.vector1; ActionType.vector2;
   ActionType.vector3; ActionType.pose; ActionType.skeleton].

(** [inputActionFunctionByType], lines 34-81; the record has no entry
    for "vibration". *)
Definition inputActionFunctionByType (t : ActionType.t)
  : option (string -> string) :=
  match t with
  | ActionType.boolean => Some (fun actionName => template [
      "";
      "        pub fn get_" ++ actionName ++ "(";
      "            &self,";
      "        ) -> Result<BooleanInput> {";
      "            self.get_digital_action_data(self.generated_fields.action_handle_"
        ++ actionName ++ ")";
      "        }";
      "    " ])
  | ActionType.vector1 => Some (fun actionName => template [
      "";
      "        pub fn get_" ++ actionName ++ "(";
      "            &self,";
      "        ) -> Result<Vector1Input> {";
      "            self.get_vector1_action_data(self.generated_fields.action_handle_"
        ++ actionName ++ ")";
      "        }";
      "    " ])
  | ActionType.vector2 => Some (fun actionName => template [
      "";
      "        pub fn get_" ++ actionName ++ "(";
      "            &self,";
      "        ) -> Result<Vector2Input> {";
      "            self.get_vector2_action_data(self.generated_fields.action_handle_"
        ++ actionName ++ ")";
      "        }";
      "    " ])
  | ActionType.vector3 => Some (fun actionName => template [
      "";
      "        pub fn get_" ++ actionName ++ "(";
      "            &self,";
      "        ) -> Result<Vector3Input> {";
      "            self.get_vector3_action_data(self.generated_fields.action_handle_"
        ++ actionName ++ ")";
      "        }";
      "    " ])
  | ActionType.pose => Some (fun actionName => template [
      "";
      "        pub fn get_" ++ actionName ++ "(";
      "            &self,";
      "            tracking_universe_origin: TrackingUniverseOrigin";
      "        ) -> Result<PoseInput> {";
      "            self.get_pose_action_data(tracking_universe_origin, self.generated_fields.action_handle_"
        ++ actionName ++ ")";
      "        }";
      "    " ])
  | ActionType.skeleton => Some (fun actionName => template [
      "";
      "        pub fn get_" ++ actionName ++ "(";
      "            &self,";
      "        ) -> Result<SkeletonOutput> {";
      "            todo!();";
      "        }";
      "    " ])
  | ActionType.vibration => None
  end.

(** Lines 83-89. *)
Definition flatCode (code : string) : string :=
  JS.join JS.nl
    (filter (fun line => JS.nonempty line)
       (map (fun line => JS.trim line)
          (JS.split JS.LF code))).

Definition isInputAction (actionType : ActionType.t) : bool :=
  existsb (ActionType.eqb actionType) INPUT_ACTIONS.

(** Lines 106-114: the one function of the generator that throws. *)
Definition inputActionFunction (actionName : string) (actionType : ActionType.t)
  : exn + string :=
  if negb (isInputAction actionType) then
    inl (Error ("Invalid action type: " ++ ActionType.to_string actionType))
  else
    match inputActionFunctionByType actionType with
    | Some f => inr (f (canonicalizedActionName actionName))
    | None => inl (Error "inputActionFunctionByType[actionType] is not a function")
    end.

(** [xs.map(f)] for an [f] that may throw: the first exception wins. *)
Fixpoint map_throwing {A B} (f : A -> exn + B) (xs : list A) : exn + list B :=
  match xs with
  | [] => inr []
  | x :: r =>
      match f x with
      | inl e => inl e
      | inr y => match map_throwing f r with
                 | inl e => inl e
                 | inr ys => inr (y :: ys)
                 end
      end
  end.

(** Lines 116-130: returns on its first line. *)
Definition initFunction (actionManifest : ActionManifest.t) : string :=
  EmptyString.

(** Lines 132-139. *)
Definition inputActionFunctions (actionManifest : ActionManifest.t)
  : exn + string :=
  match map_throwing
          (fun action => inputActionFunction (Action.name action) (Action.type action))
          (filter (fun action => isInputAction (Action.type action))
             (ActionManifest.actions actionManifest)) with
  | inl e => inl e
  | inr fns => inr (JS.join (JS.nl ++ JS.nl) fns)
  end.

(** Lines 141-166. *)
Definition activationFunctions (actionManifest : ActionManifest.t) : string :=
  JS.join JS.nl
    (map (fun actionSet => template [
        "";
        "            pub fn activate_"
          ++ canonicalizedActionSetName (ActionSet.name actionSet)
          ++ "(&mut self) {";
        "                self.activate_action_set(self.generated_fields.action_set_handle_"
          ++ canonicalizedActionSetName (ActionSet.name actionSet) ++ ")";
        "            }";
        "";
        "            pub fn deactivate_"
          ++ canonicalizedActionSetName (ActionSet.name actionSet)
          ++ "(&mut self) {";
        "                // Deactivation logic for " ++ ActionSet.name actionSet;
        "                self.deactivate_action_set(self.generated_fields.action_set_handle_"
          ++ canonicalizedActionSetName (ActionSet.name actionSet) ++ ")";
        "            }";
        "        " ])
       (ActionManifest.action_sets actionManifest)).

(** Lines 176-214. *)
Definition fieldGenerationFunction (actionManifest : ActionManifest.t) : string :=
  let actionDeclarations :=
    JS.join JS.nl
      (map (fun action => template [
          "";
          "            let action_handle_"
            ++ canonicalizedActionName (Action.name action)
            ++ " = Self::get_action_handle(sys, " ++ JS.dq
            ++ Action.name action ++ JS.dq ++ ")?;";
          "        " ])
         (ActionManifest.actions actionManifest)) in
  let actionFields :=
    JS.join JS.nl
      (map (fun action => template [
          "";
          "            action_handle_"
            ++ canonicalizedActionName (Action.name action) ++ ",";
          "        " ])
         (ActionManifest.actions actionManifest)) in
  let actionSetDeclarations :=
    JS.join JS.nl
      (map (fun actionSet => template [
          "";
          "            let action_set_handle_"
            ++ canonicalizedActionSetName (ActionSet.name actionSet)
            ++ " = Self::get_action_set_handle(sys, " ++ JS.dq
            ++ ActionSet.name actionSet ++ JS.dq ++ ")?;";
          "        " ])
         (ActionManifest.action_sets actionManifest)) in
  let actionSetFields :=
    JS.join JS.nl
      (map (fun actionSet => template [
          "";
          "            action_set_handle_"
            ++ canonicalizedActionSetName (ActionSet.name actionSet) ++ ",";
          "        " ])
         (ActionManifest.action_sets actionManifest)) in
  template [
    "";
    "        fn generate_fields(sys: &sys::VR_IVRInput_FnTable) -> Result<GeneratedFields> {";
    "            " ++ actionDeclarations;
    "            " ++ actionSetDeclarations;
    "";
    "            Ok(GeneratedFields {";
    "                " ++ actionFields;
    "                " ++ actionSetFields;
    "            })";
    "        }";
    "    " ].

(** Lines 216-239. *)
Definition generatedFields (actionManifest : ActionManifest.t) : string :=
  let generatedActionFields :=
    JS.join JS.nl
      (map (fun action => template [
          "";
          "            action_handle_"
            ++ canonicalizedActionName (Action.name action)
            ++ ": sys::VRActionHandle_t,";
          "        " ])
         (ActionManifest.actions actionManifest)) in
  let generatedActionSetFields :=
    JS.join JS.nl
      (map (fun actionSet => template [
          "";
          "            action_set_handle_"
            ++ canonicalizedActionSetName (ActionSet.name actionSet)
            ++ ": sys::VRActionSetHandle_t,";
          "        " ])
         (ActionManifest.action_sets actionManifest)) in
  template [
    "";
    "        struct GeneratedFields {";
    "            " ++ generatedActionFields;
    "            " ++ generatedActionSetFields;
    "        }";
    "    " ].

(** Lines 241-252. *)
Definition code (actionManifest : ActionManifest.t) : exn + string :=
  match inputActionFunctions actionManifest with
  | inl e => inl e
  | inr accessors =>
      inr (JS.trim (template [
        "";
        "        impl Input {";
        "            " ++ initFunction actionManifest;
        "            " ++ fieldGenerationFunction actionManifest;
        "            " ++ accessors;
        "            " ++ activationFunctions actionManifest;
        "        }";
        "";
        "        " ++ generatedFields actionManifest;
        "    " ]))
  end.

(** The accessor text of an input action. *)
Definition accessor (action : Action.t) : string :=
  match inputActionFunctionByType (Action.type action) with
  | Some f => f (canonicalizedActionName (Action.name action))
  | None => EmptyString
  end.

Definition generationNotice : string :=
  "// This file is generated by utils/generate_action_codes.ts. Do not edit it manually."
    ++ JS.nl ++ JS.nl.

(** The regular expression [/\/\/\s*STUB_FOLLOWS.*/s] matches at the
    start of [s]: two slashes, any white space, the marker word (the
    rest of the text is taken by the dot-all [.*]). *)
Definition stub_marker_here (s : string) : bool :=
  match JS.strip_prefix "//" s with
  | Some r =>
      match JS.strip_prefix "STUB_FOLLOWS" (JS.trimStart r) with
      | Some _ => true
      | None => false
      end
  | None => false
  end.

(** [prelude.replace(/\/\/\s*STUB_FOLLOWS.*/s, "")]: the leftmost match
    runs to the end of the text and is replaced by nothing. *)
Fixpoint strip_stub (prelude : string) : string :=
  match prelude with
  | EmptyString => EmptyString
  | String c r =>
      if stub_marker_here prelude then EmptyString else String c (strip_stub r)
  end.

Definition lift {A} (r : exn + A) : M A :=
  match r with inl e => throw e | inr a => ret a end.

Section WithPlatform.
Variable P : Platform.

(** Lines 254-288, with [flags._] as argument. *)
Definition main (args : list positional) : M unit :=
  match nth_error args 0, nth_error args 1, nth_error args 2 with
  | Some (PString manifestPath), Some (PString preludePath),
    Some (PString generatedPath) =>
      manifestText <- Deno.readTextFileSync manifestPath ;;
      manifestJson <- match JSON_parse P manifestText with
                      | Some v => ret v
                      | None => throw SyntaxError
                      end ;;
      actionManifest <- match ActionManifestSchema manifestJson with
                        | Some m => ret m
                        | None => throw ZodError
                        end ;;
      preludeText <- Deno.readTextFileSync preludePath ;;
      let preludeCode := strip_stub preludeText in
      generatedCode <- lift (code actionManifest) ;;
      Deno.writeTextFileSync generatedPath
        (flatCode (generationNotice ++ preludeCode ++ generatedCode))
  | _, _, _ =>
      console_error
        "Please provide the path to the action manifest file, the prelude file and the output file." ;;
      Deno.exit 1
  end.

End WithPlatform.

End Generator.


(** ** The pieces of generated text the properties speak about *)

Module Emitted.

(** The one identifier an action's handle goes by. *)
Definition action_handle (action : Action.t) : string :=
  "action_handle_" ++ canonicalizedActionName (Action.name action).

Definition action_set_handle (actionSet : ActionSet.t) : string :=
  "action_set_handle_" ++ canonicalizedActionSetName (ActionSet.name actionSet).

(** The handle declaration in [generate_fields]. *)
Definition action_declaration (action : Action.t) : string :=
  "let " ++ action_handle action ++ " = Self::get_action_handle(sys, "
    ++ JS.dq ++ Action.name action ++ JS.dq ++ ")?;".

(** The field in the [Ok(GeneratedFields { ... })] expression. *)
Definition action_field_value (action : Action.t) : string :=
  action_handle action ++ ",".

(** The field in [struct GeneratedFields]. *)
Definition action_field (action : Action.t) : string :=
  action_handle action ++ ": sys::VRActionHandle_t,".

(** The first line of an accessor. *)
Definition accessor_head (action : Action.t) : string :=
  "pub fn get_" ++ canonicalizedActionName (Action.name action) ++ "(".

(** The handle as an accessor body passes it on. *)
Definition handle_argument (action : Action.t) : string :=
  "self.generated_fields." ++ action_handle action ++ ")".

Definition action_set_declaration (actionSet : ActionSet.t) : string :=
  "let " ++ action_set_handle actionSet ++ " = Self::get_action_set_handle(sys, "
    ++ JS.dq ++ ActionSet.name actionSet ++ JS.dq ++ ")?;".

Definition action_set_field_value (actionSet : ActionSet.t) : string :=
  action_set_handle actionSet ++ ",".

Definition action_set_field (actionSet : ActionSet.t) : string :=
  action_set_handle actionSet ++ ": sys::VRActionSetHandle_t,".

(** The activation function, from its name to the end of its body. *)
Definition activate_function (actionSet : ActionSet.t) : string :=
  "pub fn activate_" ++ canonicalizedActionSetName (ActionSet.name actionSet)
    ++ "(&mut self) {" ++ JS.nl
    ++ "                self.activate_action_set(self.generated_fields."
    ++ action_set_handle actionSet ++ ")" ++ JS.nl
    ++ "            }".

Definition deactivate_function (actionSet : ActionSet.t) : string :=
  "pub fn deactivate_" ++ canonicalizedActionSetName (ActionSet.name actionSet)
    ++ "(&mut self) {" ++ JS.nl
    ++ "                // Deactivation logic for " ++ ActionSet.name actionSet ++ JS.nl
    ++ "                self.deactivate_action_set(self.generated_fields."
    ++ action_set_handle actionSet ++ ")" ++ JS.nl
    ++ "            }".

(** The action types whose accessor reads a stored handle. *)
Definition reads_handle (t : ActionType.t) : bool :=
  match t with
  | ActionType.boolean | ActionType.vector1 | ActionType.vector2
  | ActionType.vector3 | ActionType.pose => true
  | ActionType.skeleton | ActionType.vibration => false
  end.

End Emitted.

(** ** The generated unit in the specification's words, line by line *)

Module Unit.

(** The notice header. *)
Definition notice : string :=
  "// This file is generated by utils/generate_action_codes.ts. Do not edit it manually.".

(** The function that fetches the handles: one declaration per action
    and per action set, then one field of the structure value each. *)
Definition field_generation (m : ActionManifest.t) : list string :=
  (["fn generate_fields(sys: &sys::VR_IVRInput_FnTable) -> Result<GeneratedFields> {"]
   ++ map Emitted.action_declaration (ActionManifest.actions m)
   ++ map Emitted.action_set_declaration (ActionManifest.action_sets m)
   ++ ["Ok(GeneratedFields {"]
   ++ map Emitted.action_field_value (ActionManifest.actions m)
   ++ map Emitted.action_set_field_value (ActionManifest.action_sets m)
   ++ ["})"; "}"])%list.

(** The accessor of an action: none for an output action. *)
Definition accessor (action : Action.t) : list string :=
  match Action.type action with
  | ActionType.boolean =>
      [Emitted.accessor_head action; "&self,"; ") -> Result<BooleanInput> {";
       "self.get_digital_action_data(" ++ Emitted.handle_argument action; "}"]
  | ActionType.vector1 =>
      [Emitted.accessor_head action; "&self,"; ") -> Result<Vector1Input> {";
       "self.get_vector1_action_data(" ++ Emitted.handle_argument action; "}"]
  | ActionType.vector2 =>
      [Emitted.accessor_head action; "&self,"; ") -> Result<Vector2Input> {";
       "self.get_vector2_action_data(" ++ Emitted.handle_argument action; "}"]
  | ActionType.vector3 =>
      [Emitted.accessor_head action; "&self,"; ") -> Result<Vector3Input> {";
       "self.get_vector3_action_data(" ++ Emitted.handle_argument action; "}"]
  | ActionType.pose =>
      [Emitted.accessor_head action; "&self,";
       "tracking_universe_origin: TrackingUniverseOrigin";
       ") -> Result<PoseInput> {";
       "self.get_pose_action_data(tracking_universe_origin, "
         ++ Emitted.handle_argument action;
       "}"]
  | ActionType.skeleton =>
      [Emitted.accessor_head action; "&self,"; ") -> Result<SkeletonOutput> {";
       "todo!();"; "}"]
  | ActionType.vibration => []
  end.

(** The activation and the deactivation function of an action set. *)
Definition activation (actionSet : ActionSet.t) : list string :=
  ["pub fn activate_" ++ canonicalizedActionSetName (ActionSet.name actionSet)
     ++ "(&mut self) {";
   "self.activate_action_set(self.generated_fields."
     ++ Emitted.action_set_handle actionSet ++ ")";
   "}";
   "pub fn deactivate_" ++ canonicalizedActionSetName (ActionSet.name actionSet)
     ++ "(&mut self) {";
   "// Deactivation logic for " ++ ActionSet.name actionSet;
   "self.deactivate_action_set(self.generated_fields."
     ++ Emitted.action_set_handle actionSet ++ ")";
   "}"].

(** The trailing structure: one handle field per action and per action
    set. *)
Definition structure (m : ActionManifest.t) : list string :=
  (["struct GeneratedFields {"]
   ++ map Emitted.action_field (ActionManifest.actions m)
   ++ map Emitted.action_set_field (ActionManifest.action_sets m)
   ++ ["}"])%list.

(** The generated block after its opening line. *)
Definition body (m : ActionManifest.t) : list string :=
  (field_generation m
   ++ flat_map accessor (ActionManifest.actions m)
   ++ flat_map activation (ActionManifest.action_sets m)
   ++ ["}"]
   ++ structure m)%list.

Definition block (m : ActionManifest.t) : list string :=
  "impl Input {" :: body m.

End Unit.

(** The last character of [s] is not white space. *)
Fixpoint last_is_visible (s : string) : bool :=
  match s with
  | EmptyString => false
  | String c EmptyString => negb (JS.is_whitespace c)
  | String _ r => last_is_visible r
  end.

(** ** The localization check in the specification's words *)

(** The keys of a localization entry other than "language_tag". *)
Definition localized_keys (entry : Localization) : list string :=
  filter (fun k => negb (String.eqb k "language_tag")) (map fst entry).

(** The entry covers the manifest: every action name is one of its
    localized keys, that is, the set difference
    {action names} - {localized keys} is empty. *)
Definition covers (m : ActionManifest.t) (entry : Localization) : Prop :=
  forall name, In name (map Action.name (ActionManifest.actions m)) ->
               In name (localized_keys entry).

(** ** Concrete platform and documents for the examples *)

Module Example.

Fixpoint before_last_slash (s : string) : option string :=
  match s with
  | EmptyString => None
  | String c r =>
      match before_last_slash r with
      | Some d => Some (String c d)
      | None => if Ascii.eqb c "/" then Some EmptyString else None
      end
  end.

Definition dirname (s : string) : string :=
  match before_last_slash s with
  | Some EmptyString => "/"
  | Some d => d
  | None => "."
  end.

Definition resolve (dir url : string) : string :=
  match url with
  | String "/" _ => url
  | _ => dir ++ "/" ++ url
  end.

Fixpoint lookup (table : list (string * json)) (text : string) : option json :=
  match table with
  | [] => None
  | (t, v) :: r => if String.eqb t text then Some v else lookup r text
  end.

(** A platform whose [JSON.parse] knows the documents of [table] by
    their text and rejects every other text. *)
Definition platform (table : list (string * json)) : Platform :=
  {| JSON_parse := lookup table; path_dirname := dirname; path_resolve := resolve |}.

Definition store (entries : list (string * string)) : string -> option string :=
  fun p => match find (fun e => String.eqb (fst e) p) entries with
           | Some e => Some (snd e)
           | None => None
           end.

(** A file system in which every path is a file of its own and every
    write succeeds. *)
Definition world (entries : list (string * string)) : World :=
  {| content := store entries; console := [];
     file_id := fun p => p; write_failure := fun _ _ => None |}.

Definition action (name type : string) : json :=
  JObject [("name", JString name); ("type", JString type)].

(** Actions "/a" and "/b"; one localization that covers only "/a". *)
Definition partly_localized : json :=
  JObject [
    ("default_bindings", JArray []);
    ("actions", JArray [action "/a" "boolean"; action "/b" "boolean"]);
    ("action_sets", JArray []);
    ("localization", JArray [
       JObject [("language_tag", JString "en_US"); ("/a", JString "A")]])
  ].

(** One default binding whose file does not exist. *)
Definition dangling_binding : json :=
  JObject [
    ("default_bindings", JArray [
       JObject [("controller_type", JString "knuckles");
                ("binding_url", JString "bindings_knuckles.json")]]);
    ("actions", JArray []);
    ("action_sets", JArray []);
    ("localization", JArray [])
  ].

(** An action whose type is none of the seven known ones. *)
Definition unknown_type : json :=
  JObject [
    ("default_bindings", JArray []);
    ("actions", JArray [action "/actions/main/in/Jump" "button"]);
    ("action_sets", JArray []);
    ("localization", JArray [])
  ].

(** One default binding whose file holds the empty object. *)
Definition hollow_binding : json :=
  JObject [
    ("default_bindings", JArray [
       JObject [("controller_type", JString "knuckles");
                ("binding_url", JString "hollow.json")]]);
    ("actions", JArray [action "/actions/main/in/Jump" "boolean"]);
    ("action_sets", JArray []);
    ("localization", JArray [])
  ].

Definition documents : list (string * json) :=
  [("text of partly_localized", partly_localized);
   ("text of dangling_binding", dangling_binding);
   ("text of unknown_type", unknown_type);
   ("text of hollow_binding", hollow_binding);
   ("{}", JObject [])].

Definition P : Platform := platform documents.

Definition disk : World :=
  world [("partly_localized.json", "text of partly_localized");
         ("dangling_binding.json", "text of dangling_binding");
         ("unknown_type.json", "text of unknown_type");
         ("hollow_binding.json", "text of hollow_binding");
         ("./hollow.json", "{}");
         ("garbled.json", "{ not json");
         ("prelude.rs", "use crate::sys;" ++ JS.nl ++ "// STUB_FOLLOWS" ++ JS.nl
                          ++ "impl Input {}")].

Definition jump : Action.t :=
  {| Action.name := "/actions/main/in/Jump"; Action.requirement := None;
     Action.type := ActionType.boolean; Action.skeleton := None |}.
Definition buzz : Action.t :=
  {| Action.name := "/actions/main/out/Buzz"; Action.requirement := None;
     Action.type := ActionType.vibration; Action.skeleton := None |}.
Definition main_set : ActionSet.t :=
  {| ActionSet.name := "/actions/main"; ActionSet.usage := Usage.single |}.

(** A validated manifest: one input action, one output action, one set. *)
Definition manifest : ActionManifest.t :=
  {| ActionManifest.default_bindings := [];
     ActionManifest.actions := [jump; buzz];
     ActionManifest.action_sets := [main_set];
     ActionManifest.localization := [] |}.

(** The block [code] generates for it. *)
Definition generated : string :=
  match Generator.code manifest with
  | inr text => text
  | inl _ => EmptyString
  end.

Definition strict : Validator.Options :=
  {| Validator.allow_missing_localization := false |}.
Definition lenient : Validator.Options :=
  {| Validator.allow_missing_localization := true |}.

End Example.


(** ** Notions the further properties are stated with *)

(** A call that did nothing to the world but print, and did not exit. *)
Definition only_prints {A} (r : completion A * World) (w : World) : Prop :=
  (exists lines, snd r = log w lines) /\ (forall code, fst r <> Exited code).

(** The path [validateManifest] reads a default binding from. *)
Definition binding_path (P : Platform) (manifestPath : string)
           (defaultBinding : DefaultBinding.t) : string :=
  path_resolve P (path_dirname P manifestPath)
                 (DefaultBinding.binding_url defaultBinding).

(** The file at [path] is readable, parses to a truthy JSON value and
    that value passes the binding-file schema. *)
Definition binding_file_valid (P : Platform) (w : World) (path : string) : Prop :=
  exists text v data,
    files w path = Some text /\ JSON_parse P text = Some v /\
    falsy v = false /\ BindingFileSchema v = Some data.


(** The line the generator prints when its arguments are not three paths. *)
Definition usage_line : string :=
  "Please provide the path to the action manifest file, the prelude file and the output file.".

(** The lines [flatCode] joins: the trimmed lines that are not empty. *)
Definition kept_lines (code : string) : list string :=
  filter (fun line => JS.nonempty line)
    (map (fun line => JS.trim line) (JS.split JS.LF code)).

(** The characters of [s] that are not white space, in order. *)
Fixpoint visible (s : string) : string :=
  match s with
  | EmptyString => EmptyString
  | String c r => if JS.is_whitespace c then visible r else String c (visible r)
  end.

(** The visible characters of a list of lines, one line after the other. *)
Fixpoint visible_of_lines (ls : list string) : string :=
  match ls with
  | [] => EmptyString
  | l :: r => visible l ++ visible_of_lines r
  end.

(** ** A manifest that validates, with its binding file *)

Module Sample.

Definition knuckles : json :=
  JObject [
    ("bindings", JObject [
       ("/actions/main", JObject [
          ("chords", JArray [JNull; JNumber 7]);
          ("haptics", JArray [
             JObject [("output", JString "/actions/main/out/Buzz");
                      ("path", JString "/user/hand/left/output/haptic")]])])]);
    ("controller_type", JString "knuckles");
    ("description", JString "Default bindings");
    ("name", JString "knuckles defaults")
  ].

Definition actions_json : json :=
  JObject [
    ("default_bindings", JArray [
       JObject [("controller_type", JString "knuckles");
                ("binding_url", JString "knuckles.json")]]);
    ("actions", JArray [
       JObject [("name", JString "/actions/main/in/Jump");
                ("requirement", JString "mandatory");
                ("type", JString "boolean")];
       JObject [("name", JString "/actions/main/out/Buzz");
                ("type", JString "vibration")]]);
    ("action_sets", JArray [
       JObject [("name", JString "/actions/main"); ("usage", JString "single")]]);
    ("localization", JArray [
       JObject [("language_tag", JString "en_US");
                ("/actions/main/in/Jump", JString "Jump");
                ("/actions/main/out/Buzz", JString "Buzz")]])
  ].

Definition P : Platform :=
  Example.platform [("text of actions.json", actions_json);
                    ("text of knuckles.json", knuckles);
                    ("null", JNull);
                    ("[]", JArray [])].

Definition disk : World :=
  Example.world [("/app/actions.json", "text of actions.json");
                 ("/app/knuckles.json", "text of knuckles.json");
                 ("/app/null.json", "null");
                 ("/app/list.json", "[]");
                 ("/app/prelude.rs", "use crate::sys;" ++ JS.nl)].

(** [actions_json] as the schema reads it. *)
Definition manifest : ActionManifest.t :=
  {| ActionManifest.default_bindings :=
       [ {| DefaultBinding.controller_type := "knuckles";
            DefaultBinding.binding_url := "knuckles.json" |} ];
     ActionManifest.actions :=
       [ {| Action.name := "/actions/main/in/Jump";
            Action.requirement := Some Requirement.mandatory;
            Action.type := ActionType.boolean; Action.skeleton := None |};
         {| Action.name := "/actions/main/out/Buzz";
            Action.requirement := None;
            Action.type := ActionType.vibration; Action.skeleton := None |} ];
     ActionManifest.action_sets :=
       [ {| ActionSet.name := "/actions/main"; ActionSet.usage := Usage.single |} ];
     ActionManifest.localization :=
       [ [("language_tag", "en_US"); ("/actions/main/in/Jump", "Jump");
          ("/actions/main/out/Buzz", "Buzz")] ] |}.

(** The same actions and action set, with nothing else told about them. *)
Definition bare : ActionManifest.t :=
  {| ActionManifest.default_bindings := [];
     ActionManifest.actions :=
       [ {| Action.name := "/actions/main/in/Jump";
            Action.requirement := None;
            Action.type := ActionType.boolean; Action.skeleton := Some "left" |};
         {| Action.name := "/actions/main/out/Buzz";
            Action.requirement := Some Requirement.optional;
            Action.type := ActionType.vibration; Action.skeleton := None |} ];
     ActionManifest.action_sets :=
       [ {| ActionSet.name := "/actions/main"; ActionSet.usage := Usage.leftright |} ];
     ActionManifest.localization := [] |}.

End Sample.

(** ** The cookie jar of the VRChat API client (src/unnamed/part_001) *)

Module VRChat.

Section Cookies.
Context {V : Type}.

(** A [Cookie] object: its name, its value and the attributes that the
    Set-Cookie header carried (expires, maxAge, domain, path, ...), own
    properties in insertion order, with values of a type [V]. *)
Record Cookie := {
  name : string;
  value : string;
  attributes : list (string * V)
}.

(** Lines 7-9. *)
Definition cookieHeader (cookies : list Cookie) : string :=
  JS.join "; " (map (fun c => name c ++ "=" ++ value c) cookies).

(** [object[key] = v]: an own property keeps its place and takes the
    new value, a new one goes last. *)
Fixpoint set_property (key : string) (v : V) (props : list (string * V))
  : list (string * V) :=
  match props with
  | [] => [(key, v)]
  | (k, old) :: rest =>
      if String.eqb k key then (k, v) :: rest
      else (k, old) :: set_property key v rest
  end.

(** [Object.assign(target, source)]: every own property of the source,
    [name] and [value] among them, is set on the target. *)
Definition Object_assign (target source : Cookie) : Cookie :=
  {| name := name source;
     value := value source;
     attributes :=
       fold_left (fun props kv => set_property (fst kv) (snd kv) props)
                 (attributes source) (attributes target) |}.

(** The callback of lines 78-90 on the jar [this.authorization.cookies]:
    [find] gives the first cookie of that name, which is assigned in
    place; without one the cookie is pushed. *)
Fixpoint receive (cookie : Cookie) (jar : list Cookie) : list Cookie :=
  match jar with
  | [] => [cookie]
  | c :: rest =>
      if String.eqb (name c) (name cookie)
      then Object_assign c cookie :: rest
      else c :: receive cookie rest
  end.

(** [cookies.forEach(...)], lines 78-90. *)
Definition store_cookies (cookies jar : list Cookie) : list Cookie :=
  fold_left (fun jar cookie => receive cookie jar) cookies jar.

(** The names of [arriving] that are not among [seen], each once, in
    the order of their first arrival. *)
Fixpoint first_arrivals (seen arriving : list string) : list string :=
  match arriving with
  | [] => []
  | n :: later =>
      if existsb (String.eqb n) seen then first_arrivals seen later
      else n :: first_arrivals (n :: seen) later
  end.

(** [jar.find((c) => c.name === n)] *)
Definition find_cookie (n : string) (jar : list Cookie) : option Cookie :=
  find (fun c => String.eqb (name c) n) jar.

(** [object[key]] of an own property. *)
Definition property (key : string) (props : list (string * V)) : option V :=
  option_map snd (find (fun kv => String.eqb (fst kv) key) props).

End Cookies.

Arguments Cookie V : clear implicits.

End VRChat.


(* ================================================================== *)
(** * Part II: properties                                              *)
(* ================================================================== *)

(** ** Strings *)

Lemma append_assoc (a b c : string) : (a ++ b) ++ c = a ++ b ++ c.
Proof. induction a as [|x a IH]; simpl; [reflexivity | now rewrite IH]. Qed.

Lemma append_nil_r (a : string) : a ++ EmptyString = a.
Proof. induction a as [|x a IH]; simpl; [reflexivity | now rewrite IH]. Qed.

Lemma has_char_app (c : ascii) (a b : string) :
  has_char c (a ++ b) = has_char c a || has_char c b.
Proof.
  induction a as [|x a IH]; simpl; [reflexivity|].
  rewrite IH. apply orb_assoc.
Qed.

(** *** [split] and [join] *)

Lemma split_not_nil (sep : ascii) (s : string) : JS.split sep s <> [].
Proof.
  destruct s as [|c r]; simpl; [discriminate|].
  destruct (Ascii.eqb c sep); [discriminate|].
  destruct (JS.split sep r); discriminate.
Qed.

Lemma split_no_sep (sep : ascii) (s l : string) :
  In l (JS.split sep s) -> has_char sep l = false.
Proof.
  revert l. induction s as [|c r IH]; simpl; intros l H.
  - destruct H as [<-|[]]. reflexivity.
  - destruct (Ascii.eqb c sep) eqn:E.
    + destruct H as [<-|H]; [reflexivity | apply IH, H].
    + destruct (JS.split sep r) as [|l0 ls].
      * destruct H as [<-|[]]. simpl. now rewrite E.
      * destruct H as [<-|H].
        -- simpl. rewrite E. apply IH. now left.
        -- apply IH. now right.
Qed.

Lemma split_without_sep (sep : ascii) (l : string) :
  has_char sep l = false -> JS.split sep l = [l].
Proof.
  induction l as [|c r IH]; simpl; intros H; [reflexivity|].
  apply orb_false_iff in H as [Hc Hr].
  rewrite Hc, (IH Hr). reflexivity.
Qed.

Lemma split_app_sep (sep : ascii) (l rest : string) :
  has_char sep l = false ->
  JS.split sep (l ++ String sep rest) = l :: JS.split sep rest.
Proof.
  induction l as [|c r IH]; simpl; intros H.
  - now rewrite Ascii.eqb_refl.
  - apply orb_false_iff in H as [Hc Hr].
    rewrite Hc, (IH Hr). reflexivity.
Qed.

Lemma join_cons2 (sep x y : string) (r : list string) :
  JS.join sep (x :: y :: r) = x ++ sep ++ JS.join sep (y :: r).
Proof. reflexivity. Qed.

Lemma split_join (sep : ascii) (ls : list string) :
  ls <> [] ->
  (forall l, In l ls -> has_char sep l = false) ->
  JS.split sep (JS.join (String sep EmptyString) ls) = ls.
Proof.
  induction ls as [|x r IH]; intros Hne H; [congruence|].
  destruct r as [|y r].
  - simpl. apply split_without_sep, H. now left.
  - rewrite join_cons2. simpl append.
    rewrite split_app_sep by (apply H; now left).
    f_equal. apply IH; [discriminate|].
    intros l Hl. apply H. now right.
Qed.

(** *** [trim] *)

Lemma trimStart_clean (s : string) : starts_clean (JS.trimStart s).
Proof.
  induction s as [|c r IH]; simpl; [exact I|].
  destruct (JS.is_whitespace c) eqn:E; [exact IH | exact E].
Qed.

Lemma trimStart_of_clean (s : string) : starts_clean s -> JS.trimStart s = s.
Proof. destruct s as [|c r]; simpl; intros H; [reflexivity | now rewrite H]. Qed.

Lemma trimEnd_clean (s : string) : starts_clean s -> starts_clean (JS.trimEnd s).
Proof.
  destruct s as [|c r]; simpl; intros H; [exact I|].
  destruct (JS.trimEnd r); [rewrite H|]; exact H.
Qed.

Lemma trimEnd_idempotent (s : string) : JS.trimEnd (JS.trimEnd s) = JS.trimEnd s.
Proof.
  induction s as [|c r IH]; simpl; [reflexivity|].
  destruct (JS.trimEnd r) as [|d r'] eqn:E.
  - destruct (JS.is_whitespace c) eqn:W; simpl; [reflexivity | now rewrite W].
  - change (JS.trimEnd (String c (String d r'))) with
      (match JS.trimEnd (String d r') with
       | EmptyString => if JS.is_whitespace c then EmptyString else String c EmptyString
       | r'' => String c r''
       end).
    rewrite IH. reflexivity.
Qed.

Lemma trim_idempotent (s : string) : JS.trim (JS.trim s) = JS.trim s.
Proof.
  unfold JS.trim.
  rewrite (trimStart_of_clean (JS.trimEnd (JS.trimStart s)))
    by apply trimEnd_clean, trimStart_clean.
  apply trimEnd_idempotent.
Qed.

Lemma has_char_trimStart (c : ascii) (s : string) :
  has_char c s = false -> has_char c (JS.trimStart s) = false.
Proof.
  induction s as [|d r IH]; simpl; intros H; [reflexivity|].
  destruct (JS.is_whitespace d); [|exact H].
  apply orb_false_iff in H as [_ Hr]. apply IH, Hr.
Qed.

Lemma has_char_trimEnd (c : ascii) (s : string) :
  has_char c s = false -> has_char c (JS.trimEnd s) = false.
Proof.
  induction s as [|d r IH]; simpl; intros H; [reflexivity|].
  apply orb_false_iff in H as [Hd Hr]. specialize (IH Hr).
  destruct (JS.trimEnd r) as [|e r'].
  - destruct (JS.is_whitespace d); simpl; [reflexivity | now rewrite Hd].
  - simpl. rewrite Hd. exact IH.
Qed.

Lemma has_char_trim (c : ascii) (s : string) :
  has_char c s = false -> has_char c (JS.trim s) = false.
Proof. intros H. apply has_char_trimEnd, has_char_trimStart, H. Qed.

(** *** Occurrences *)

Lemma contains_refl (s : string) : contains s s.
Proof. exists EmptyString, EmptyString. simpl. now rewrite append_nil_r. Qed.

Lemma contains_app_r (a b n : string) : contains b n -> contains (a ++ b) n.
Proof.
  intros [pre [post ->]]. exists (a ++ pre), post. now rewrite append_assoc.
Qed.

Lemma contains_app_l (a b n : string) : contains a n -> contains (a ++ b) n.
Proof.
  intros [pre [post ->]]. exists pre, (post ++ b). now rewrite !append_assoc.
Qed.

Lemma contains_cons (c : ascii) (s n : string) :
  contains s n -> contains (String c s) n.
Proof. apply (contains_app_r (String c EmptyString)). Qed.

Lemma contains_trans (a b c : string) :
  contains a b -> contains b c -> contains a c.
Proof.
  intros [p [q ->]] H. apply contains_app_r, contains_app_l, H.
Qed.

Lemma contains_join (sep x : string) (xs : list string) :
  In x xs -> contains (JS.join sep xs) x.
Proof.
  induction xs as [|y r IH]; intros H; [destruct H|].
  destruct r as [|z r].
  - destruct H as [->|[]]. apply contains_refl.
  - rewrite join_cons2. destruct H as [->|H].
    + apply contains_app_l, contains_refl.
    + apply contains_app_r, contains_app_r, IH, H.
Qed.

Lemma contains_join_map {A} (sep : string) (f : A -> string) (xs : list A) (x : A) :
  In x xs -> contains (JS.join sep (map f xs)) (f x).
Proof. intros H. apply contains_join, in_map, H. Qed.

Lemma contains_nonempty (s n : string) :
  contains s n -> n <> EmptyString -> JS.nonempty s = true.
Proof.
  intros [pre [post ->]] H. destruct pre; [|reflexivity].
  destruct n; [congruence | reflexivity].
Qed.

Lemma ends_clean_nonempty (n : string) : ends_clean n -> n <> EmptyString.
Proof. intros [body [c [-> _]]]. destruct body; discriminate. Qed.

Lemma trimStart_contains (s n : string) :
  contains s n -> n <> EmptyString -> starts_clean n ->
  contains (JS.trimStart s) n.
Proof.
  intros [pre [post ->]] Hn Hc.
  induction pre as [|c r IH]; simpl.
  - destruct n as [|x n]; [congruence|]. simpl in *. rewrite Hc.
    exists EmptyString, post. reflexivity.
  - destruct (JS.is_whitespace c); [exact IH|].
    apply contains_cons. exists r, post. reflexivity.
Qed.

Lemma trimEnd_cons_clean (c : ascii) (r : string) :
  JS.is_whitespace c = false ->
  JS.trimEnd (String c r) = String c (JS.trimEnd r).
Proof. intros H. simpl. destruct (JS.trimEnd r); [now rewrite H | reflexivity]. Qed.

Lemma trimEnd_app_kept (a b : string) :
  JS.trimEnd b <> EmptyString -> JS.trimEnd (a ++ b) = a ++ JS.trimEnd b.
Proof.
  intros H. induction a as [|x a IH]; simpl; [reflexivity|].
  rewrite IH. destruct (a ++ JS.trimEnd b) eqn:E; [|reflexivity].
  destruct a; simpl in E; [congruence | discriminate].
Qed.

Lemma trimEnd_contains (s n : string) :
  contains s n -> ends_clean n -> contains (JS.trimEnd s) n.
Proof.
  intros [pre [post ->]] [body [c [-> Hc]]].
  rewrite append_assoc. simpl.
  rewrite <- append_assoc.
  rewrite trimEnd_app_kept; rewrite trimEnd_cons_clean by exact Hc; [|discriminate].
  exists pre, (JS.trimEnd post). now rewrite !append_assoc.
Qed.

Lemma trim_contains (s n : string) :
  contains s n -> starts_clean n -> ends_clean n -> contains (JS.trim s) n.
Proof.
  intros H S E. apply trimEnd_contains; [|exact E].
  apply trimStart_contains; [exact H | apply ends_clean_nonempty, E | exact S].
Qed.

Lemma split_prefix_line (sep : ascii) (n post : string) :
  has_char sep n = false ->
  exists l ls, JS.split sep (n ++ post) = (n ++ l) :: ls.
Proof.
  intros H. induction n as [|c r IH]; simpl.
  - destruct (JS.split sep post) as [|l ls] eqn:E.
    + now apply split_not_nil in E.
    + exists l, ls. reflexivity.
  - simpl in H. apply orb_false_iff in H as [Hc Hr].
    rewrite Hc. destruct (IH Hr) as [l [ls ->]]. exists l, ls. reflexivity.
Qed.

Lemma contains_in_a_line (sep : ascii) (s n : string) :
  contains s n -> has_char sep n = false ->
  exists l, In l (JS.split sep s) /\ contains l n.
Proof.
  intros [pre [post ->]] H.
  induction pre as [|c r [l [Hl Hc]]]; simpl.
  - destruct (split_prefix_line sep n post H) as [l [ls ->]].
    exists (n ++ l). split; [now left|]. apply contains_app_l, contains_refl.
  - destruct (Ascii.eqb c sep).
    + exists l. split; [now right | exact Hc].
    + destruct (JS.split sep (r ++ n ++ post)) as [|l0 ls]; [destruct Hl|].
      destruct Hl as [->|Hl].
      * exists (String c l). split; [now left | apply contains_cons, Hc].
      * exists l. split; [now right | exact Hc].
Qed.

(** *** [flatCode] *)

(** The lines [flatCode] keeps, before they are joined again. *)
Lemma flatCode_lines_fixed (s : string) :
  let kept := filter (fun line => JS.nonempty line)
                (map (fun line => JS.trim line) (JS.split JS.LF s)) in
  (forall l, In l kept ->
             JS.nonempty l = true /\ JS.trim l = l /\ has_char JS.LF l = false) /\
  filter (fun line => JS.nonempty line) (map (fun line => JS.trim line) kept) = kept.
Proof.
  intros kept.
  assert (K : forall l, In l kept ->
              JS.nonempty l = true /\ JS.trim l = l /\ has_char JS.LF l = false).
  { intros l Hl. apply filter_In in Hl as [Hl Hn].
    apply in_map_iff in Hl as [x [<- Hx]].
    repeat split; [exact Hn | apply trim_idempotent |].
    apply has_char_trim, (split_no_sep _ s), Hx. }
  split; [exact K|].
  induction kept as [|x r IH]; [reflexivity|].
  simpl. destruct (K x (or_introl eq_refl)) as [Hn [Ht _]].
  rewrite Ht, Hn. f_equal. apply IH.
  intros l Hl. apply K. now right.
Qed.

Lemma flatCode_twice (s : string) :
  Generator.flatCode (Generator.flatCode s) = Generator.flatCode s.
Proof.
  destruct (flatCode_lines_fixed s) as [K F].
  unfold Generator.flatCode at 2 3.
  destruct (filter (fun line => JS.nonempty line)
              (map (fun line => JS.trim line) (JS.split JS.LF s))) as [|x r] eqn:E.
  - reflexivity.
  - unfold Generator.flatCode. unfold JS.nl at 2.
    rewrite split_join; [| discriminate | intros l Hl; apply K, Hl].
    rewrite F. reflexivity.
Qed.

Lemma flatCode_line_shape (s line : string) :
  Generator.flatCode s <> EmptyString ->
  In line (JS.split JS.LF (Generator.flatCode s)) ->
  JS.nonempty line = true /\ JS.trim line = line.
Proof.
  destruct (flatCode_lines_fixed s) as [K _].
  unfold Generator.flatCode.
  destruct (filter (fun line => JS.nonempty line)
              (map (fun line => JS.trim line) (JS.split JS.LF s))) as [|x r] eqn:E.
  - intros H. exfalso. apply H. reflexivity.
  - intros _ H. unfold JS.nl in H.
    rewrite split_join in H; [| discriminate | intros l Hl; apply K, Hl].
    destruct (K line H) as [Hn [Ht _]]. split; assumption.
Qed.

(** A piece of one line that begins and ends with visible characters
    is still there after the text has been flattened. *)
Lemma flatCode_contains (s n : string) :
  contains s n -> has_char JS.LF n = false -> starts_clean n -> ends_clean n ->
  contains (Generator.flatCode s) n.
Proof.
  intros H L S E.
  destruct (contains_in_a_line JS.LF s n H L) as [l [Hl Hc]].
  apply (trim_contains l n) in Hc; [|exact S|exact E].
  apply (contains_trans _ (JS.trim l)); [|exact Hc].
  unfold Generator.flatCode. apply contains_join.
  apply filter_In. split.
  - apply in_map_iff. exists l. split; [reflexivity | exact Hl].
  - apply (contains_nonempty _ n Hc), ends_clean_nonempty, E.
Qed.

Lemma flatCode_notice_first (rest : string) :
  exists more,
    Generator.flatCode (Generator.generationNotice ++ rest) =
    String "/" more.
Proof.
  pose (notice := "// This file is generated by utils/generate_action_codes.ts. Do not edit it manually.").
  assert (E : Generator.generationNotice ++ rest
              = notice ++ String JS.LF (String JS.LF rest)).
  { unfold Generator.generationNotice. rewrite !append_assoc. reflexivity. }
  unfold Generator.flatCode. rewrite E.
  rewrite split_app_sep by reflexivity.
  cbn [map filter].
  change (JS.trim notice) with notice.
  change (JS.nonempty notice) with true. cbv iota.
  match goal with |- context [filter ?f ?l] => destruct (filter f l) as [|y r] end.
  - eexists. reflexivity.
  - eexists. rewrite join_cons2. reflexivity.
Qed.

Lemma replaceAll_slash_spec (s : string) :
  JS.replaceAll JS.SLASH "_" s = slashes_to_underscores s.
Proof.
  induction s as [|c r IH]; simpl; [reflexivity|].
  rewrite IH. unfold JS.SLASH.
  destruct (Ascii.eqb c "/"); reflexivity.
Qed.

Lemma replace_at_start_underscore_spec (s : string) :
  JS.replace_at_start JS.UNDERSCORE EmptyString s = strip_one_leading_underscore s.
Proof.
  destruct s as [|c r]; simpl; [reflexivity|].
  unfold JS.UNDERSCORE.
  destruct (Ascii.eqb_spec c "_") as [->|Hne]; [reflexivity|].
  destruct c as [[] [] [] [] [] [] [] []]; try reflexivity.
  exfalso; apply Hne; reflexivity.
Qed.

Lemma canonicalizedActionName_no_slash (s : string) :
  has_char JS.SLASH (canonicalizedActionName s) = false.
Proof.
  assert (H : forall t, has_char JS.SLASH (JS.replaceAll JS.SLASH "_" t) = false).
  { induction t as [|c r IH]; simpl; [reflexivity|].
    destruct (Ascii.eqb c JS.SLASH) eqn:E; simpl; [exact IH|].
    rewrite E, IH. reflexivity. }
  unfold canonicalizedActionName.
  specialize (H s). destruct (JS.replaceAll JS.SLASH "_" s) as [|c r]; simpl in *.
  - reflexivity.
  - apply orb_false_iff in H as [Hc Hr].
    destruct (Ascii.eqb c JS.UNDERSCORE); simpl; [exact Hr|].
    rewrite Hc, Hr. reflexivity.
Qed.

Lemma canonical_fixed (x : string) :
  is_canonical x = true -> canonicalizedActionName x = x.
Proof.
  unfold is_canonical. intros H.
  apply andb_true_iff in H as [Hs Hu].
  apply negb_true_iff in Hs. apply negb_true_iff in Hu.
  assert (R : JS.replaceAll JS.SLASH "_" x = x).
  { clear Hu. induction x as [|c r IH]; simpl in *; [reflexivity|].
    apply orb_false_iff in Hs as [Hc Hr].
    rewrite Hc, (IH Hr). reflexivity. }
  unfold canonicalizedActionName. rewrite R.
  destruct x as [|c r]; simpl in *; [reflexivity|].
  rewrite Hu. reflexivity.
Qed.

(** C6.  [canonicalizedActionName] and [canonicalizedActionSetName] both
    compute the contract of the specification: every "/" is replaced by
    "_", then at most one leading "_" is stripped; the result never
    contains a "/"; and the three documented values come out:
    "/foo/bar" and "foo/bar" give "foo_bar", "/foo" gives "foo". *)
Theorem canonicalize_contract :
  (forall raw, canonicalizedActionName raw = canonicalize_spec raw) /\
  (forall raw, canonicalizedActionSetName raw = canonicalize_spec raw) /\
  (forall raw, has_char "/" (canonicalizedActionName raw) = false) /\
  (forall raw, String.length (canonicalizedActionName raw) = String.length raw \/
               S (String.length (canonicalizedActionName raw)) = String.length raw) /\
  canonicalizedActionName "/foo/bar" = "foo_bar" /\
  canonicalizedActionName "foo/bar" = "foo_bar" /\
  canonicalizedActionName "/foo" = "foo".
Proof.
  assert (E : forall raw, canonicalizedActionName raw = canonicalize_spec raw).
  { intros raw. unfold canonicalizedActionName, canonicalize_spec.
    rewrite replaceAll_slash_spec. apply replace_at_start_underscore_spec. }
  assert (L : forall t, String.length (slashes_to_underscores t) = String.length t).
  { induction t as [|c r IH]; simpl; [reflexivity | now rewrite IH]. }
  repeat split; try reflexivity.
  - exact E.
  - exact E.
  - exact canonicalizedActionName_no_slash.
  - intros raw. rewrite E. unfold canonicalize_spec.
    rewrite <- (L raw).
    destruct (slashes_to_underscores raw) as [|c r]; simpl; [now left|].
    destruct c as [[] [] [] [] [] [] [] []]; simpl; auto.
Qed.

(** C7.  On a string already in canonical form (no "/" and no leading
    "_") canonicalization is idempotent: applying it twice gives the
    same result as applying it once. *)
Theorem canonicalize_idempotent_on_canonical (x : string) :
  is_canonical x = true ->
  canonicalizedActionName (canonicalizedActionName x) = canonicalizedActionName x.
Proof.
  intros H. rewrite (canonical_fixed x H). apply canonical_fixed, H.
Qed.

(** Outside the canonical strings the second application can still
    change the result: only one leading underscore is stripped at a time. *)
Remark canonicalize_twice_differs :
  canonicalizedActionName "//a" = "_a" /\
  canonicalizedActionName (canonicalizedActionName "//a") = "a".
Proof. split; reflexivity. Qed.

Lemma canonicalize_idempotent_on_canonical_witness :
  is_canonical "foo_bar" = true /\
  canonicalizedActionName (canonicalizedActionName "foo_bar") =
  canonicalizedActionName "foo_bar".
Proof.
  split; [reflexivity|].
  apply (canonicalize_idempotent_on_canonical "foo_bar"). reflexivity.
Defined.

(** ** The validator *)

Lemma log_nil (w : World) : log w [] = w.
Proof. destruct w as [f c i e]. unfold log. simpl. now rewrite app_nil_r. Qed.

Lemma log_log (w : World) (a b : list string) :
  log (log w a) b = log w (a ++ b)%list.
Proof. unfold log. simpl. now rewrite <- app_assoc. Qed.

Lemma filter_all {A} (l : list A) : filter (fun _ => true) l = l.
Proof. induction l as [|x r IH]; simpl; [reflexivity | now rewrite IH]. Qed.

Lemma filter_twice {A} (p q : A -> bool) (l : list A) :
  filter p (filter q l) = filter (fun x => q x && p x) l.
Proof.
  induction l as [|x r IH]; simpl; [reflexivity|].
  destruct (q x); simpl; [destruct (p x)|]; now rewrite IH.
Qed.

Lemma Set_of_In (x : string) (xs : list string) :
  In x (Validator.Set_of xs) <-> In x xs.
Proof.
  induction xs as [|a r IH]; simpl; [tauto|].
  rewrite filter_In, IH.
  destruct (String.eqb_spec x a) as [->|Hne]; simpl.
  - split; intros _; now left.
  - intuition congruence.
Qed.

Lemma delete_localized_spec (entry : Localization) (set : list string) :
  Validator.delete_localized entry set =
  filter (fun n => negb (existsb (String.eqb n) (localized_keys entry))) set.
Proof.
  revert set. induction entry as [|[k v] r IH]; intros set; simpl.
  - symmetry. apply filter_all.
  - unfold localized_keys. simpl.
    destruct (String.eqb k "language_tag"); simpl.
    + apply IH.
    + rewrite IH. unfold Validator.Set_delete. rewrite filter_twice.
      apply filter_ext. intros n. now rewrite negb_orb.
Qed.

(** [missingActions] is the set difference, as a set without repeats. *)
Lemma missing_for_In (m : ActionManifest.t) (entry : Localization) (x : string) :
  In x (Validator.missing_for m entry) <->
  In x (map Action.name (ActionManifest.actions m)) /\ ~ In x (localized_keys entry).
Proof.
  unfold Validator.missing_for. rewrite delete_localized_spec.
  rewrite filter_In, Set_of_In, negb_true_iff.
  split; intros [H1 H2]; split; auto.
  - intros Hin. assert (E : existsb (String.eqb x) (localized_keys entry) = true).
    { apply existsb_exists. exists x. split; [exact Hin | apply String.eqb_refl]. }
    congruence.
  - destruct (existsb (String.eqb x) (localized_keys entry)) eqn:E; [|reflexivity].
    exfalso. apply H2. apply existsb_exists in E as [y [Hy Exy]].
    apply String.eqb_eq in Exy. now subst.
Qed.

Lemma Set_of_NoDup (xs : list string) : NoDup (Validator.Set_of xs).
Proof.
  induction xs as [|a r IH]; simpl; [constructor|].
  constructor.
  - rewrite filter_In, String.eqb_refl. intros [_ H]. discriminate H.
  - apply NoDup_filter, IH.
Qed.

Lemma missing_for_NoDup (m : ActionManifest.t) (entry : Localization) :
  NoDup (Validator.missing_for m entry).
Proof.
  unfold Validator.missing_for. rewrite delete_localized_spec.
  apply NoDup_filter, Set_of_NoDup.
Qed.

Lemma deficient_iff (m : ActionManifest.t) (entry : Localization) :
  Validator.deficient m entry = false <-> covers m entry.
Proof.
  unfold Validator.deficient, covers. split.
  - intros D name Hn.
    destruct (in_dec string_dec name (localized_keys entry)) as [Hk|Hk]; [exact Hk|].
    assert (Hin : In name (Validator.missing_for m entry))
      by (apply missing_for_In; split; assumption).
    destruct (Validator.missing_for m entry); [destruct Hin | discriminate D].
  - intros C.
    destruct (Validator.missing_for m entry) as [|x r] eqn:E; [reflexivity|].
    assert (Hin : In x (Validator.missing_for m entry)) by (rewrite E; now left).
    apply missing_for_In in Hin as [Hn Hk]. exfalso. apply Hk, C, Hn.
Qed.

Lemma deficient_iff_not (m : ActionManifest.t) (entry : Localization) :
  Validator.deficient m entry = true <-> ~ covers m entry.
Proof.
  rewrite <- deficient_iff.
  destruct (Validator.deficient m entry); split; congruence.
Qed.

Section ValidatorFacts.
Variable P : Platform.

Lemma read_json_missing (w : World) (path : string) :
  files w path = None ->
  Validator.read_json P path w = (Thrown (NotFound path), w).
Proof.
  intros H. unfold Validator.read_json, bind, Deno.readTextFileSync.
  now rewrite H.
Qed.

Lemma read_json_invalid (w : World) (path text : string) :
  files w path = Some text -> JSON_parse P text = None ->
  Validator.read_json P path w = (Thrown SyntaxError, w).
Proof.
  intros H1 H2. unfold Validator.read_json, bind, Deno.readTextFileSync.
  now rewrite H1, H2.
Qed.

Lemma read_json_ok (w : World) (path text : string) (v : json) :
  files w path = Some text -> JSON_parse P text = Some v ->
  Validator.read_json P path w = (Normal v, w).
Proof.
  intros H1 H2. unfold Validator.read_json, bind, Deno.readTextFileSync.
  now rewrite H1, H2.
Qed.

(** Reading or parsing failures leave both functions by an exception. *)
Lemma validateManifest_read_failure (w : World) (path : string)
      (options : Validator.Options) (e : exn) :
  Validator.read_json P path w = (Thrown e, w) ->
  Validator.validateManifest P path options w = (Thrown e, w).
Proof. intros H. unfold Validator.validateManifest, bind. now rewrite H. Qed.

Lemma validateBindings_read_failure (w : World) (path : string) (e : exn) :
  Validator.read_json P path w = (Thrown e, w) ->
  Validator.validateBindings P path w = (Thrown e, w).
Proof. intros H. unfold Validator.validateBindings, bind. now rewrite H. Qed.

Lemma check_localizations_lenient (m : ActionManifest.t)
      (entries : list Localization) (w : World) :
  Validator.check_localizations
    {| Validator.allow_missing_localization := true |} m entries w =
  (Normal (Some tt),
   log w (map (Validator.warning m) (filter (Validator.deficient m) entries))).
Proof.
  revert w. induction entries as [|e r IH]; intros w; simpl.
  - now rewrite log_nil.
  - destruct (Validator.deficient m e); simpl.
    + unfold bind, console_error. rewrite IH, log_log. reflexivity.
    + apply IH.
Qed.

Lemma check_localizations_complete (options : Validator.Options)
      (m : ActionManifest.t) (entries : list Localization) (w : World) :
  (forall e, In e entries -> Validator.deficient m e = false) ->
  Validator.check_localizations options m entries w = (Normal (Some tt), w).
Proof.
  induction entries as [|e r IH]; intros H; simpl; [reflexivity|].
  rewrite (H e (or_introl eq_refl)). apply IH.
  intros x Hx. apply H. now right.
Qed.

Lemma check_localizations_strict (m : ActionManifest.t)
      (pre : list Localization) (entry : Localization)
      (post : list Localization) (w : World) :
  (forall e, In e pre -> Validator.deficient m e = false) ->
  Validator.deficient m entry = true ->
  Validator.check_localizations
    {| Validator.allow_missing_localization := false |} m
    (pre ++ entry :: post)%list w =
  (Normal None, log w [Validator.warning m entry]).
Proof.
  induction pre as [|e r IH]; intros H D; simpl.
  - rewrite D. reflexivity.
  - rewrite (H e (or_introl eq_refl)). apply IH; [|exact D].
    intros x Hx. apply H. now right.
Qed.

Lemma schema_valid_is_truthy (j : json) (m : ActionManifest.t) :
  ActionManifestSchema j = Some m -> falsy j = false.
Proof. destruct j; simpl; intros H; try discriminate; reflexivity. Qed.

(** A default binding whose file is not there: the read inside
    [validateBindings] throws, and the loop with it. *)
Lemma check_default_bindings_missing_file
      (w : World) (manifestPath : string)
      (defaultBinding : DefaultBinding.t) (rest : list DefaultBinding.t) :
  let bindingPath :=
    path_resolve P (path_dirname P manifestPath)
                   (DefaultBinding.binding_url defaultBinding) in
  files w bindingPath = None ->
  Validator.check_default_bindings P manifestPath (defaultBinding :: rest) w
  = (Thrown (NotFound bindingPath), w).
Proof.
  intros bindingPath F. cbn [Validator.check_default_bindings].
  unfold bind at 1. fold bindingPath.
  rewrite (validateBindings_read_failure w bindingPath (NotFound bindingPath));
    [reflexivity|].
  apply read_json_missing, F.
Qed.

(** What [validateManifest] does once the document passed the schema. *)
Lemma validateManifest_after_schema (w : World) (path text : string)
      (j : json) (m : ActionManifest.t) (options : Validator.Options) :
  files w path = Some text -> JSON_parse P text = Some j ->
  ActionManifestSchema j = Some m ->
  Validator.validateManifest P path options w =
  (l <- Validator.check_localizations options m (ActionManifest.localization m) ;;
   match l with
   | None => ret Validator.VALIDATION_FAILED
   | Some _ =>
       b <- Validator.check_default_bindings P path
              (ActionManifest.default_bindings m) ;;
       match b with
       | None => ret Validator.VALIDATION_FAILED
       | Some _ => ret (Validator.Success m)
       end
   end) w.
Proof.
  intros F J S. unfold Validator.validateManifest.
  unfold bind at 1. rewrite (read_json_ok w path text j F J).
  rewrite (schema_valid_is_truthy j m S), S. reflexivity.
Qed.

End ValidatorFacts.

(** C3.  For a manifest that passed the schema, each localization entry
    is checked on its own: the names left in [missingActions] are the
    set difference between the action names and the entry's keys other
    than "language_tag", and the entry is deficient when that difference
    is not empty.  With allow-missing-localization off, validation fails
    at the first deficient entry (one diagnostic, for that entry); when
    no entry is deficient it goes on to the default bindings.  With the
    flag on, every deficient entry only prints its diagnostic and
    validation goes on to the default bindings. *)
Theorem localization_check
        (P : Platform) (w : World) (manifestPath text : string)
        (j : json) (m : ActionManifest.t) :
  files w manifestPath = Some text ->
  JSON_parse P text = Some j ->
  ActionManifestSchema j = Some m ->
  let strict := {| Validator.allow_missing_localization := false |} in
  let lenient := {| Validator.allow_missing_localization := true |} in
  let bindings_then_success :=
    (b <- Validator.check_default_bindings P manifestPath
            (ActionManifest.default_bindings m) ;;
     match b with
     | None => ret Validator.VALIDATION_FAILED
     | Some _ => ret (Validator.Success m)
     end) in
  (forall entry name,
      In name (Validator.missing_for m entry) <->
      In name (map Action.name (ActionManifest.actions m)) /\
      ~ In name (localized_keys entry)) /\
  (forall entry, Validator.deficient m entry = true <-> ~ covers m entry) /\
  (forall pre entry post,
      ActionManifest.localization m = (pre ++ entry :: post)%list ->
      (forall e, In e pre -> covers m e) ->
      ~ covers m entry ->
      Validator.validateManifest P manifestPath strict w =
      (Normal Validator.VALIDATION_FAILED, log w [Validator.warning m entry])) /\
  ((forall e, In e (ActionManifest.localization m) -> covers m e) ->
   Validator.validateManifest P manifestPath strict w = bindings_then_success w) /\
  Validator.validateManifest P manifestPath lenient w =
  bindings_then_success
    (log w (map (Validator.warning m)
              (filter (Validator.deficient m) (ActionManifest.localization m)))).
Proof.
  intros F J S strict lenient k.
  split; [intros entry name; apply missing_for_In|].
  split; [intros entry; apply deficient_iff_not|].
  split; [|split].
  - intros pre entry post E Hpre Hentry.
    rewrite (validateManifest_after_schema P w manifestPath text j m strict F J S).
    unfold bind at 1. rewrite E.
    rewrite check_localizations_strict.
    + reflexivity.
    + intros e He. apply deficient_iff, Hpre, He.
    + apply deficient_iff_not, Hentry.
  - intros H.
    rewrite (validateManifest_after_schema P w manifestPath text j m strict F J S).
    unfold bind at 1. rewrite check_localizations_complete; [reflexivity|].
    intros e He. apply deficient_iff, H, He.
  - rewrite (validateManifest_after_schema P w manifestPath text j m lenient F J S).
    unfold bind at 1. unfold lenient. rewrite check_localizations_lenient.
    reflexivity.
Qed.

(** The documented example: actions "/a" and "/b", a localization that
    covers only "/a".  The strict run fails, the lenient run succeeds. *)
Lemma localization_check_witness :
  fst (Validator.validateManifest Example.P "partly_localized.json"
         Example.strict Example.disk) = Normal Validator.VALIDATION_FAILED /\
  Validator.success_of
    (fst (Validator.validateManifest Example.P "partly_localized.json"
            Example.lenient Example.disk)) = Some true /\
  console (snd (Validator.validateManifest Example.P "partly_localized.json"
                  Example.lenient Example.disk))
  = ["Localization is missing for actions: /b"].
Proof.
  pose (m := {| ActionManifest.default_bindings := [];
                ActionManifest.actions :=
                  [ {| Action.name := "/a"; Action.requirement := None;
                       Action.type := ActionType.boolean; Action.skeleton := None |};
                    {| Action.name := "/b"; Action.requirement := None;
                       Action.type := ActionType.boolean; Action.skeleton := None |} ];
                ActionManifest.action_sets := [];
                ActionManifest.localization :=
                  [[("language_tag", "en_US"); ("/a", "A")]] |}).
  destruct (localization_check Example.P Example.disk "partly_localized.json"
              "text of partly_localized" Example.partly_localized m
              eq_refl eq_refl eq_refl) as [_ [_ [Hstrict [_ Hlenient]]]].
  split; [|split].
  - change Example.strict with {| Validator.allow_missing_localization := false |}.
    rewrite (Hstrict [] [("language_tag", "en_US"); ("/a", "A")] [] eq_refl).
    + reflexivity.
    + intros e [].
    + intros C. specialize (C "/b" (or_intror (or_introl eq_refl))).
      simpl in C. destruct C as [C|C]; [discriminate C | exact C].
  - change Example.lenient with {| Validator.allow_missing_localization := true |}.
    rewrite Hlenient. reflexivity.
  - change Example.lenient with {| Validator.allow_missing_localization := true |}.
    rewrite Hlenient. reflexivity.
Defined.

(** C1 (the code departs from the claim).  A manifest or binding file
    that cannot be read, or that is not JSON, makes [validateManifest]
    and [validateBindings] end by the exception of the read or of the
    parse; neither returns the failure result.  The same holds for a
    default binding whose file does not exist. *)
Theorem validator_read_failures_throw :
  (forall P options,
      Validator.validateManifest P "nowhere.json" options Example.disk
      = (Thrown (NotFound "nowhere.json"), Example.disk)) /\
  (forall P,
      Validator.validateBindings P "nowhere.json" Example.disk
      = (Thrown (NotFound "nowhere.json"), Example.disk)) /\
  (forall options,
      Validator.validateManifest Example.P "garbled.json" options Example.disk
      = (Thrown SyntaxError, Example.disk)) /\
  Validator.validateBindings Example.P "garbled.json" Example.disk
  = (Thrown SyntaxError, Example.disk) /\
  (forall options,
      Validator.validateManifest Example.P "dangling_binding.json" options Example.disk
      = (Thrown (NotFound "./bindings_knuckles.json"), Example.disk)).
Proof.
  split; [|split; [|split; [|split]]]; intros.
  - apply validateManifest_read_failure, read_json_missing. reflexivity.
  - apply validateBindings_read_failure, read_json_missing. reflexivity.
  - apply validateManifest_read_failure.
    apply (read_json_invalid _ _ _ "{ not json"); reflexivity.
  - apply validateBindings_read_failure.
    apply (read_json_invalid _ _ _ "{ not json"); reflexivity.
  - destruct options as [[]]; reflexivity.
Qed.

(** ** The generator *)

Lemma inputActionFunction_of_input (action : Action.t) :
  Generator.isInputAction (Action.type action) = true ->
  Generator.inputActionFunction (Action.name action) (Action.type action)
  = inr (Generator.accessor action).
Proof.
  unfold Generator.inputActionFunction, Generator.accessor.
  intros H. rewrite H. simpl.
  destruct (Action.type action); try reflexivity; discriminate H.
Qed.

Lemma inputActionFunction_vibration (actionName : string) :
  Generator.inputActionFunction actionName ActionType.vibration
  = inl (Error "Invalid action type: vibration").
Proof. reflexivity. Qed.

Lemma map_throwing_inputs (actions : list Action.t) :
  Generator.map_throwing
    (fun action => Generator.inputActionFunction (Action.name action) (Action.type action))
    (filter (fun action => Generator.isInputAction (Action.type action)) actions)
  = inr (map Generator.accessor
           (filter (fun action => Generator.isInputAction (Action.type action)) actions)).
Proof.
  induction actions as [|a r IH]; simpl; [reflexivity|].
  destruct (Generator.isInputAction (Action.type a)) eqn:E; [|exact IH].
  simpl. rewrite (inputActionFunction_of_input a E), IH. reflexivity.
Qed.

(** [inputActionFunctions] never throws: the filter in front of the map
    keeps every non-input action away from [inputActionFunction]. *)
Lemma inputActionFunctions_total (m : ActionManifest.t) :
  Generator.inputActionFunctions m =
  inr (JS.join (JS.nl ++ JS.nl)
         (map Generator.accessor
            (filter (fun action => Generator.isInputAction (Action.type action))
               (ActionManifest.actions m)))).
Proof.
  unfold Generator.inputActionFunctions. now rewrite map_throwing_inputs.
Qed.

Lemma code_total (m : ActionManifest.t) :
  exists accessors,
    Generator.inputActionFunctions m = inr accessors /\
    Generator.code m =
    inr (JS.trim (Generator.template [
           EmptyString;
           "        impl Input {";
           "            " ++ Generator.initFunction m;
           "            " ++ Generator.fieldGenerationFunction m;
           "            " ++ accessors;
           "            " ++ Generator.activationFunctions m;
           "        }";
           EmptyString;
           "        " ++ Generator.generatedFields m;
           "    " ])).
Proof.
  eexists. split; [apply inputActionFunctions_total|].
  unfold Generator.code. rewrite inputActionFunctions_total. reflexivity.
Qed.

(** *** The marker that ends the kept part of the prelude *)

Lemma strip_stub_split (prelude : string) :
  exists dropped,
    prelude = Generator.strip_stub prelude ++ dropped /\
    (dropped = EmptyString \/ Generator.stub_marker_here dropped = true) /\
    (forall a b, Generator.strip_stub prelude = a ++ b -> b <> EmptyString ->
                 Generator.stub_marker_here (b ++ dropped) = false).
Proof.
  induction prelude as [|c r [dropped [E [D L]]]].
  - exists EmptyString. repeat split; auto.
    intros a b H Hb. destruct a, b; simpl in H; congruence.
  - cbn [Generator.strip_stub].
    destruct (Generator.stub_marker_here (String c r)) eqn:M.
    + exists (String c r). repeat split; auto.
      intros a b H Hb. destruct a, b; simpl in H; congruence.
    + exists dropped. split; [simpl; now rewrite <- E|]. split; [exact D|].
      intros a b H Hb. destruct a as [|x a]; simpl in H.
      * subst b. simpl. rewrite <- E. exact M.
      * injection H as _ H. apply (L a b H Hb).
Qed.

Section GeneratorFacts.
Variable P : Platform.

Lemma main_reaches_write (w : World)
      (manifestPath preludePath generatedPath : string)
      (manifestText preludeText : string) (j : json) (m : ActionManifest.t)
      (generatedCode : string) :
  files w manifestPath = Some manifestText ->
  JSON_parse P manifestText = Some j ->
  ActionManifestSchema j = Some m ->
  files w preludePath = Some preludeText ->
  Generator.code m = inr generatedCode ->
  Generator.main P [PString manifestPath; PString preludePath; PString generatedPath] w
  = Deno.writeTextFileSync generatedPath
      (Generator.flatCode
         (Generator.generationNotice ++ Generator.strip_stub preludeText
            ++ generatedCode)) w.
Proof.
  intros F J S F' C. unfold Generator.main. cbn [nth_error]. cbv beta iota.
  unfold bind, Deno.readTextFileSync, ret.
  cbv beta. rewrite F. cbv beta iota. rewrite J. cbv beta iota.
  rewrite S. cbv beta iota. rewrite F'. cbv beta iota. rewrite C.
  cbn [Generator.lift]. unfold ret.
  destruct (Deno.writeTextFileSync _ _ w) as [[u|e|c] w']; try destruct u;
    reflexivity.
Qed.

Lemma write_succeeds (w : World) (path text : string) :
  write_failure w path text = None ->
  Deno.writeTextFileSync path text w = (Normal tt, written w path text).
Proof. intros H. unfold Deno.writeTextFileSync. now rewrite H. Qed.

Lemma write_fails (w : World) (path text : string) (e : exn) (torn : option string) :
  write_failure w path text = Some (e, torn) ->
  Deno.writeTextFileSync path text w = (Thrown e, left_at w path torn).
Proof. intros H. unfold Deno.writeTextFileSync. now rewrite H. Qed.

Lemma main_success (w : World) (manifestPath preludePath generatedPath : string)
      (manifestText preludeText : string) (j : json) (m : ActionManifest.t)
      (generatedCode : string) :
  files w manifestPath = Some manifestText ->
  JSON_parse P manifestText = Some j ->
  ActionManifestSchema j = Some m ->
  files w preludePath = Some preludeText ->
  Generator.code m = inr generatedCode ->
  write_failure w generatedPath
    (Generator.flatCode
       (Generator.generationNotice ++ Generator.strip_stub preludeText
          ++ generatedCode)) = None ->
  Generator.main P [PString manifestPath; PString preludePath; PString generatedPath] w
  = (Normal tt,
     written w generatedPath
       (Generator.flatCode
          (Generator.generationNotice ++ Generator.strip_stub preludeText
             ++ generatedCode))).
Proof.
  intros F J S F' C W.
  rewrite (main_reaches_write w _ _ _ _ _ j m _ F J S F' C).
  now apply write_succeeds.
Qed.

(** Whatever the arguments and the files: a run either fails with
    every file as it was, or it is the write of a text to the third
    path, in the world the run began in. *)
Lemma main_fails_or_writes (args : list positional) (w : World) :
  (fst (Generator.main P args w) <> Normal tt /\
   files (snd (Generator.main P args w)) = files w) \/
  (exists generatedPath text,
      nth_error args 2 = Some (PString generatedPath) /\
      Generator.main P args w = Deno.writeTextFileSync generatedPath text w).
Proof.
  unfold Generator.main.
  destruct (nth_error args 0) as [[mp|]|];
    try (left; split; [discriminate | reflexivity]).
  destruct (nth_error args 1) as [[pp|]|];
    try (left; split; [discriminate | reflexivity]).
  destruct (nth_error args 2) as [[gp|]|];
    try (left; split; [discriminate | reflexivity]).
  unfold bind, Deno.readTextFileSync, ret, throw.
  cbv beta.
  destruct (files w mp) as [mt|];
    [|left; split; [discriminate | reflexivity]]. cbv beta iota.
  destruct (JSON_parse P mt) as [j|];
    [|left; split; [discriminate | reflexivity]]. cbv beta iota.
  destruct (ActionManifestSchema j) as [m|];
    [|left; split; [discriminate | reflexivity]].
  cbv beta iota.
  destruct (files w pp) as [pt|];
    [|left; split; [discriminate | reflexivity]]. cbv beta iota.
  destruct (code_total m) as [acc [_ C]]. rewrite C. cbn [Generator.lift].
  unfold ret. cbv beta iota. right.
  match goal with
  | |- context [Deno.writeTextFileSync ?g ?t w] => exists g, t
  end.
  split; [reflexivity|].
  destruct (Deno.writeTextFileSync _ _ w) as [[u|e|c] w']; try destruct u;
    reflexivity.
Qed.

End GeneratorFacts.

Lemma main_schema_violation (P : Platform) (w : World)
      (manifestPath preludePath generatedPath text : string) (j : json) :
  files w manifestPath = Some text ->
  JSON_parse P text = Some j ->
  ActionManifestSchema j = None ->
  Generator.main P
    [PString manifestPath; PString preludePath; PString generatedPath] w
  = (Thrown ZodError, w).
Proof.
  intros F J S. unfold Generator.main. cbn [nth_error]. cbv beta iota.
  unfold bind, Deno.readTextFileSync, ret, throw. cbv beta.
  rewrite F. cbv beta iota. rewrite J. cbv beta iota. rewrite S. reflexivity.
Qed.

Lemma mapM_fails {A B} (f : A -> option B) (xs : list A) (x : A) :
  In x xs -> f x = None -> Zod.mapM f xs = None.
Proof.
  induction xs as [|y r IH]; intros H E; [destruct H|].
  destruct H as [<-|H]; simpl.
  - now rewrite E.
  - destruct (f y); [|reflexivity]. now rewrite (IH H E).
Qed.

Lemma lookup_option_unknown {A} (to_string : A -> string) (options : list A)
      (s : string) :
  ~ In s (map to_string options) ->
  Zod.lookup_option to_string options s = None.
Proof.
  induction options as [|o r IH]; simpl; intros H; [reflexivity|].
  destruct (String.eqb_spec (to_string o) s) as [E|_].
  - exfalso. apply H. now left.
  - apply IH. intros Hin. apply H. now right.
Qed.

Lemma ActionSchema_unknown_type (props : list (string * json)) (t : string) :
  Zod.get "type" props = Some (JString t) ->
  ~ In t (map ActionType.to_string ActionType.options) ->
  ActionSchema (JObject props) = None.
Proof.
  intros G U. unfold ActionSchema, Zod.object.
  destruct (Zod.required "name" Zod.string props); [|reflexivity].
  destruct (Zod.optional "requirement" _ props); [|reflexivity].
  unfold Zod.required at 1. rewrite G. unfold Zod.enum.
  now rewrite (lookup_option_unknown _ _ _ U).
Qed.

Lemma ActionManifestSchema_unknown_type
      (props : list (string * json)) (items : list json)
      (action : list (string * json)) (t : string) :
  Zod.get "actions" props = Some (JArray items) ->
  In (JObject action) items ->
  Zod.get "type" action = Some (JString t) ->
  ~ In t (map ActionType.to_string ActionType.options) ->
  ActionManifestSchema (JObject props) = None.
Proof.
  intros G I T U. unfold ActionManifestSchema, Zod.object.
  destruct (Zod.required "default_bindings" _ props); [|reflexivity].
  unfold Zod.required at 1. rewrite G. unfold Zod.array.
  now rewrite (mapM_fails _ _ _ I (ActionSchema_unknown_type _ _ T U)).
Qed.

(** C2, as the code has it.  The generator reads the manifest, parses it
    and checks it against the schema, nothing more: a manifest that is
    unreadable, not JSON or outside the schema ends the run there, before
    anything is generated, while a manifest inside the schema is
    generated from whatever its localization and its binding files are.
    The text is complete before the one write of the run: a run that
    fails before it has touched no file, and when the write is reached
    it is applied to the world as the run found it.  The write itself
    is a plain [Deno.writeTextFileSync]: when it fails the run throws
    its exception, and the output file holds what the failed write left
    there. *)
Theorem generator_failure_is_clean
        (P : Platform) (w : World)
        (manifestPath preludePath generatedPath : string) :
  let args := [PString manifestPath; PString preludePath; PString generatedPath] in
  (forall flags_,
      (fst (Generator.main P flags_ w) <> Normal tt /\
       files (snd (Generator.main P flags_ w)) = files w) \/
      (exists path text,
          nth_error flags_ 2 = Some (PString path) /\
          Generator.main P flags_ w = Deno.writeTextFileSync path text w)) /\
  (files w manifestPath = None ->
   Generator.main P args w = (Thrown (NotFound manifestPath), w)) /\
  (forall text, files w manifestPath = Some text -> JSON_parse P text = None ->
                Generator.main P args w = (Thrown SyntaxError, w)) /\
  (forall text j, files w manifestPath = Some text -> JSON_parse P text = Some j ->
                  ActionManifestSchema j = None ->
                  Generator.main P args w = (Thrown ZodError, w)) /\
  (forall text j m,
      files w manifestPath = Some text -> JSON_parse P text = Some j ->
      ActionManifestSchema j = Some m -> files w preludePath = None ->
      Generator.main P args w = (Thrown (NotFound preludePath), w)) /\
  (forall text j m prelude,
      files w manifestPath = Some text -> JSON_parse P text = Some j ->
      ActionManifestSchema j = Some m -> files w preludePath = Some prelude ->
      exists out,
        Generator.main P args w = Deno.writeTextFileSync generatedPath out w /\
        (write_failure w generatedPath out = None ->
         Generator.main P args w = (Normal tt, written w generatedPath out)) /\
        (forall e torn,
            write_failure w generatedPath out = Some (e, torn) ->
            Generator.main P args w = (Thrown e, left_at w generatedPath torn))).
Proof.
  intros args. split; [|split; [|split; [|split; [|split]]]].
  - intros flags_. apply main_fails_or_writes.
  - intros F. unfold args, Generator.main. cbn [nth_error]. cbv beta iota.
    unfold bind, Deno.readTextFileSync. cbv beta. now rewrite F.
  - intros text F J. unfold args, Generator.main. cbn [nth_error]. cbv beta iota.
    unfold bind, Deno.readTextFileSync. cbv beta. rewrite F. cbv beta iota.
    now rewrite J.
  - intros text j F J S. apply (main_schema_violation P w _ _ _ text j F J S).
  - intros text j m F J S F'. unfold args, Generator.main. cbn [nth_error].
    cbv beta iota. unfold bind, Deno.readTextFileSync, ret. cbv beta.
    rewrite F. cbv beta iota. rewrite J. cbv beta iota. rewrite S.
    cbv beta iota. now rewrite F'.
  - intros text j m prelude F J S F'.
    destruct (code_total m) as [accessors [_ C]].
    eexists. split; [|split].
    + unfold args. apply (main_reaches_write P w _ _ _ _ _ j m _ F J S F' C).
    + intros W. unfold args.
      rewrite (main_reaches_write P w _ _ _ _ _ j m _ F J S F' C).
      now apply write_succeeds.
    + intros e torn W. unfold args.
      rewrite (main_reaches_write P w _ _ _ _ _ j m _ F J S F' C).
      now apply write_fails.
Qed.

Lemma generator_failure_is_clean_witness :
  (exists out,
      Generator.main Example.P
        [PString "partly_localized.json"; PString "prelude.rs"; PString "out.rs"]
        Example.disk
      = (Normal tt, written Example.disk "out.rs" out)) /\
  Generator.main Example.P
    [PString "garbled.json"; PString "prelude.rs"; PString "out.rs"] Example.disk
  = (Thrown SyntaxError, Example.disk) /\
  Generator.main Example.P
    [PString "unknown_type.json"; PString "prelude.rs"; PString "out.rs"] Example.disk
  = (Thrown ZodError, Example.disk).
Proof.
  split; [|split].
  - destruct (proj2 (proj2 (proj2 (proj2 (proj2
                (generator_failure_is_clean Example.P Example.disk
                   "partly_localized.json" "prelude.rs" "out.rs")))))
                "text of partly_localized" Example.partly_localized
                {| ActionManifest.default_bindings := [];
                   ActionManifest.actions :=
                     [ {| Action.name := "/a"; Action.requirement := None;
                          Action.type := ActionType.boolean;
                          Action.skeleton := None |};
                       {| Action.name := "/b"; Action.requirement := None;
                          Action.type := ActionType.boolean;
                          Action.skeleton := None |} ];
                   ActionManifest.action_sets := [];
                   ActionManifest.localization :=
                     [[("language_tag", "en_US"); ("/a", "A")]] |}
                ("use crate::sys;" ++ JS.nl ++ "// STUB_FOLLOWS" ++ JS.nl
                   ++ "impl Input {}")
                eq_refl eq_refl eq_refl eq_refl)
      as [out [_ [W _]]].
    exists out. apply W. reflexivity.
  - apply (proj1 (proj2 (proj2 (generator_failure_is_clean Example.P Example.disk
                                  "garbled.json" "prelude.rs" "out.rs")))
             "{ not json"); reflexivity.
  - apply (proj1 (proj2 (proj2 (proj2 (generator_failure_is_clean Example.P Example.disk
                                         "unknown_type.json" "prelude.rs" "out.rs"))))
             "text of unknown_type" Example.unknown_type); reflexivity.
Defined.

(** C2 as stated does not hold: the validator rejects these two
    manifests (uncovered localization; a binding file outside the
    schema), the generator completes on both and writes its output. *)
Lemma generator_runs_where_validator_fails :
  (Validator.success_of
     (fst (Validator.validateManifest Example.P "partly_localized.json"
             Example.strict Example.disk)) = Some false /\
   fst (Generator.main Example.P
          [PString "partly_localized.json"; PString "prelude.rs"; PString "out.rs"]
          Example.disk) = Normal tt /\
   files (snd (Generator.main Example.P
                 [PString "partly_localized.json"; PString "prelude.rs";
                  PString "out.rs"] Example.disk)) "out.rs"
   <> files Example.disk "out.rs") /\
  (Validator.success_of
     (fst (Validator.validateManifest Example.P "hollow_binding.json"
             Example.strict Example.disk)) = Some false /\
   fst (Generator.main Example.P
          [PString "hollow_binding.json"; PString "prelude.rs"; PString "out.rs"]
          Example.disk) = Normal tt /\
   files (snd (Generator.main Example.P
                 [PString "hollow_binding.json"; PString "prelude.rs";
                  PString "out.rs"] Example.disk)) "out.rs"
   <> files Example.disk "out.rs").
Proof.
  split; (split; [vm_compute; reflexivity |
          split; [vm_compute; reflexivity | vm_compute; discriminate]]).
Qed.

(** C9, as the code has it.  A manifest document with an action whose
    "type" is none of the seven known names does not pass the schema:
    the run ends there with the schema's error, before generation, and
    the world is as it was.  Generation itself never throws. *)
Theorem unknown_action_type_stops_at_schema
        (P : Platform) (w : World)
        (manifestPath preludePath generatedPath text : string)
        (props : list (string * json)) (items : list json)
        (action : list (string * json)) (t : string) :
  files w manifestPath = Some text ->
  JSON_parse P text = Some (JObject props) ->
  Zod.get "actions" props = Some (JArray items) ->
  In (JObject action) items ->
  Zod.get "type" action = Some (JString t) ->
  ~ In t (map ActionType.to_string ActionType.options) ->
  Generator.main P
    [PString manifestPath; PString preludePath; PString generatedPath] w
  = (Thrown ZodError, w) /\
  (forall m : ActionManifest.t, exists generated, Generator.code m = inr generated).
Proof.
  intros F J G I T U. split.
  - apply (main_schema_violation P w _ _ _ text (JObject props) F J).
    apply (ActionManifestSchema_unknown_type props items action t G I T U).
  - intros m. destruct (code_total m) as [acc [_ C]]. eexists. exact C.
Qed.

Lemma unknown_action_type_stops_at_schema_witness :
  Generator.main Example.P
    [PString "unknown_type.json"; PString "prelude.rs"; PString "out.rs"] Example.disk
  = (Thrown ZodError, Example.disk) /\
  (forall m : ActionManifest.t, exists generated, Generator.code m = inr generated).
Proof.
  apply (unknown_action_type_stops_at_schema Example.P Example.disk
           "unknown_type.json" "prelude.rs" "out.rs" "text of unknown_type"
           [("default_bindings", JArray []);
            ("actions", JArray [Example.action "/actions/main/in/Jump" "button"]);
            ("action_sets", JArray []);
            ("localization", JArray [])]
           [Example.action "/actions/main/in/Jump" "button"]
           [("name", JString "/actions/main/in/Jump"); ("type", JString "button")]
           "button").
  - reflexivity.
  - reflexivity.
  - reflexivity.
  - left. reflexivity.
  - reflexivity.
  - simpl. intros H.
    repeat (destruct H as [H|H]; [discriminate H|]). exact H.
Defined.

(** C9 as stated does not hold: for the action type "button" the run
    ends with the schema's error, not with the generator's
    "Invalid action type" error, which [inputActionFunctions] cannot
    raise at all. *)
Lemma unknown_type_error_is_not_codegen :
  fst (Generator.main Example.P
         [PString "unknown_type.json"; PString "prelude.rs"; PString "out.rs"]
         Example.disk) = Thrown ZodError /\
  (forall message,
      fst (Generator.main Example.P
             [PString "unknown_type.json"; PString "prelude.rs"; PString "out.rs"]
             Example.disk) <> Thrown (Error message)) /\
  (forall m e, Generator.inputActionFunctions m <> inl e).
Proof.
  split; [reflexivity|]. split.
  - intros message. vm_compute. discriminate.
  - intros m e. rewrite inputActionFunctions_total. discriminate.
Qed.

(** ** Where the generated pieces occur *)

Lemma contains_template (source_lines : list string) (l n : string) :
  In l source_lines -> contains l n ->
  contains (Generator.template source_lines) n.
Proof.
  intros H C. apply (contains_trans _ l); [|exact C].
  apply contains_join, H.
Qed.

Lemma contains_indented (indent n : string) : contains (indent ++ n) n.
Proof. apply contains_app_r, contains_refl. Qed.

(** The source line number [k] (from 0) of a template. *)
Lemma contains_template_line (k : nat) (source_lines : list string) (n : string) :
  (k < List.length source_lines)%nat ->
  contains (nth k source_lines EmptyString) n ->
  contains (Generator.template source_lines) n.
Proof.
  intros H C. apply (contains_template _ (nth k source_lines EmptyString)); [|exact C].
  apply nth_In, H.
Qed.

Ltac in_line k :=
  apply (contains_template_line k); [cbn [List.length]; lia | cbn [nth]].

Section Occurrences.
Variable m : ActionManifest.t.

Lemma action_declaration_occurs (action : Action.t) :
  In action (ActionManifest.actions m) ->
  contains (Generator.fieldGenerationFunction m) (Emitted.action_declaration action).
Proof.
  intros H. unfold Generator.fieldGenerationFunction.
  in_line 2%nat. apply contains_app_r.
  eapply contains_trans; [apply (contains_join_map _ _ _ action H)|].
  cbv beta. in_line 1%nat.
  apply (contains_indented "            ").
Qed.

Lemma action_field_value_occurs (action : Action.t) :
  In action (ActionManifest.actions m) ->
  contains (Generator.fieldGenerationFunction m) (Emitted.action_field_value action).
Proof.
  intros H. unfold Generator.fieldGenerationFunction.
  in_line 6%nat. apply contains_app_r.
  eapply contains_trans; [apply (contains_join_map _ _ _ action H)|].
  cbv beta. in_line 1%nat.
  apply (contains_indented "            ").
Qed.

Lemma action_field_occurs (action : Action.t) :
  In action (ActionManifest.actions m) ->
  contains (Generator.generatedFields m) (Emitted.action_field action).
Proof.
  intros H. unfold Generator.generatedFields.
  in_line 2%nat. apply contains_app_r.
  eapply contains_trans; [apply (contains_join_map _ _ _ action H)|].
  cbv beta. in_line 1%nat.
  apply (contains_indented "            ").
Qed.

Lemma action_set_declaration_occurs (actionSet : ActionSet.t) :
  In actionSet (ActionManifest.action_sets m) ->
  contains (Generator.fieldGenerationFunction m)
    (Emitted.action_set_declaration actionSet).
Proof.
  intros H. unfold Generator.fieldGenerationFunction.
  in_line 3%nat. apply contains_app_r.
  eapply contains_trans; [apply (contains_join_map _ _ _ actionSet H)|].
  cbv beta. in_line 1%nat.
  apply (contains_indented "            ").
Qed.

Lemma action_set_field_value_occurs (actionSet : ActionSet.t) :
  In actionSet (ActionManifest.action_sets m) ->
  contains (Generator.fieldGenerationFunction m)
    (Emitted.action_set_field_value actionSet).
Proof.
  intros H. unfold Generator.fieldGenerationFunction.
  in_line 7%nat. apply contains_app_r.
  eapply contains_trans; [apply (contains_join_map _ _ _ actionSet H)|].
  cbv beta. in_line 1%nat.
  apply (contains_indented "            ").
Qed.

Lemma action_set_field_occurs (actionSet : ActionSet.t) :
  In actionSet (ActionManifest.action_sets m) ->
  contains (Generator.generatedFields m) (Emitted.action_set_field actionSet).
Proof.
  intros H. unfold Generator.generatedFields.
  in_line 3%nat. apply contains_app_r.
  eapply contains_trans; [apply (contains_join_map _ _ _ actionSet H)|].
  cbv beta. in_line 1%nat.
  apply (contains_indented "            ").
Qed.

Lemma activate_function_occurs (actionSet : ActionSet.t) :
  In actionSet (ActionManifest.action_sets m) ->
  contains (Generator.activationFunctions m) (Emitted.activate_function actionSet).
Proof.
  intros H. unfold Generator.activationFunctions.
  eapply contains_trans; [apply (contains_join_map _ _ _ actionSet H)|].
  cbv beta.
  exists (JS.nl ++ "            ").
  exists (JS.nl ++ Generator.template [
            EmptyString;
            "            pub fn deactivate_"
              ++ canonicalizedActionSetName (ActionSet.name actionSet)
              ++ "(&mut self) {";
            "                // Deactivation logic for " ++ ActionSet.name actionSet;
            "                self.deactivate_action_set(self.generated_fields.action_set_handle_"
              ++ canonicalizedActionSetName (ActionSet.name actionSet) ++ ")";
            "            }";
            "        " ]).
  unfold Emitted.activate_function, Emitted.action_set_handle,
    Generator.template, JS.join.
  cbn [String.concat]. rewrite !append_assoc. reflexivity.
Qed.

Lemma deactivate_function_occurs (actionSet : ActionSet.t) :
  In actionSet (ActionManifest.action_sets m) ->
  contains (Generator.activationFunctions m) (Emitted.deactivate_function actionSet).
Proof.
  intros H. unfold Generator.activationFunctions.
  eapply contains_trans; [apply (contains_join_map _ _ _ actionSet H)|].
  cbv beta.
  exists (Generator.template [
            EmptyString;
            "            pub fn activate_"
              ++ canonicalizedActionSetName (ActionSet.name actionSet)
              ++ "(&mut self) {";
            "                self.activate_action_set(self.generated_fields.action_set_handle_"
              ++ canonicalizedActionSetName (ActionSet.name actionSet) ++ ")";
            "            }";
            EmptyString;
            "            " ]).
  exists (JS.nl ++ "        ").
  unfold Emitted.deactivate_function, Emitted.action_set_handle,
    Generator.template, JS.join.
  cbn [String.concat]. rewrite !append_assoc. reflexivity.
Qed.

Lemma accessor_head_occurs (action : Action.t) :
  Generator.isInputAction (Action.type action) = true ->
  contains (Generator.accessor action) (Emitted.accessor_head action).
Proof.
  unfold Generator.accessor, Emitted.accessor_head.
  destruct (Action.type action); intros H; try discriminate H;
    cbn [Generator.inputActionFunctionByType]; in_line 1%nat;
    apply (contains_indented "        ").
Qed.

Lemma handle_argument_occurs (action : Action.t) :
  Emitted.reads_handle (Action.type action) = true ->
  contains (Generator.accessor action) (Emitted.handle_argument action).
Proof.
  unfold Generator.accessor, Emitted.handle_argument, Emitted.action_handle.
  destruct (Action.type action); intros H; try discriminate H;
    cbn [Generator.inputActionFunctionByType].
  - in_line 4%nat.
    apply (contains_indented "            self.get_digital_action_data(").
  - in_line 4%nat.
    apply (contains_indented "            self.get_vector1_action_data(").
  - in_line 4%nat.
    apply (contains_indented "            self.get_vector2_action_data(").
  - in_line 4%nat.
    apply (contains_indented "            self.get_vector3_action_data(").
  - in_line 5%nat.
    apply (contains_indented
             "            self.get_pose_action_data(tracking_universe_origin, ").
Qed.

Lemma accessor_occurs (action : Action.t) (accessors : string) :
  Generator.inputActionFunctions m = inr accessors ->
  In action (ActionManifest.actions m) ->
  Generator.isInputAction (Action.type action) = true ->
  contains accessors (Generator.accessor action).
Proof.
  rewrite inputActionFunctions_total. intros E H I. injection E as <-.
  apply contains_join_map, filter_In. split; assumption.
Qed.

(** From a part of the generated block to the block. *)
Lemma code_contains (generated part n : string) :
  Generator.code m = inr generated ->
  part = Generator.fieldGenerationFunction m \/
  Generator.inputActionFunctions m = inr part \/
  part = Generator.activationFunctions m \/
  part = Generator.generatedFields m ->
  contains part n -> starts_clean n -> ends_clean n ->
  contains generated n.
Proof.
  intros C W H S E.
  destruct (code_total m) as [accessors [A C']].
  rewrite C' in C. injection C as <-.
  apply trim_contains; [|exact S|exact E].
  destruct W as [-> | [W | [-> | ->]]].
  - in_line 3%nat. apply (contains_app_r "            "), H.
  - rewrite A in W. injection W as <-. in_line 4%nat.
    apply (contains_app_r "            "), H.
  - in_line 5%nat. apply (contains_app_r "            "), H.
  - in_line 8%nat. apply (contains_app_r "        "), H.
Qed.

End Occurrences.

(** *** The shape of the pieces *)

Lemma ends_clean_app (a b : string) : ends_clean b -> ends_clean (a ++ b).
Proof.
  intros [body [c [-> H]]]. exists (a ++ body), c.
  split; [now rewrite append_assoc | exact H].
Qed.

Lemma ends_clean_char (body : string) (c : ascii) :
  JS.is_whitespace c = false -> ends_clean (body ++ String c EmptyString).
Proof. intros H. exists body, c. split; [reflexivity | exact H]. Qed.

Lemma canonicalized_has_char (c : ascii) (name : string) :
  Ascii.eqb "_" c = false ->
  has_char c name = false -> has_char c (canonicalizedActionName name) = false.
Proof.
  intros U H. unfold canonicalizedActionName.
  assert (R : has_char c (JS.replaceAll JS.SLASH "_" name) = false).
  { induction name as [|x r IH]; simpl in *; [reflexivity|].
    apply orb_false_iff in H as [Hx Hr].
    destruct (Ascii.eqb x JS.SLASH); simpl; rewrite (IH Hr).
    - now rewrite U.
    - now rewrite Hx. }
  destruct (JS.replaceAll JS.SLASH "_" name) as [|x r]; simpl in *; [reflexivity|].
  apply orb_false_iff in R as [Rx Rr].
  destruct (Ascii.eqb x JS.UNDERSCORE); simpl; [exact Rr | now rewrite Rx, Rr].
Qed.

Ltac ends_with c :=
  repeat (apply ends_clean_app);
  apply (ends_clean_char EmptyString c); reflexivity.

Lemma pieces_clean (action : Action.t) :
  (starts_clean (Emitted.action_declaration action) /\
   ends_clean (Emitted.action_declaration action)) /\
  (starts_clean (Emitted.action_field_value action) /\
   ends_clean (Emitted.action_field_value action)) /\
  (starts_clean (Emitted.action_field action) /\
   ends_clean (Emitted.action_field action)) /\
  (starts_clean (Emitted.accessor_head action) /\
   ends_clean (Emitted.accessor_head action)) /\
  (starts_clean (Emitted.handle_argument action) /\
   ends_clean (Emitted.handle_argument action)).
Proof.
  repeat split; try reflexivity.
  - exists ("let " ++ Emitted.action_handle action ++ " = Self::get_action_handle(sys, "
              ++ JS.dq ++ Action.name action ++ JS.dq ++ ")?"), ";"%char.
    split; [|reflexivity]. unfold Emitted.action_declaration.
    rewrite !append_assoc. reflexivity.
  - unfold Emitted.action_field_value. ends_with ","%char.
  - exists (Emitted.action_handle action ++ ": sys::VRActionHandle_t"), ","%char.
    split; [|reflexivity]. unfold Emitted.action_field.
    rewrite !append_assoc. reflexivity.
  - exists ("pub fn get_" ++ canonicalizedActionName (Action.name action)), "("%char.
    split; [|reflexivity]. unfold Emitted.accessor_head.
    rewrite !append_assoc. reflexivity.
  - exists ("self.generated_fields." ++ Emitted.action_handle action), ")"%char.
    split; [|reflexivity]. unfold Emitted.handle_argument.
    rewrite !append_assoc. reflexivity.
Qed.

Lemma pieces_on_one_line (action : Action.t) :
  has_char JS.LF (Action.name action) = false ->
  has_char JS.LF (Emitted.action_declaration action) = false /\
  has_char JS.LF (Emitted.action_field_value action) = false /\
  has_char JS.LF (Emitted.action_field action) = false /\
  has_char JS.LF (Emitted.accessor_head action) = false.
Proof.
  intros H.
  pose proof (canonicalized_has_char JS.LF _ eq_refl H) as C.
  unfold Emitted.action_declaration, Emitted.action_field_value,
    Emitted.action_field, Emitted.accessor_head, Emitted.action_handle.
  rewrite !has_char_app, C, H. repeat split; reflexivity.
Qed.

(** *** The prelude marker *)

Lemma strip_prefix_Some (p s r : string) :
  JS.strip_prefix p s = Some r <-> s = p ++ r.
Proof.
  revert s. induction p as [|a p IH]; intros s; simpl.
  - split; [intros [= ->] | intros ->]; reflexivity.
  - destruct s as [|b s]; [split; discriminate|].
    destruct (Ascii.eqb_spec a b) as [->|Hne].
    + rewrite IH. split; [intros -> | intros [= ->]]; reflexivity.
    + split; [discriminate | intros [= E _]; congruence].
Qed.

Lemma trimStart_split (s : string) :
  exists ws, all_whitespace ws = true /\ s = ws ++ JS.trimStart s.
Proof.
  induction s as [|c r [ws [W E]]]; simpl.
  - exists EmptyString. split; reflexivity.
  - destruct (JS.is_whitespace c) eqn:C.
    + exists (String c ws). simpl. rewrite C, W, <- E. split; reflexivity.
    + exists EmptyString. split; reflexivity.
Qed.

Lemma trimStart_app_ws (ws s : string) :
  all_whitespace ws = true -> JS.trimStart (ws ++ s) = JS.trimStart s.
Proof.
  induction ws as [|c r IH]; simpl; intros H; [reflexivity|].
  apply andb_true_iff in H as [Hc Hr]. rewrite Hc. apply IH, Hr.
Qed.

(** The function modelling the regular expression recognizes exactly
    the marker as the specification describes it. *)
Lemma stub_marker_here_iff (s : string) :
  Generator.stub_marker_here s = true <-> marker_at_start s.
Proof.
  unfold Generator.stub_marker_here, marker_at_start. split.
  - destruct (JS.strip_prefix "//" s) as [r|] eqn:E1; [|discriminate].
    destruct (JS.strip_prefix "STUB_FOLLOWS" (JS.trimStart r)) as [rest|] eqn:E2;
      [|discriminate].
    intros _. apply strip_prefix_Some in E1, E2.
    destruct (trimStart_split r) as [ws [W E]].
    exists ws, rest. split; [exact W|]. rewrite E1, E, E2. reflexivity.
  - intros [ws [rest [W ->]]].
    rewrite (proj2 (strip_prefix_Some "//" _ (ws ++ "STUB_FOLLOWS" ++ rest)) eq_refl).
    rewrite (trimStart_app_ws _ _ W).
    change (JS.trimStart ("STUB_FOLLOWS" ++ rest)) with ("STUB_FOLLOWS" ++ rest).
    rewrite (proj2 (strip_prefix_Some "STUB_FOLLOWS" _ rest) eq_refl).
    reflexivity.
Qed.

(** *** What [trim] leaves *)

Lemma trimEnd_prefix (s : string) : exists ws, s = JS.trimEnd s ++ ws.
Proof.
  induction s as [|c r [ws E]]; simpl.
  - exists EmptyString. reflexivity.
  - destruct (JS.trimEnd r) as [|d r'] eqn:T.
    + destruct (JS.is_whitespace c).
      * exists (String c r). reflexivity.
      * exists ws. simpl in *. now f_equal.
    + exists ws. simpl in *. now f_equal.
Qed.

Lemma contains_trim_self (s : string) : contains s (JS.trim s).
Proof.
  unfold JS.trim.
  destruct (trimStart_split s) as [lead [_ E]].
  destruct (trimEnd_prefix (JS.trimStart s)) as [trail T].
  exists lead, trail. rewrite <- T. exact E.
Qed.

Lemma trimEnd_ends_clean (s : string) :
  JS.trimEnd s <> EmptyString -> ends_clean (JS.trimEnd s).
Proof.
  induction s as [|c r IH]; simpl; [congruence|].
  destruct (JS.trimEnd r) as [|d r'] eqn:T.
  - destruct (JS.is_whitespace c) eqn:W; [congruence|].
    intros _. apply (ends_clean_char EmptyString c W).
  - intros _. apply (ends_clean_app (String c EmptyString)), IH. discriminate.
Qed.

Lemma trim_clean (s : string) :
  JS.trim s <> EmptyString -> starts_clean (JS.trim s) /\ ends_clean (JS.trim s).
Proof.
  intros H. split.
  - apply trimEnd_clean, trimStart_clean.
  - apply trimEnd_ends_clean, H.
Qed.

(** The accessor of an input action, from "pub fn" to its closing brace. *)
Lemma accessor_text_clean (action : Action.t) :
  Generator.isInputAction (Action.type action) = true ->
  starts_clean (JS.trim (Generator.accessor action)) /\
  ends_clean (JS.trim (Generator.accessor action)) /\
  contains (JS.trim (Generator.accessor action)) (Emitted.accessor_head action).
Proof.
  intros I.
  destruct (pieces_clean action) as [_ [_ [_ [[S4 E4] _]]]].
  assert (C : contains (JS.trim (Generator.accessor action))
                (Emitted.accessor_head action)).
  { apply trim_contains; [apply accessor_head_occurs, I | exact S4 | exact E4]. }
  assert (N : JS.trim (Generator.accessor action) <> EmptyString).
  { intros N.
    pose proof (contains_nonempty _ _ C (ends_clean_nonempty _ E4)) as T.
    rewrite N in T. discriminate T. }
  destruct (trim_clean _ N) as [S E]. repeat split; assumption.
Qed.

(** C4.  In the generated block every action, whatever its type, has
    its handle declaration, its field in the returned structure value
    and its field in the fields structure, all under the name
    action_handle_<canonicalized name>; when the action's name has no
    line break the same three pieces stand in the flattened output.
    Accessors are emitted for exactly the actions whose type is boolean,
    vector1, vector2, vector3, pose or skeleton (each such action's whole
    accessor function is in the block), so a vibration action has its
    handle and adds nothing to the accessors. *)
Theorem handle_for_every_action_accessor_for_inputs
        (m : ActionManifest.t) (generated : string) :
  Generator.code m = inr generated ->
  (forall action, In action (ActionManifest.actions m) ->
     Emitted.action_handle action
       = "action_handle_" ++ canonicalizedActionName (Action.name action) /\
     contains generated (Emitted.action_declaration action) /\
     contains generated (Emitted.action_field_value action) /\
     contains generated (Emitted.action_field action) /\
     (has_char JS.LF (Action.name action) = false ->
      forall preludeCode,
        let output :=
          Generator.flatCode (Generator.generationNotice ++ preludeCode ++ generated) in
        contains output (Emitted.action_declaration action) /\
        contains output (Emitted.action_field_value action) /\
        contains output (Emitted.action_field action))) /\
  (forall t, Generator.isInputAction t = true <->
             In t [ActionType.boolean; ActionType.vector1; ActionType.vector2;
                   ActionType.vector3; ActionType.pose; ActionType.skeleton]) /\
  Generator.isInputAction ActionType.vibration = false /\
  Generator.inputActionFunctions m =
    inr (JS.join (JS.nl ++ JS.nl)
           (map Generator.accessor
              (filter (fun action => Generator.isInputAction (Action.type action))
                 (ActionManifest.actions m)))) /\
  (forall action, In action (ActionManifest.actions m) ->
     Generator.isInputAction (Action.type action) = true ->
     contains generated (JS.trim (Generator.accessor action)) /\
     contains generated (Emitted.accessor_head action)) /\
  ((forall action, In action (ActionManifest.actions m) ->
      Action.type action = ActionType.vibration) ->
   Generator.inputActionFunctions m = inr EmptyString).
Proof.
  intros C.
  assert (G : forall part n,
             part = Generator.fieldGenerationFunction m \/
             Generator.inputActionFunctions m = inr part \/
             part = Generator.activationFunctions m \/
             part = Generator.generatedFields m ->
             contains part n -> starts_clean n -> ends_clean n ->
             contains generated n).
  { intros part n. apply code_contains, C. }
  split; [|split; [|split; [|split; [|split]]]].
  6: { intros V. rewrite inputActionFunctions_total.
       replace (filter (fun action => Generator.isInputAction (Action.type action))
                  (ActionManifest.actions m)) with (@nil Action.t); [reflexivity|].
       symmetry. induction (ActionManifest.actions m) as [|a r IH]; [reflexivity|].
       simpl. rewrite (V a (or_introl eq_refl)). simpl.
       apply IH. intros x Hx. apply V. now right. }
  - intros action H.
    destruct (pieces_clean action) as [[S1 E1] [[S2 E2] [[S3 E3] _]]].
    assert (C1 : contains generated (Emitted.action_declaration action)).
    { apply (G (Generator.fieldGenerationFunction m)); auto.
      apply action_declaration_occurs, H. }
    assert (C2 : contains generated (Emitted.action_field_value action)).
    { apply (G (Generator.fieldGenerationFunction m)); auto.
      apply action_field_value_occurs, H. }
    assert (C3 : contains generated (Emitted.action_field action)).
    { apply (G (Generator.generatedFields m)); auto.
      apply action_field_occurs, H. }
    repeat split; try assumption.
    all: destruct (pieces_on_one_line action H0) as [L1 [L2 [L3 _]]].
    all: apply flatCode_contains; try assumption.
    all: apply contains_app_r, contains_app_r; assumption.
  - intros t. destruct t; simpl; split; intros H; try reflexivity; try discriminate H;
      auto 10.
    repeat (destruct H as [H|H]; [discriminate H|]). destruct H.
  - reflexivity.
  - apply inputActionFunctions_total.
  - intros action H I.
    destruct (pieces_clean action) as [_ [_ [_ [[S4 E4] _]]]].
    assert (A : contains generated (Emitted.accessor_head action)).
    { apply (G (JS.join (JS.nl ++ JS.nl)
                  (map Generator.accessor
                     (filter (fun a => Generator.isInputAction (Action.type a))
                        (ActionManifest.actions m))))); auto.
      - right. left. apply inputActionFunctions_total.
      - eapply contains_trans; [|apply accessor_head_occurs, I].
        apply (accessor_occurs m); auto. apply inputActionFunctions_total. }
    split; [|exact A].
    destruct (accessor_text_clean action I) as [S [E _]].
    apply (G (JS.join (JS.nl ++ JS.nl)
                (map Generator.accessor
                   (filter (fun a => Generator.isInputAction (Action.type a))
                      (ActionManifest.actions m))))); auto.
    + right. left. apply inputActionFunctions_total.
    + eapply contains_trans; [|apply contains_trim_self].
      apply (accessor_occurs m); auto. apply inputActionFunctions_total.
Qed.

Lemma handle_for_every_action_accessor_for_inputs_witness :
  contains Example.generated (Emitted.action_declaration Example.buzz) /\
  contains Example.generated (Emitted.action_field Example.buzz) /\
  Generator.inputActionFunctions Example.manifest
  = inr (Generator.accessor Example.jump).
Proof.
  assert (C : Generator.code Example.manifest = inr Example.generated)
    by (vm_compute; reflexivity).
  destruct (handle_for_every_action_accessor_for_inputs
              Example.manifest Example.generated C) as [H [_ [_ [A _]]]].
  destruct (H Example.buzz (or_intror (or_introl eq_refl))) as [_ [D [_ [F _]]]].
  split; [exact D|]. split; [exact F|]. rewrite A. reflexivity.
Defined.

Lemma set_pieces_clean (actionSet : ActionSet.t) :
  (starts_clean (Emitted.action_set_declaration actionSet) /\
   ends_clean (Emitted.action_set_declaration actionSet)) /\
  (starts_clean (Emitted.action_set_field_value actionSet) /\
   ends_clean (Emitted.action_set_field_value actionSet)) /\
  (starts_clean (Emitted.action_set_field actionSet) /\
   ends_clean (Emitted.action_set_field actionSet)) /\
  (starts_clean (Emitted.activate_function actionSet) /\
   ends_clean (Emitted.activate_function actionSet)) /\
  (starts_clean (Emitted.deactivate_function actionSet) /\
   ends_clean (Emitted.deactivate_function actionSet)).
Proof.
  repeat split; try reflexivity.
  - unfold Emitted.action_set_declaration.
    repeat (apply ends_clean_app). apply (ends_clean_char ")?" ";"%char). reflexivity.
  - unfold Emitted.action_set_field_value. ends_with ","%char.
  - unfold Emitted.action_set_field.
    apply ends_clean_app.
    apply (ends_clean_char ": sys::VRActionSetHandle_t" ","%char). reflexivity.
  - unfold Emitted.activate_function.
    repeat (apply ends_clean_app). apply (ends_clean_char "            " "}"%char).
    reflexivity.
  - unfold Emitted.deactivate_function.
    repeat (apply ends_clean_app). apply (ends_clean_char "            " "}"%char).
    reflexivity.
Qed.

(** C8.  One manifest name, one identifier.  For every action the
    identifier action_handle_<canonicalized name> is the name bound in
    the field-generation function, the field of the structure value it
    returns, the field declared in the fields structure and, for the
    types whose accessor reads a handle, the field the accessor passes
    on; the accessor itself is named get_<canonicalized name>.  For
    every action set, action_set_handle_<canonicalized name> is bound and
    declared in the same places and is what activate_<canonicalized
    name> and deactivate_<canonicalized name> pass on.  Each piece is in
    the function that emits it and in the generated block, and actions
    and action sets are canonicalized by the same function. *)
Theorem one_identifier_per_name (m : ActionManifest.t) (generated : string) :
  Generator.code m = inr generated ->
  let emitted part piece := contains part piece /\ contains generated piece in
  (forall action, In action (ActionManifest.actions m) ->
     let c := canonicalizedActionName (Action.name action) in
     let id := "action_handle_" ++ c in
     emitted (Generator.fieldGenerationFunction m)
       ("let " ++ id ++ " = Self::get_action_handle(sys, "
          ++ JS.dq ++ Action.name action ++ JS.dq ++ ")?;") /\
     emitted (Generator.fieldGenerationFunction m) (id ++ ",") /\
     emitted (Generator.generatedFields m) (id ++ ": sys::VRActionHandle_t,") /\
     (Generator.isInputAction (Action.type action) = true ->
      emitted (Generator.accessor action) ("pub fn get_" ++ c ++ "(")) /\
     (Emitted.reads_handle (Action.type action) = true ->
      emitted (Generator.accessor action) ("self.generated_fields." ++ id ++ ")"))) /\
  (forall actionSet, In actionSet (ActionManifest.action_sets m) ->
     let c := canonicalizedActionSetName (ActionSet.name actionSet) in
     let id := "action_set_handle_" ++ c in
     emitted (Generator.fieldGenerationFunction m)
       ("let " ++ id ++ " = Self::get_action_set_handle(sys, "
          ++ JS.dq ++ ActionSet.name actionSet ++ JS.dq ++ ")?;") /\
     emitted (Generator.fieldGenerationFunction m) (id ++ ",") /\
     emitted (Generator.generatedFields m) (id ++ ": sys::VRActionSetHandle_t,") /\
     emitted (Generator.activationFunctions m)
       ("pub fn activate_" ++ c ++ "(&mut self) {" ++ JS.nl
          ++ "                self.activate_action_set(self.generated_fields."
          ++ id ++ ")" ++ JS.nl
          ++ "            }") /\
     emitted (Generator.activationFunctions m)
       ("pub fn deactivate_" ++ c ++ "(&mut self) {" ++ JS.nl
          ++ "                // Deactivation logic for " ++ ActionSet.name actionSet
          ++ JS.nl
          ++ "                self.deactivate_action_set(self.generated_fields."
          ++ id ++ ")" ++ JS.nl
          ++ "            }")) /\
  (forall name, canonicalizedActionSetName name = canonicalizedActionName name).
Proof.
  intros C emitted.
  assert (G : forall part n,
             part = Generator.fieldGenerationFunction m \/
             Generator.inputActionFunctions m = inr part \/
             part = Generator.activationFunctions m \/
             part = Generator.generatedFields m ->
             contains part n -> starts_clean n -> ends_clean n ->
             contains generated n).
  { intros part n. apply code_contains, C. }
  split; [|split; [|reflexivity]].
  - intros action H c id.
    destruct (pieces_clean action) as [[S1 E1] [[S2 E2] [[S3 E3] [[S4 E4] [S5 E5]]]]].
    pose proof (action_declaration_occurs m action H) as O1.
    pose proof (action_field_value_occurs m action H) as O2.
    pose proof (action_field_occurs m action H) as O3.
    split; [split; [exact O1 | exact (G _ _ (or_introl eq_refl) O1 S1 E1)]|].
    split; [split; [exact O2 | exact (G _ _ (or_introl eq_refl) O2 S2 E2)]|].
    split; [split; [exact O3 |
                    exact (G _ _ (or_intror (or_intror (or_intror eq_refl))) O3 S3 E3)]|].
    split.
    + intros I. pose proof (accessor_head_occurs action I) as O4.
      split; [exact O4|].
      refine (G _ _ (or_intror (or_introl (inputActionFunctions_total m))) _ S4 E4).
      eapply contains_trans; [|exact O4].
      apply (accessor_occurs m); [apply inputActionFunctions_total | exact H | exact I].
    + intros R. pose proof (handle_argument_occurs action R) as O5.
      assert (I : Generator.isInputAction (Action.type action) = true)
        by (destruct (Action.type action); try reflexivity; discriminate R).
      split; [exact O5|].
      refine (G _ _ (or_intror (or_introl (inputActionFunctions_total m))) _ S5 E5).
      eapply contains_trans; [|exact O5].
      apply (accessor_occurs m); [apply inputActionFunctions_total | exact H | exact I].
  - intros actionSet H c id.
    destruct (set_pieces_clean actionSet)
      as [[S1 E1] [[S2 E2] [[S3 E3] [[S4 E4] [S5 E5]]]]].
    pose proof (action_set_declaration_occurs m actionSet H) as O1.
    pose proof (action_set_field_value_occurs m actionSet H) as O2.
    pose proof (action_set_field_occurs m actionSet H) as O3.
    pose proof (activate_function_occurs m actionSet H) as O4.
    pose proof (deactivate_function_occurs m actionSet H) as O5.
    split; [split; [exact O1 | exact (G _ _ (or_introl eq_refl) O1 S1 E1)]|].
    split; [split; [exact O2 | exact (G _ _ (or_introl eq_refl) O2 S2 E2)]|].
    split; [split; [exact O3 |
                    exact (G _ _ (or_intror (or_intror (or_intror eq_refl))) O3 S3 E3)]|].
    split; [split; [exact O4 |
                    exact (G _ _ (or_intror (or_intror (or_introl eq_refl))) O4 S4 E4)]|].
    split; [exact O5 |
            exact (G _ _ (or_intror (or_intror (or_introl eq_refl))) O5 S5 E5)].
Qed.

Lemma one_identifier_per_name_witness :
  contains (Generator.accessor Example.jump)
    "self.generated_fields.action_handle_actions_main_in_Jump)" /\
  contains Example.generated "action_handle_actions_main_in_Jump: sys::VRActionHandle_t," /\
  contains Example.generated "action_set_handle_actions_main: sys::VRActionSetHandle_t,".
Proof.
  assert (C : Generator.code Example.manifest = inr Example.generated)
    by (vm_compute; reflexivity).
  destruct (one_identifier_per_name Example.manifest Example.generated C)
    as [A [B _]].
  destruct (A Example.jump (or_introl eq_refl)) as [_ [_ [[_ F] [_ R]]]].
  destruct (B Example.main_set (or_introl eq_refl)) as [_ [_ [[_ SF] _]]].
  split; [exact (proj1 (R eq_refl))|]. split; [exact F | exact SF].
Defined.

(** C10.  Whitespace normalization is idempotent: flattening flattened
    text changes nothing.  Consequently every line of the emitted
    artifact (the flattened notice, prelude and generated code) is
    non-empty, begins with a character that is not white space and ends
    with one. *)
Theorem flatCode_idempotent :
  (forall s, Generator.flatCode (Generator.flatCode s) = Generator.flatCode s) /\
  (forall preludeCode generatedCode line,
      In line (JS.split JS.LF
                 (Generator.flatCode
                    (Generator.generationNotice ++ preludeCode ++ generatedCode))) ->
      line <> EmptyString /\ starts_clean line /\ ends_clean line).
Proof.
  split; [exact flatCode_twice|].
  intros p g line H.
  destruct (flatCode_notice_first (p ++ g)) as [more E].
  apply flatCode_line_shape in H; [| rewrite E; discriminate].
  destruct H as [Hn Ht].
  assert (N : line <> EmptyString) by (intros ->; discriminate Hn).
  split; [exact N|].
  rewrite <- Ht. apply trim_clean. now rewrite Ht.
Qed.

Lemma flatCode_idempotent_witness :
  Generator.flatCode (Generator.flatCode ("  a  " ++ JS.nl ++ JS.nl ++ " b"))
  = Generator.flatCode ("  a  " ++ JS.nl ++ JS.nl ++ " b") /\
  "use crate::sys;" <> EmptyString /\
  starts_clean "use crate::sys;" /\
  ends_clean "use crate::sys;".
Proof.
  split; [apply (proj1 flatCode_idempotent)|].
  apply (proj2 flatCode_idempotent ("  use crate::sys;  " ++ JS.nl) EmptyString).
  vm_compute. right. left. reflexivity.
Defined.

(* ================================================================== *)
(** * Part III: further properties of the validator, the schemas and
      the generator                                                    *)
(* ================================================================== *)

(** ** The validator only reads and prints *)

Lemma only_prints_ret {A} (a : A) (w : World) : only_prints (ret a w) w.
Proof. split; [exists []; symmetry; apply log_nil | discriminate]. Qed.

Lemma only_prints_throw {A} (e : exn) (w : World) :
  only_prints (@throw A e w) w.
Proof. split; [exists []; symmetry; apply log_nil | discriminate]. Qed.

Lemma only_prints_console_error (line : string) (w : World) :
  only_prints (console_error line w) w.
Proof. split; [exists [line]; reflexivity | discriminate]. Qed.

Lemma only_prints_bind {A B} (m : M A) (k : A -> M B) (w : World) :
  only_prints (m w) w ->
  (forall a w', only_prints (k a w') w') ->
  only_prints (bind m k w) w.
Proof.
  intros [[l1 E1] N1] K. unfold bind.
  destruct (m w) as [[a|e|c] w1]; simpl in *; subst w1.
  - destruct (K a (log w l1)) as [[l2 E2] N2].
    split; [|exact N2]. exists (l1 ++ l2)%list. now rewrite E2, log_log.
  - split; [exists l1; reflexivity | discriminate].
  - exfalso. now apply (N1 c).
Qed.

Section ValidatorOnlyPrints.
Variable P : Platform.

Lemma only_prints_read_json (path : string) (w : World) :
  only_prints (Validator.read_json P path w) w.
Proof.
  unfold Validator.read_json. apply only_prints_bind.
  - unfold Deno.readTextFileSync. destruct (files w path).
    + apply (only_prints_ret s w).
    + apply (@only_prints_throw string).
  - intros text w'. destruct (JSON_parse P text);
      [apply only_prints_ret | apply only_prints_throw].
Qed.

Lemma only_prints_validateBindings (path : string) (w : World) :
  only_prints (Validator.validateBindings P path w) w.
Proof.
  unfold Validator.validateBindings. apply only_prints_bind.
  - apply only_prints_read_json.
  - intros v w'. destruct (falsy v).
    + apply only_prints_bind; [apply only_prints_console_error|].
      intros. apply only_prints_ret.
    + destruct (BindingFileSchema v).
      * apply only_prints_ret.
      * apply only_prints_bind; [apply only_prints_console_error|].
        intros. apply only_prints_ret.
Qed.

Lemma only_prints_check_localizations
      (options : Validator.Options) (m : ActionManifest.t)
      (entries : list Localization) (w : World) :
  only_prints (Validator.check_localizations options m entries w) w.
Proof.
  revert w. induction entries as [|e r IH]; intros w; simpl.
  - apply only_prints_ret.
  - destruct (Validator.deficient m e); [|apply IH].
    apply only_prints_bind; [apply only_prints_console_error|].
    intros _ w'. destruct (negb (Validator.allow_missing_localization options));
      [apply only_prints_ret | apply IH].
Qed.

Lemma only_prints_check_default_bindings
      (manifestPath : string) (entries : list DefaultBinding.t) (w : World) :
  only_prints (Validator.check_default_bindings P manifestPath entries w) w.
Proof.
  revert w. induction entries as [|b r IH]; intros w; simpl.
  - apply only_prints_ret.
  - apply only_prints_bind; [apply only_prints_validateBindings|].
    intros res w'. destruct (negb (Validator.success res)); [|apply IH].
    apply only_prints_bind; [apply only_prints_console_error|].
    intros. apply only_prints_ret.
Qed.

Lemma only_prints_validateManifest
      (manifestPath : string) (options : Validator.Options) (w : World) :
  only_prints (Validator.validateManifest P manifestPath options w) w.
Proof.
  unfold Validator.validateManifest. apply only_prints_bind.
  - apply only_prints_read_json.
  - intros v w'. destruct (falsy v).
    + apply only_prints_bind; [apply only_prints_console_error|].
      intros. apply only_prints_ret.
    + destruct (ActionManifestSchema v) as [data|].
      * apply only_prints_bind; [apply only_prints_check_localizations|].
        intros [u|] w1; [|apply only_prints_ret].
        apply only_prints_bind; [apply only_prints_check_default_bindings|].
        intros [u'|] w2; apply only_prints_ret.
      * apply only_prints_bind; [apply only_prints_console_error|].
        intros. apply only_prints_ret.
Qed.

End ValidatorOnlyPrints.

(** X1.  Whatever the platform, the path, the option and the files,
    [validateManifest] and [validateBindings] write no file and never
    end the process: the world they leave is the one they found with
    some lines added at the end of the console, and they end by
    returning or by throwing. *)
Theorem validator_only_reads_and_prints
        (P : Platform) (path : string) (options : Validator.Options) (w : World) :
  let r := Validator.validateManifest P path options w in
  let b := Validator.validateBindings P path w in
  (files (snd r) = files w /\
   (exists lines, console (snd r) = console w ++ lines)%list /\
   (forall code, fst r <> Exited code)) /\
  (files (snd b) = files w /\
   (exists lines, console (snd b) = console w ++ lines)%list /\
   (forall code, fst b <> Exited code)).
Proof.
  intros r b.
  destruct (only_prints_validateManifest P path options w) as [[l1 E1] N1].
  destruct (only_prints_validateBindings P path w) as [[l2 E2] N2].
  unfold r, b. rewrite E1, E2. split; (split; [reflexivity|split]).
  - exists l1. reflexivity.
  - exact N1.
  - exists l2. reflexivity.
  - exact N2.
Qed.

(** ** The loop over the default bindings *)

(** X2.  The default bindings are validated one after the other and the
    loop stops at the first one that fails or throws: the bindings
    listed after it are never read, so they cannot change the outcome.
    When a first part of the list passes, the rest is validated in the
    world the first part left. *)
Theorem default_bindings_stop_at_first_failure
        (P : Platform) (manifestPath : string)
        (first rest : list DefaultBinding.t) (w : World) :
  Validator.check_default_bindings P manifestPath (first ++ rest)%list w =
  match Validator.check_default_bindings P manifestPath first w with
  | (Normal (Some _), w') => Validator.check_default_bindings P manifestPath rest w'
  | stopped => stopped
  end.
Proof.
  revert w. induction first as [|b l IH]; intros w; [reflexivity|].
  cbn [app Validator.check_default_bindings]. unfold bind at 1 3.
  destruct (Validator.validateBindings P _ w) as [[res|e|c] w1]; [|reflexivity..].
  destruct (Validator.success res); cbn [negb]; [apply IH | reflexivity].
Qed.

(** ** When validation succeeds *)

Section ValidatorSuccess.
Variable P : Platform.

Lemma read_json_cases (path : string) (w : World) :
  (files w path = None /\
   Validator.read_json P path w = (Thrown (NotFound path), w)) \/
  (exists text, files w path = Some text /\ JSON_parse P text = None /\
                Validator.read_json P path w = (Thrown SyntaxError, w)) \/
  (exists text v, files w path = Some text /\ JSON_parse P text = Some v /\
                  Validator.read_json P path w = (Normal v, w)).
Proof.
  destruct (files w path) as [text|] eqn:F.
  - destruct (JSON_parse P text) as [v|] eqn:J.
    + right. right. exists text, v. repeat split; auto.
      apply (read_json_ok P w path text v F J).
    + right. left. exists text. repeat split; auto.
      apply (read_json_invalid P w path text F J).
  - left. split; [reflexivity | apply read_json_missing, F].
Qed.

Lemma validateBindings_success_iff
      (path : string) (w w' : World) (data : BindingFile.t) :
  Validator.validateBindings P path w = (Normal (Validator.Success data), w') <->
  w' = w /\
  exists text v, files w path = Some text /\ JSON_parse P text = Some v /\
                 falsy v = false /\ BindingFileSchema v = Some data.
Proof.
  unfold Validator.validateBindings, bind.
  destruct (read_json_cases path w)
    as [[F R] | [[text [F [J R]]] | [text [v [F [J R]]]]]]; rewrite R.
  - split; [discriminate|]. intros [_ [t [v [F' _]]]]. congruence.
  - split; [discriminate|]. intros [_ [t [v [F' [J' _]]]]]. congruence.
  - destruct (falsy v) eqn:T.
    + split; [discriminate|]. intros [_ [t [v' [F' [J' [T' _]]]]]]. congruence.
    + destruct (BindingFileSchema v) as [d|] eqn:S.
      * split.
        -- intros E. injection E as <- <-. split; [reflexivity|].
           exists text, v. auto.
        -- intros [-> [t [v' [F' [J' [_ S']]]]]].
           assert (t = text) by congruence. subst t.
           assert (v' = v) by congruence. subst v'.
           unfold ret. congruence.
      * split; [discriminate|]. intros [_ [t [v' [F' [J' [_ S']]]]]].
        assert (t = text) by congruence. subst t.
        assert (v' = v) by congruence. subst v'. congruence.
Qed.

Lemma validateBindings_of_valid (path : string) (w : World) :
  binding_file_valid P w path ->
  exists data,
    Validator.validateBindings P path w = (Normal (Validator.Success data), w).
Proof.
  intros [text [v [data [F [J [T S]]]]]]. exists data.
  apply validateBindings_success_iff. split; [reflexivity|].
  exists text, v. auto.
Qed.

Lemma check_default_bindings_success_iff
      (manifestPath : string) (entries : list DefaultBinding.t) (w w' : World) :
  Validator.check_default_bindings P manifestPath entries w = (Normal (Some tt), w') <->
  w' = w /\
  Forall (fun b => binding_file_valid P w (binding_path P manifestPath b)) entries.
Proof.
  induction entries as [|b r IH].
  - simpl. unfold ret. split.
    + intros E. injection E as <-. split; [reflexivity | constructor].
    + intros [-> _]. reflexivity.
  - cbn [Validator.check_default_bindings]. fold (binding_path P manifestPath b).
    unfold bind at 1.
    destruct (Validator.validateBindings P (binding_path P manifestPath b) w)
      as [[res|e|c] w1] eqn:V.
    + destruct res as [|data]; cbn [Validator.success negb].
      * split; [discriminate|]. intros [_ H]. inversion H as [|? ? Hb _]; subst.
        destruct (validateBindings_of_valid _ _ Hb) as [d E]. congruence.
      * apply validateBindings_success_iff in V as [-> V].
        rewrite IH. split; intros [-> H]; (split; [reflexivity|]).
        -- constructor; [|exact H].
           destruct V as [text [v V]]. exists text, v, data. tauto.
        -- inversion H; assumption.
    + split; [discriminate|]. intros [_ H]. inversion H as [|? ? Hb _]; subst.
      destruct (validateBindings_of_valid _ _ Hb) as [d E]. congruence.
    + split; [discriminate|]. intros [_ H]. inversion H as [|? ? Hb _]; subst.
      destruct (validateBindings_of_valid _ _ Hb) as [d E]. congruence.
Qed.

Lemma first_deficient (m : ActionManifest.t) (entries : list Localization) :
  (forall e, In e entries -> Validator.deficient m e = false) \/
  (exists pre e post,
      entries = (pre ++ e :: post)%list /\
      (forall x, In x pre -> Validator.deficient m x = false) /\
      Validator.deficient m e = true).
Proof.
  induction entries as [|e r [IH | [pre [x [post [E [Hpre Hx]]]]]]].
  - left. intros e [].
  - destruct (Validator.deficient m e) eqn:D.
    + right. exists [], e, r. repeat split; auto. intros x [].
    + left. intros x [<-|Hx]; auto.
  - destruct (Validator.deficient m e) eqn:D.
    + right. exists [], e, r. repeat split; auto. intros y [].
    + right. exists (e :: pre), x, post. subst r. repeat split; auto.
      intros y [<-|Hy]; auto.
Qed.

Lemma check_localizations_success_iff
      (options : Validator.Options) (m : ActionManifest.t)
      (entries : list Localization) (w w' : World) :
  Validator.check_localizations options m entries w = (Normal (Some tt), w') <->
  w' = log w (map (Validator.warning m) (filter (Validator.deficient m) entries)) /\
  (Validator.allow_missing_localization options = false ->
   forall e, In e entries -> covers m e).
Proof.
  destruct options as [[|]].
  - rewrite check_localizations_lenient. split.
    + intros E. injection E as <-. split; [reflexivity | discriminate].
    + intros [-> _]. reflexivity.
  - destruct (first_deficient m entries) as [H | [pre [e [post [-> [Hpre He]]]]]].
    + rewrite (check_localizations_complete _ m entries w H).
      assert (F : filter (Validator.deficient m) entries = []).
      { clear -H. induction entries as [|x r IH]; [reflexivity|].
        simpl. rewrite (H x (or_introl eq_refl)). apply IH.
        intros y Hy. apply H. now right. }
      rewrite F. cbn [map]. rewrite log_nil. split.
      * intros E. injection E as <-. split; [reflexivity|].
        intros _ e He. apply deficient_iff, H, He.
      * intros [-> _]. reflexivity.
    + rewrite (check_localizations_strict m pre e post w Hpre He).
      split; [discriminate|]. intros [_ C]. exfalso.
      apply (proj1 (deficient_iff_not m e) He).
      apply (C eq_refl). apply in_or_app. right. now left.
Qed.

End ValidatorSuccess.

Lemma validateManifest_success_cases
        (P : Platform) (manifestPath : string) (options : Validator.Options)
        (w w' : World) (data : ActionManifest.t) :
  Validator.validateManifest P manifestPath options w
  = (Normal (Validator.Success data), w') <->
  (exists text j,
      files w manifestPath = Some text /\ JSON_parse P text = Some j /\
      ActionManifestSchema j = Some data) /\
  (Validator.allow_missing_localization options = false ->
   forall e, In e (ActionManifest.localization data) -> covers data e) /\
  Forall (fun b => binding_file_valid P w (binding_path P manifestPath b))
    (ActionManifest.default_bindings data) /\
  w' = log w (map (Validator.warning data)
                (filter (Validator.deficient data)
                   (ActionManifest.localization data))).
Proof.
  destruct (read_json_cases P manifestPath w)
    as [[F R] | [[text [F [J R]]] | [text [j [F [J R]]]]]].
  - rewrite (validateManifest_read_failure P w _ options _ R).
    split; [discriminate|]. intros [[t [j' [F' _]]] _]. congruence.
  - rewrite (validateManifest_read_failure P w _ options _ R).
    split; [discriminate|]. intros [[t [j' [F' [J' _]]]] _]. congruence.
  - destruct (ActionManifestSchema j) as [m|] eqn:S.
    + rewrite (validateManifest_after_schema P w _ text j m options F J S).
      unfold bind at 1.
      destruct (Validator.check_localizations options m
                  (ActionManifest.localization m) w) as [[[u|]|e|c] w1] eqn:L.
      * destruct u. apply check_localizations_success_iff in L as [-> Hc].
        unfold bind at 1.
        set (w1 := log w _) in *.
        destruct (Validator.check_default_bindings P manifestPath
                    (ActionManifest.default_bindings m) w1) as [[[u|]|e|c] w2] eqn:B.
        -- destruct u. apply check_default_bindings_success_iff in B as [-> Hb].
           unfold ret. split.
           ++ intros E. injection E as <- <-.
              split; [exists text, j; auto|].
              split; [exact Hc|]. split; [exact Hb | reflexivity].
           ++ intros [[t [j' [F' [J' S']]]] [_ [_ ->]]].
              assert (t = text) by congruence. subst t.
              assert (j' = j) by congruence. subst j'.
              assert (data = m) by congruence. subst data. reflexivity.
        -- unfold ret. split; [discriminate|].
           intros [[t [j' [F' [J' S']]]] [_ [Hb _]]].
           assert (t = text) by congruence. subst t.
           assert (j' = j) by congruence. subst j'.
           assert (data = m) by congruence. subst data.
           assert (B' : Validator.check_default_bindings P manifestPath
                          (ActionManifest.default_bindings m) w1
                        = (Normal (Some tt), w1)).
           { apply check_default_bindings_success_iff. split; [reflexivity|].
             exact Hb. }
           congruence.
        -- split; [discriminate|].
           intros [[t [j' [F' [J' S']]]] [_ [Hb _]]].
           assert (t = text) by congruence. subst t.
           assert (j' = j) by congruence. subst j'.
           assert (data = m) by congruence. subst data.
           assert (B' : Validator.check_default_bindings P manifestPath
                          (ActionManifest.default_bindings m) w1
                        = (Normal (Some tt), w1)).
           { apply check_default_bindings_success_iff. split; [reflexivity|].
             exact Hb. }
           congruence.
        -- split; [discriminate|].
           intros [[t [j' [F' [J' S']]]] [_ [Hb _]]].
           assert (t = text) by congruence. subst t.
           assert (j' = j) by congruence. subst j'.
           assert (data = m) by congruence. subst data.
           assert (B' : Validator.check_default_bindings P manifestPath
                          (ActionManifest.default_bindings m) w1
                        = (Normal (Some tt), w1)).
           { apply check_default_bindings_success_iff. split; [reflexivity|].
             exact Hb. }
           congruence.
      * unfold ret. split; [discriminate|].
        intros [[t [j' [F' [J' S']]]] [Hc _]].
        assert (t = text) by congruence. subst t.
        assert (j' = j) by congruence. subst j'.
        assert (data = m) by congruence. subst data.
        assert (L' : Validator.check_localizations options m
                       (ActionManifest.localization m) w
                     = (Normal (Some tt),
                        log w (map (Validator.warning m)
                                 (filter (Validator.deficient m)
                                    (ActionManifest.localization m)))))
          by (apply check_localizations_success_iff; split; auto).
        congruence.
      * destruct (only_prints_check_localizations options m
                    (ActionManifest.localization m) w) as [_ N].
        split; [discriminate|].
        intros [[t [j' [F' [J' S']]]] [Hc _]].
        assert (t = text) by congruence. subst t.
        assert (j' = j) by congruence. subst j'.
        assert (data = m) by congruence. subst data.
        assert (L' : Validator.check_localizations options m
                       (ActionManifest.localization m) w
                     = (Normal (Some tt),
                        log w (map (Validator.warning m)
                                 (filter (Validator.deficient m)
                                    (ActionManifest.localization m)))))
          by (apply check_localizations_success_iff; split; auto).
        congruence.
      * split; [discriminate|].
        intros [[t [j' [F' [J' S']]]] [Hc _]].
        assert (t = text) by congruence. subst t.
        assert (j' = j) by congruence. subst j'.
        assert (data = m) by congruence. subst data.
        assert (L' : Validator.check_localizations options m
                       (ActionManifest.localization m) w
                     = (Normal (Some tt),
                        log w (map (Validator.warning m)
                                 (filter (Validator.deficient m)
                                    (ActionManifest.localization m)))))
          by (apply check_localizations_success_iff; split; auto).
        congruence.
    + unfold Validator.validateManifest, bind. rewrite R.
      destruct (falsy j); rewrite ?S; (split; [discriminate|]);
        intros [[t [j' [F' [J' S']]]] _];
        assert (t = text) by congruence; subst t;
        assert (j' = j) by congruence; subst j'; congruence.
Qed.

(** X3.  [validateManifest] returns the success result exactly when the
    manifest file is readable, is JSON, passes the schema, every
    default binding's file is readable, is truthy JSON and passes the
    binding-file schema, and (with allow-missing-localization off)
    every localization entry covers every action.  The data returned is
    the manifest as the schema read it, no file has been changed, and
    the console has gained one diagnostic per deficient localization
    entry and nothing else: a successful strict run prints nothing. *)
Theorem validateManifest_succeeds_iff
        (P : Platform) (manifestPath : string) (options : Validator.Options)
        (w w' : World) (data : ActionManifest.t) :
  Validator.validateManifest P manifestPath options w
  = (Normal (Validator.Success data), w') <->
  (exists text j,
      files w manifestPath = Some text /\ JSON_parse P text = Some j /\
      ActionManifestSchema j = Some data) /\
  (Validator.allow_missing_localization options = false ->
   forall e, In e (ActionManifest.localization data) -> covers data e) /\
  Forall (fun b => binding_file_valid P w (binding_path P manifestPath b))
    (ActionManifest.default_bindings data) /\
  w' = log w (map (Validator.warning data)
                (filter (Validator.deficient data)
                   (ActionManifest.localization data))).
Proof. apply validateManifest_success_cases. Qed.

Lemma validateManifest_succeeds_iff_witness :
  Validator.validateManifest Sample.P "/app/actions.json" Example.strict Sample.disk
  = (Normal (Validator.Success Sample.manifest), Sample.disk).
Proof.
  apply (proj2 (validateManifest_succeeds_iff Sample.P "/app/actions.json"
                  Example.strict Sample.disk Sample.disk Sample.manifest)).
  split; [exists "text of actions.json", Sample.actions_json; repeat split|].
  split.
  - intros _ e [<-|[]] name H. simpl in H. simpl.
    destruct H as [<-|[<-|[]]]; auto.
  - split; [|reflexivity].
    constructor; [|constructor].
    exists "text of knuckles.json", Sample.knuckles.
    eexists. repeat split.
Defined.

(** X4.  Turning allow-missing-localization on never loses a manifest:
    when the strict run returns the success result, the lenient run
    returns the same result and leaves the same world (it has nothing
    to warn about). *)
Theorem strict_success_implies_lenient_success
        (P : Platform) (manifestPath : string) (w w' : World)
        (data : ActionManifest.t) :
  Validator.validateManifest P manifestPath
    {| Validator.allow_missing_localization := false |} w
  = (Normal (Validator.Success data), w') ->
  Validator.validateManifest P manifestPath
    {| Validator.allow_missing_localization := true |} w
  = (Normal (Validator.Success data), w').
Proof.
  intros H. apply validateManifest_success_cases in H as [D [C [B E]]].
  apply validateManifest_success_cases.
  split; [exact D|]. split; [discriminate|]. split; [exact B | exact E].
Qed.

Lemma strict_success_implies_lenient_success_witness :
  Validator.validateManifest Sample.P "/app/actions.json"
    {| Validator.allow_missing_localization := true |} Sample.disk
  = (Normal (Validator.Success Sample.manifest), Sample.disk).
Proof.
  apply (strict_success_implies_lenient_success Sample.P "/app/actions.json"
           Sample.disk Sample.disk Sample.manifest).
  reflexivity.
Defined.

(** X5.  A manifest or binding file whose JSON value is not an object is
    turned down with the failure result and one diagnostic: the
    read-or-parse message for the falsy values (null, false, 0, the
    empty string), the schema message for the others (true, non-zero
    numbers, strings, arrays).  For a manifest, no binding file is
    looked at. *)
Theorem non_object_document_fails
        (P : Platform) (path text : string) (v : json)
        (options : Validator.Options) (w : World) :
  files w path = Some text ->
  JSON_parse P text = Some v ->
  (forall props, v <> JObject props) ->
  Validator.validateManifest P path options w
  = (Normal Validator.VALIDATION_FAILED,
     log w [if falsy v then "Failed to read or parse the manifest file."
            else "Manifest validation failed:"]) /\
  Validator.validateBindings P path w
  = (Normal Validator.VALIDATION_FAILED,
     log w [if falsy v
            then "Failed to read or parse the binding file at " ++ path ++ "."
            else "Binding validation failed for " ++ path ++ ":"]).
Proof.
  intros F J N.
  unfold Validator.validateManifest, Validator.validateBindings, bind.
  rewrite (read_json_ok P w path text v F J).
  destruct v as [|b|n|s|items|props].
  - split; reflexivity.
  - destruct b; split; reflexivity.
  - cbn [falsy]. destruct (Z.eqb n 0); split; reflexivity.
  - destruct s; split; reflexivity.
  - split; reflexivity.
  - exfalso. apply (N props). reflexivity.
Qed.

Lemma non_object_document_fails_witness :
  Validator.validateManifest Sample.P "/app/null.json" Example.strict Sample.disk
  = (Normal Validator.VALIDATION_FAILED,
     log Sample.disk ["Failed to read or parse the manifest file."]) /\
  Validator.validateBindings Sample.P "/app/list.json" Sample.disk
  = (Normal Validator.VALIDATION_FAILED,
     log Sample.disk ["Binding validation failed for /app/list.json:"]).
Proof.
  split.
  - apply (non_object_document_fails Sample.P "/app/null.json" "null" JNull
             Example.strict Sample.disk eq_refl eq_refl).
    discriminate.
  - apply (non_object_document_fails Sample.P "/app/list.json" "[]" (JArray [])
             Example.strict Sample.disk eq_refl eq_refl).
    discriminate.
Defined.

(** X6.  The key "language_tag" of a localization entry is never counted
    as an action name.  So when a manifest declares an action that is
    itself named "language_tag", no localization entry can cover it:
    every entry is deficient, and a strict run over a manifest with at
    least one localization entry fails at the first of them. *)
Theorem action_named_language_tag_is_never_covered
        (P : Platform) (w : World) (manifestPath text : string)
        (j : json) (m : ActionManifest.t)
        (entry : Localization) (others : list Localization) :
  In "language_tag" (map Action.name (ActionManifest.actions m)) ->
  (forall e, In "language_tag" (Validator.missing_for m e) /\
             Validator.deficient m e = true) /\
  (files w manifestPath = Some text ->
   JSON_parse P text = Some j ->
   ActionManifestSchema j = Some m ->
   ActionManifest.localization m = entry :: others ->
   Validator.validateManifest P manifestPath
     {| Validator.allow_missing_localization := false |} w
   = (Normal Validator.VALIDATION_FAILED, log w [Validator.warning m entry])).
Proof.
  intros H.
  assert (A : forall e, In "language_tag" (Validator.missing_for m e) /\
                        Validator.deficient m e = true).
  { intros e.
    assert (I : In "language_tag" (Validator.missing_for m e)).
    { apply missing_for_In. split; [exact H|].
      unfold localized_keys. rewrite filter_In. intros [_ E]. discriminate E. }
    split; [exact I|]. unfold Validator.deficient.
    destruct (Validator.missing_for m e); [destruct I | reflexivity]. }
  split; [exact A|].
  intros F J S L.
  rewrite (validateManifest_after_schema P w manifestPath text j m _ F J S).
  unfold bind at 1. rewrite L.
  change (entry :: others) with ([] ++ entry :: others)%list.
  rewrite (check_localizations_strict m [] entry others w).
  - reflexivity.
  - intros e [].
  - apply A.
Qed.

Lemma action_named_language_tag_is_never_covered_witness :
  Validator.deficient
    {| ActionManifest.default_bindings := [];
       ActionManifest.actions :=
         [ {| Action.name := "language_tag"; Action.requirement := None;
              Action.type := ActionType.boolean; Action.skeleton := None |} ];
       ActionManifest.action_sets := [];
       ActionManifest.localization := [] |}
    [("language_tag", "en_US")] = true.
Proof.
  refine (proj2 (proj1 (action_named_language_tag_is_never_covered
                          Example.P Example.disk EmptyString EmptyString JNull
                          _ [] [] _) _)).
  left. reflexivity.
Defined.

(** ** The validator's entry point *)

(** X7.  The validator tool ends normally exactly when
    [validateManifest] returned the success result, and then its last
    line is "Manifest is valid."; it exits with status 1 exactly when the
    failure result was returned (last line "Manifest validation
    failed.") or when the first positional argument is missing or is not
    a string (the usage line, nothing read); an exception of
    [validateManifest] goes through uncaught.  It exits with no other
    status and changes no file. *)
Theorem validator_main_exit_status
        (P : Platform) (args : list positional) (flags : Validator.Options)
        (w : World) :
  let r := Validator.main P args flags w in
  files (snd r) = files w /\
  (forall code, fst r = Exited code -> code = 1%Z) /\
  ((forall manifestPath, nth_error args 0 <> Some (PString manifestPath)) ->
   r = (Exited 1%Z,
        log w ["Please provide the path to the action manifest file."])) /\
  (forall manifestPath,
      nth_error args 0 = Some (PString manifestPath) ->
      let v := Validator.validateManifest P manifestPath flags w in
      (Validator.success_of (fst v) = Some true <->
       r = (Normal tt, log (snd v) ["Manifest is valid."])) /\
      (Validator.success_of (fst v) = Some false <->
       r = (Exited 1%Z, log (snd v) ["Manifest validation failed."])) /\
      (forall e, fst v = Thrown e <-> r = (Thrown e, snd v))).
Proof.
  intros r. unfold r, Validator.main.
  destruct (nth_error args 0) as [[mp|n]|] eqn:A.
  - destruct (only_prints_validateManifest P mp flags w) as [[lines E] N].
    unfold bind.
    destruct (Validator.validateManifest P mp flags w) as [[res|e|c] w1] eqn:V;
      simpl in E, N; subst w1.
    + destruct res as [|data]; cbn [Validator.success].
      * split; [reflexivity|]. split; [intros code H; now injection H as <-|].
        split; [intros H; exfalso; now apply (H mp)|].
        intros mp' H. injection H as <-. rewrite V. cbn [fst snd Validator.success_of
          Validator.success].
        split; [split; discriminate|]. split; [split; reflexivity|].
        intros e. split; discriminate.
      * split; [reflexivity|]. split; [discriminate|].
        split; [intros H; exfalso; now apply (H mp)|].
        intros mp' H. injection H as <-. rewrite V. cbn [fst snd Validator.success_of
          Validator.success].
        split; [split; reflexivity|]. split; [split; discriminate|].
        intros e. split; discriminate.
    + split; [reflexivity|]. split; [discriminate|].
      split; [intros H; exfalso; now apply (H mp)|].
      intros mp' H. injection H as <-. rewrite V. cbn [fst snd Validator.success_of].
      split; [split; discriminate|]. split; [split; discriminate|].
      intros e'. split; intros H; injection H as <-; reflexivity.
    + exfalso. now apply (N c).
  - split; [reflexivity|]. split; [intros code H; now injection H as <-|].
    split; [reflexivity|]. intros mp H. discriminate H.
  - split; [reflexivity|]. split; [intros code H; now injection H as <-|].
    split; [reflexivity|]. intros mp H. discriminate H.
Qed.

Lemma validator_main_exit_status_witness :
  Validator.main Sample.P [PString "/app/actions.json"] Example.strict Sample.disk
  = (Normal tt, log Sample.disk ["Manifest is valid."]) /\
  Validator.main Sample.P [PNumber 42] Example.strict Sample.disk
  = (Exited 1%Z,
     log Sample.disk ["Please provide the path to the action manifest file."]).
Proof.
  destruct (validator_main_exit_status Sample.P [PString "/app/actions.json"]
              Example.strict Sample.disk) as [_ [_ [_ H]]].
  destruct (validator_main_exit_status Sample.P [PNumber 42]
              Example.strict Sample.disk) as [_ [_ [U _]]].
  split.
  - destruct (H "/app/actions.json" eq_refl) as [[S _] _].
    rewrite (S eq_refl). reflexivity.
  - apply U. intros mp E. discriminate E.
Defined.

(** ** The schemas *)

Lemma get_insert_other (key k : string) (v : json)
      (before after : list (string * json)) :
  k <> key ->
  Zod.get key (before ++ (k, v) :: after)%list = Zod.get key (before ++ after)%list.
Proof.
  intros H. induction before as [|[k' v'] r IH]; simpl.
  - destruct (String.eqb_spec k key); [contradiction | reflexivity].
  - destruct (String.eqb k' key); [reflexivity | exact IH].
Qed.

Ltac forget_property :=
  repeat match goal with
         | H : ~ In _ (_ :: _) |- _ =>
             apply not_in_cons in H; let N := fresh "N" in destruct H as [N H]
         end;
  unfold Zod.object, Zod.required, Zod.optional;
  repeat (rewrite get_insert_other by assumption);
  reflexivity.

(** X8.  The object schemas look only at the properties they declare:
    a property under any other key, wherever it stands in the object
    and whatever its value, changes neither whether the manifest, an
    action, an action set, a default binding or a binding file is
    accepted nor what is read from it. *)
Theorem undeclared_properties_are_ignored
        (before after : list (string * json)) (k : string) (v : json) :
  let with_it := JObject (before ++ (k, v) :: after)%list in
  let without := JObject (before ++ after)%list in
  (~ In k ["default_bindings"; "actions"; "action_sets"; "localization"] ->
   ActionManifestSchema with_it = ActionManifestSchema without) /\
  (~ In k ["name"; "requirement"; "type"; "skeleton"] ->
   ActionSchema with_it = ActionSchema without) /\
  (~ In k ["name"; "usage"] ->
   ActionSetSchema with_it = ActionSetSchema without) /\
  (~ In k ["controller_type"; "binding_url"] ->
   DefaultBindingSchema with_it = DefaultBindingSchema without) /\
  (~ In k ["bindings"; "controller_type"; "description"; "name"] ->
   BindingFileSchema with_it = BindingFileSchema without).
Proof.
  intros with_it without. unfold with_it, without.
  split; [|split; [|split; [|split]]]; intros H.
  - unfold ActionManifestSchema. forget_property.
  - unfold ActionSchema. forget_property.
  - unfold ActionSetSchema. forget_property.
  - unfold DefaultBindingSchema. forget_property.
  - unfold BindingFileSchema. forget_property.
Qed.

Lemma undeclared_properties_are_ignored_witness :
  ActionSchema (JObject [("name", JString "/a"); ("comment", JNumber 1);
                         ("type", JString "pose")])
  = ActionSchema (JObject [("name", JString "/a"); ("type", JString "pose")]).
Proof.
  apply (proj1 (proj2 (undeclared_properties_are_ignored
                         [("name", JString "/a")] [("type", JString "pose")]
                         "comment" (JNumber 1)))).
  simpl. intros H. repeat (destruct H as [H|H]; [discriminate H|]). exact H.
Defined.

Lemma lookup_option_Some {A} (to_string : A -> string) (options : list A)
      (s : string) (a : A) :
  Zod.lookup_option to_string options s = Some a ->
  to_string a = s /\ In a options.
Proof.
  induction options as [|o r IH]; simpl; [discriminate|].
  destruct (String.eqb_spec (to_string o) s) as [E|_].
  - intros H. injection H as <-. split; [exact E | now left].
  - intros H. destruct (IH H). split; [assumption | now right].
Qed.

Lemma ActionType_enum (s : string) (t : ActionType.t) :
  Zod.lookup_option ActionType.to_string ActionType.options s = Some t <->
  ActionType.to_string t = s.
Proof.
  split.
  - intros H. apply (lookup_option_Some _ _ _ _ H).
  - intros <-. destruct t; reflexivity.
Qed.

Lemma Requirement_enum (s : string) (r : Requirement.t) :
  Zod.lookup_option Requirement.to_string Requirement.options s = Some r <->
  Requirement.to_string r = s.
Proof.
  split.
  - intros H. apply (lookup_option_Some _ _ _ _ H).
  - intros <-. destruct r; reflexivity.
Qed.

Lemma required_string_iff (key : string) (props : list (string * json)) (x : string) :
  Zod.required key Zod.string props = Some x <->
  Zod.get key props = Some (JString x).
Proof.
  unfold Zod.required, Zod.string.
  destruct (Zod.get key props) as [[| | |y| |]|];
    try (split; discriminate).
  split; intros H; injection H as <-; reflexivity.
Qed.

Lemma optional_string_iff (key : string) (props : list (string * json))
      (x : option string) :
  Zod.optional key Zod.string props = Some x <->
  Zod.get key props = option_map JString x.
Proof.
  unfold Zod.optional, Zod.string.
  destruct (Zod.get key props) as [[| | |y| |]|], x as [x|]; simpl;
    try (split; discriminate); try (split; reflexivity).
  split; intros H; injection H as <-; reflexivity.
Qed.

Lemma required_type_iff (props : list (string * json)) (t : ActionType.t) :
  Zod.required "type" (Zod.enum ActionType.to_string ActionType.options) props
  = Some t <->
  Zod.get "type" props = Some (JString (ActionType.to_string t)).
Proof.
  unfold Zod.required, Zod.enum.
  destruct (Zod.get "type" props) as [[| | |y| |]|];
    try (split; discriminate).
  rewrite ActionType_enum. split.
  - intros <-. reflexivity.
  - intros H. injection H as <-. reflexivity.
Qed.

Lemma optional_requirement_iff (props : list (string * json))
      (q : option Requirement.t) :
  Zod.optional "requirement"
    (Zod.enum Requirement.to_string Requirement.options) props = Some q <->
  Zod.get "requirement" props
  = option_map (fun r => JString (Requirement.to_string r)) q.
Proof.
  unfold Zod.optional, Zod.enum.
  destruct (Zod.get "requirement" props) as [[| | |y| |]|], q as [q|];
    cbn [option_map];
    try (split; discriminate); try (split; reflexivity).
  - destruct (Zod.lookup_option Requirement.to_string Requirement.options y)
      as [q'|] eqn:L.
    + apply Requirement_enum in L. subst y. split.
      * intros H. injection H as <-. reflexivity.
      * intros H. injection H as H.
        assert (q = q') by (destruct q, q'; try reflexivity; discriminate H).
        now subst.
    + split; [discriminate|]. intros H. injection H as ->.
      assert (L' := proj2 (Requirement_enum _ q) eq_refl). congruence.
  - destruct (Zod.lookup_option Requirement.to_string Requirement.options y);
      split; discriminate.
Qed.

(** X9.  An action object is accepted exactly when "name" is a string,
    "type" is one of the seven type names, "requirement" is absent or
    one of mandatory, optional, suggested, and "skeleton" is absent or a
    string (null does not count as absent); what is read is then those
    four values.  Nothing but an object is accepted. *)
Theorem ActionSchema_accepts_iff (props : list (string * json)) (a : Action.t) :
  (ActionSchema (JObject props) = Some a <->
   Zod.get "name" props = Some (JString (Action.name a)) /\
   Zod.get "type" props = Some (JString (ActionType.to_string (Action.type a))) /\
   Zod.get "requirement" props
   = option_map (fun r => JString (Requirement.to_string r)) (Action.requirement a) /\
   Zod.get "skeleton" props = option_map JString (Action.skeleton a)) /\
  (forall j, ActionSchema j = Some a -> exists o, j = JObject o).
Proof.
  split.
  - rewrite <- required_string_iff, <- required_type_iff,
      <- optional_requirement_iff, <- optional_string_iff.
    unfold ActionSchema, Zod.object.
    destruct a as [n r t k].
    cbn [Action.name Action.requirement Action.type Action.skeleton].
    destruct (Zod.required "name" Zod.string props) as [n'|];
      [|split; [discriminate | intros [H _]; discriminate H]].
    destruct (Zod.optional "requirement" _ props) as [r'|];
      [|split; [discriminate | intros [_ [_ [H _]]]; discriminate H]].
    destruct (Zod.required "type" _ props) as [t'|];
      [|split; [discriminate | intros [_ [H _]]; discriminate H]].
    destruct (Zod.optional "skeleton" Zod.string props) as [k'|];
      [|split; [discriminate | intros [_ [_ [_ H]]]; discriminate H]].
    split.
    + intros H. injection H as <- <- <- <-. auto.
    + intros [H1 [H2 [H3 H4]]]. congruence.
  - intros j H. destruct j; try discriminate H. eexists. reflexivity.
Qed.

Lemma ActionSchema_accepts_iff_witness :
  ActionSchema
    (JObject [("name", JString "/actions/main/in/Jump");
              ("requirement", JString "mandatory");
              ("type", JString "boolean")])
  = Some {| Action.name := "/actions/main/in/Jump";
            Action.requirement := Some Requirement.mandatory;
            Action.type := ActionType.boolean; Action.skeleton := None |}.
Proof.
  apply (proj1 (ActionSchema_accepts_iff _ _)). repeat split.
Defined.

Lemma mapM_Forall2 {A B} (f : A -> option B) (xs : list A) (ys : list B) :
  Zod.mapM f xs = Some ys <-> Forall2 (fun x y => f x = Some y) xs ys.
Proof.
  revert ys. induction xs as [|x r IH]; intros ys; simpl.
  - split.
    + intros H. injection H as <-. constructor.
    + intros H. inversion H. reflexivity.
  - destruct (f x) as [y|] eqn:E.
    + destruct (Zod.mapM f r) as [ys'|].
      * split.
        -- intros H. injection H as <-. constructor; [exact E | now apply IH].
        -- intros H. inversion H as [|? y' ? ys'' E' H']; subst.
           apply IH in H'. congruence.
      * split; [discriminate|].
        intros H. inversion H as [|? y' ? ys'' E' H']; subst.
        apply IH in H'. discriminate H'.
    + split; [discriminate|].
      intros H. inversion H as [|? y' ? ys'' E' H']; subst. congruence.
Qed.

Lemma localized_keys_of_filtered (props : list (string * json)) :
  filter (fun k => negb (String.eqb k "language_tag"))
    (map fst (filter (fun kv => negb (String.eqb (fst kv) "language_tag")) props))
  = filter (fun k => negb (String.eqb k "language_tag")) (map fst props).
Proof.
  induction props as [|[k v] r IH]; [reflexivity|].
  cbn [filter map fst].
  destruct (negb (String.eqb k "language_tag")) eqn:O; cbn [filter map fst];
    rewrite ?O, IH; reflexivity.
Qed.

Lemma insert_index_perm {A} (n : N) (kv : string * A)
      (sorted : list (N * (string * A))) :
  Permutation (map snd (JS.insert_index n kv sorted)) (kv :: map snd sorted).
Proof.
  induction sorted as [|[m x] r IH]; cbn [JS.insert_index map snd].
  - apply Permutation_refl.
  - destruct (n <? m)%N; cbn [map snd].
    + apply Permutation_refl.
    + apply Permutation_trans with (x :: kv :: map snd r).
      * now apply perm_skip.
      * apply perm_swap.
Qed.

Lemma own_properties_perm {A} (created : list (string * A)) :
  Permutation (JS.own_properties created) created.
Proof.
  unfold JS.own_properties.
  induction created as [|kv r IH]; [apply Permutation_refl|].
  cbn [fold_right filter].
  destruct (JS.array_index (fst kv)) as [n|].
  - eapply Permutation_trans.
    + apply Permutation_app_tail, insert_index_perm.
    + cbn [app]. now apply perm_skip.
  - apply Permutation_sym. apply Permutation_cons_app. now apply Permutation_sym.
Qed.

Lemma filter_perm {A} (p : A -> bool) (xs ys : list A) :
  Permutation xs ys -> Permutation (filter p xs) (filter p ys).
Proof.
  induction 1 as [|x xs ys H IH|x y xs|xs ys zs H1 IH1 H2 IH2]; cbn [filter].
  - apply Permutation_refl.
  - destruct (p x); [now apply perm_skip | exact IH].
  - destruct (p x), (p y); try apply Permutation_refl. apply perm_swap.
  - now apply Permutation_trans with (filter p ys).
Qed.

(** X10.  A localization entry passes the schema only if "language_tag"
    and every other property hold strings, and then nothing is dropped
    and nothing is added: the entry holds the language tag, and the keys
    the coverage check sees are the keys of the document other than
    "language_tag", each as often as there and each with its string (in
    the order in which the parsed object is gone through, array indices
    first).  One property with another kind of value, or no
    "language_tag", and the entry is refused. *)
Theorem LocalizationSchema_keeps_every_key (props : list (string * json)) :
  (forall entry,
      LocalizationSchema (JObject props) = Some entry ->
      (exists tag, Zod.get "language_tag" props = Some (JString tag) /\
                   In ("language_tag", tag) entry) /\
      Permutation (localized_keys entry)
        (filter (fun k => negb (String.eqb k "language_tag")) (map fst props)) /\
      (forall k v, In (k, v) props -> k <> "language_tag" ->
                   exists s, v = JString s /\ In (k, s) entry)) /\
  (forall k v, In (k, v) props -> k <> "language_tag" ->
               (forall s, v <> JString s) ->
               LocalizationSchema (JObject props) = None) /\
  (Zod.get "language_tag" props = None ->
   LocalizationSchema (JObject props) = None).
Proof.
  assert (A : forall entry,
             LocalizationSchema (JObject props) = Some entry ->
             (exists tag, Zod.get "language_tag" props = Some (JString tag) /\
                          In ("language_tag", tag) entry) /\
             Permutation (localized_keys entry)
               (filter (fun k => negb (String.eqb k "language_tag"))
                  (map fst props)) /\
             (forall k v, In (k, v) props -> k <> "language_tag" ->
                          exists s, v = JString s /\ In (k, s) entry)).
  { intros entry. unfold LocalizationSchema, Zod.object.
    destruct (Zod.required "language_tag" Zod.string props) as [tag|] eqn:T;
      [|discriminate].
    apply required_string_iff in T.
    destruct (Zod.mapM _ _) as [rest|] eqn:M; [|discriminate].
    intros H. injection H as <-. apply mapM_Forall2 in M.
    pose proof (own_properties_perm (("language_tag", tag) :: rest)) as O.
    split; [exists tag; split; [exact T|]|].
    { apply (Permutation_in _ (Permutation_sym O)). now left. }
    split.
    - eapply Permutation_trans.
      + unfold localized_keys. apply filter_perm, Permutation_map. exact O.
      + cbn [map fst filter]. cbn [String.eqb Ascii.eqb Bool.eqb negb].
        rewrite <- localized_keys_of_filtered.
        match goal with
        | |- Permutation ?a ?b => assert (E : a = b); [|rewrite E; apply Permutation_refl]
        end.
        f_equal. clear O.
        induction M as [|[k v] [k' s] l l' E M IH]; [reflexivity|].
        simpl. rewrite IH. unfold Zod.string in E. simpl in E.
        destruct v; try discriminate E. injection E as <- _. reflexivity.
    - intros k v I N.
      assert (I' : In (k, v)
                     (filter (fun kv => negb (String.eqb (fst kv) "language_tag"))
                        props)).
      { apply filter_In. split; [exact I|]. simpl.
        destruct (String.eqb_spec k "language_tag"); [contradiction | reflexivity]. }
      clear I.
      assert (R : exists s, v = JString s /\ In (k, s) rest).
      { clear O. induction M as [|[k0 v0] [k' s] l l' E M IH]; [destruct I'|].
        destruct I' as [I'|I'].
        + injection I' as -> ->. unfold Zod.string in E. simpl in E.
          destruct v; try discriminate E. injection E as <- <-.
          exists s0. split; [reflexivity | now left].
        + destruct (IH I') as [s' [Hs Hin]].
          exists s'. split; [exact Hs | now right]. }
      destruct R as [s [Hs Hin]]. exists s. split; [exact Hs|].
      apply (Permutation_in _ (Permutation_sym O)). now right. }
  split; [exact A|]. split.
  - intros k v I N S.
    destruct (LocalizationSchema (JObject props)) as [entry|] eqn:L; [|reflexivity].
    destruct (A entry eq_refl) as [_ [_ H]].
    destruct (H k v I N) as [s [E _]]. exfalso. apply (S s E).
  - intros G. unfold LocalizationSchema, Zod.object, Zod.required. now rewrite G.
Qed.

Lemma LocalizationSchema_keeps_every_key_witness :
  LocalizationSchema
    (JObject [("language_tag", JString "en_US"); ("/actions/main/in/Jump", JNumber 1)])
  = None.
Proof.
  apply (proj1 (proj2 (LocalizationSchema_keeps_every_key _))
           "/actions/main/in/Jump" (JNumber 1)).
  - right. left. reflexivity.
  - discriminate.
  - discriminate.
Defined.

(** Keys that are array indices come before "language_tag" in the
    entry, in ascending order, however the document lists them. *)
Lemma LocalizationSchema_index_keys_first :
  LocalizationSchema
    (JObject [("language_tag", JString "en_US"); ("10", JString "ten");
              ("/actions/main/in/Jump", JString "Jump"); ("2", JString "two");
              ("007", JString "seven")])
  = Some [("2", "two"); ("10", "ten"); ("language_tag", "en_US");
          ("/actions/main/in/Jump", "Jump"); ("007", "seven")].
Proof. reflexivity. Qed.

Lemma mapM_any (xs : list json) : Zod.mapM Zod.any xs = Some xs.
Proof. induction xs as [|x r IH]; simpl; [reflexivity | now rewrite IH]. Qed.

Lemma get_behind_chords (key : string) (v : json) (props : list (string * json)) :
  key <> "chords" -> Zod.get key (("chords", v) :: props) = Zod.get key props.
Proof.
  intros H. cbn [Zod.get].
  destruct (String.eqb_spec "chords" key); [congruence | reflexivity].
Qed.

(** X11.  The "chords" of an action binding are not validated beyond
    being an array: put in front of the properties of an accepted
    binding, any array at all is accepted and kept as it is, while a
    value that is not an array is refused. *)
Theorem chords_are_not_validated
        (props : list (string * json)) (binding : ActionBinding.t)
        (items : list json) (other : json) :
  ActionBindingSchema (JObject props) = Some binding ->
  ActionBindingSchema (JObject (("chords", JArray items) :: props))
  = Some {| ActionBinding.sources := ActionBinding.sources binding;
            ActionBinding.chords := Some items;
            ActionBinding.haptics := ActionBinding.haptics binding;
            ActionBinding.poses := ActionBinding.poses binding;
            ActionBinding.skeleton := ActionBinding.skeleton binding |} /\
  ((forall xs, other <> JArray xs) ->
   ActionBindingSchema (JObject (("chords", other) :: props)) = None).
Proof.
  unfold ActionBindingSchema, Zod.object, Zod.optional. intros H.
  change (Zod.get "chords" (("chords", JArray items) :: props))
    with (Some (JArray items)).
  change (Zod.get "chords" (("chords", other) :: props)) with (Some other).
  repeat (rewrite get_behind_chords by discriminate).
  destruct (match Zod.get "sources" props with
            | Some v => match Zod.array SourceSchema v with
                        | Some a => Some (Some a)
                        | None => None
                        end
            | None => Some None
            end) as [s|]; [|discriminate H].
  destruct (match Zod.get "chords" props with
            | Some v => match Zod.array Zod.any v with
                        | Some a => Some (Some a)
                        | None => None
                        end
            | None => Some None
            end) as [c|]; [|discriminate H].
  destruct (match Zod.get "haptics" props with
            | Some v => match Zod.array OutputPathMappingSchema v with
                        | Some a => Some (Some a)
                        | None => None
                        end
            | None => Some None
            end) as [h|]; [|discriminate H].
  destruct (match Zod.get "poses" props with
            | Some v => match Zod.array OutputPathMappingSchema v with
                        | Some a => Some (Some a)
                        | None => None
                        end
            | None => Some None
            end) as [p|]; [|discriminate H].
  destruct (match Zod.get "skeleton" props with
            | Some v => match Zod.array OutputPathMappingSchema v with
                        | Some a => Some (Some a)
                        | None => None
                        end
            | None => Some None
            end) as [k|]; [|discriminate H].
  injection H as <-. split.
  - unfold Zod.array. rewrite mapM_any. reflexivity.
  - intros N. destruct other; try reflexivity. exfalso. apply (N items0). reflexivity.
Qed.

Lemma chords_are_not_validated_witness :
  ActionBindingSchema
    (JObject [("chords", JArray [JNull; JNumber 7; JObject [("x", JBool true)]])])
  = Some {| ActionBinding.sources := None;
            ActionBinding.chords := Some [JNull; JNumber 7; JObject [("x", JBool true)]];
            ActionBinding.haptics := None;
            ActionBinding.poses := None;
            ActionBinding.skeleton := None |}.
Proof.
  apply (proj1 (chords_are_not_validated []
                  {| ActionBinding.sources := None; ActionBinding.chords := None;
                     ActionBinding.haptics := None; ActionBinding.poses := None;
                     ActionBinding.skeleton := None |}
                  [JNull; JNumber 7; JObject [("x", JBool true)]] JNull eq_refl)).
Defined.

(** ** The generator's entry point *)

Lemma main_with_three_paths (P : Platform) (w : World)
      (manifestPath preludePath generatedPath : string) :
  let args := [PString manifestPath; PString preludePath; PString generatedPath] in
  (exists e, Generator.main P args w = (Thrown e, w)) \/
  (exists text j m prelude generated,
      files w manifestPath = Some text /\ JSON_parse P text = Some j /\
      ActionManifestSchema j = Some m /\ files w preludePath = Some prelude /\
      Generator.code m = inr generated /\
      Generator.main P args w
      = Deno.writeTextFileSync generatedPath
          (Generator.flatCode
             (Generator.generationNotice ++ Generator.strip_stub prelude
                ++ generated)) w).
Proof.
  intros args.
  destruct (files w manifestPath) as [text|] eqn:F.
  2: { left. exists (NotFound manifestPath).
       unfold args, Generator.main. cbn [nth_error]. cbv beta iota.
       unfold bind, Deno.readTextFileSync. cbv beta. now rewrite F. }
  destruct (JSON_parse P text) as [j|] eqn:J.
  2: { left. exists SyntaxError.
       unfold args, Generator.main. cbn [nth_error]. cbv beta iota.
       unfold bind, Deno.readTextFileSync. cbv beta. rewrite F. cbv beta iota.
       now rewrite J. }
  destruct (ActionManifestSchema j) as [m|] eqn:S.
  2: { left. exists ZodError. apply (main_schema_violation P w _ _ _ text j F J S). }
  destruct (files w preludePath) as [prelude|] eqn:F'.
  2: { left. exists (NotFound preludePath).
       unfold args, Generator.main. cbn [nth_error]. cbv beta iota.
       unfold bind, Deno.readTextFileSync, ret. cbv beta.
       rewrite F. cbv beta iota. rewrite J. cbv beta iota. rewrite S.
       cbv beta iota. now rewrite F'. }
  right. destruct (code_total m) as [acc [_ C]].
  exists text, j, m, prelude. eexists. repeat split; try eassumption.
  apply (main_reaches_write P w _ _ _ _ _ j m _ F J S F' C).
Qed.

Lemma write_never_exits (path text : string) (w : World) (c : Z) :
  fst (Deno.writeTextFileSync path text w) <> Exited c.
Proof.
  unfold Deno.writeTextFileSync.
  destruct (write_failure w path text) as [[e torn]|]; discriminate.
Qed.


(** X12.  The generator asks for its usage and exits with status 1
    exactly when one of its first three positional arguments is missing
    or is not a string (a number, as the argument parser delivers
    numeric words); it has then read and written nothing.  With three
    strings it never exits: it completes or throws.  In particular an
    unreadable prelude ends the run with the read's exception after the
    manifest has been accepted, and nothing is written. *)
Theorem generator_usage_error
        (P : Platform) (args : list positional) (w : World) :
  ((exists i, (i < 3)%nat /\ forall path, nth_error args i <> Some (PString path)) <->
   Generator.main P args w = (Exited 1%Z, log w [usage_line])) /\
  (forall code, fst (Generator.main P args w) = Exited code ->
                Generator.main P args w = (Exited 1%Z, log w [usage_line])) /\
  (forall manifestPath preludePath generatedPath text j m,
      args = [PString manifestPath; PString preludePath; PString generatedPath] ->
      files w manifestPath = Some text -> JSON_parse P text = Some j ->
      ActionManifestSchema j = Some m -> files w preludePath = None ->
      Generator.main P args w = (Thrown (NotFound preludePath), w)).
Proof.
  assert (T : forall mp pp gp c,
             fst (Generator.main P [PString mp; PString pp; PString gp] w)
             <> Exited c).
  { intros mp pp gp c.
    destruct (main_with_three_paths P w mp pp gp)
      as [[e E] | [t [j [m [pt [g [_ [_ [_ [_ [_ E]]]]]]]]]]];
      rewrite E; [discriminate | apply write_never_exits]. }
  assert (U : (exists i, (i < 3)%nat /\
                         forall path, nth_error args i <> Some (PString path)) ->
              Generator.main P args w = (Exited 1%Z, log w [usage_line])).
  { intros [i [Hi N]]. unfold Generator.main.
    destruct (nth_error args 0) as [[mp|n0]|] eqn:A0; try reflexivity.
    destruct (nth_error args 1) as [[pp|n1]|] eqn:A1; try reflexivity.
    destruct (nth_error args 2) as [[gp|n2]|] eqn:A2; try reflexivity.
    exfalso. destruct i as [|[|[|i]]]; [| | |lia].
    - apply (N mp A0).
    - apply (N pp A1).
    - apply (N gp A2). }
  assert (V : forall code, fst (Generator.main P args w) = Exited code ->
              exists i, (i < 3)%nat /\
                        forall path, nth_error args i <> Some (PString path)).
  { intros code. unfold Generator.main.
    destruct (nth_error args 0) as [[mp|n0]|] eqn:A0;
      [| intros _; exists 0%nat; split; [lia|]; intros p;
         rewrite A0; discriminate ..].
    destruct (nth_error args 1) as [[pp|n1]|] eqn:A1;
      [| intros _; exists 1%nat; split; [lia|]; intros p;
         rewrite A1; discriminate ..].
    destruct (nth_error args 2) as [[gp|n2]|] eqn:A2;
      [| intros _; exists 2%nat; split; [lia|]; intros p;
         rewrite A2; discriminate ..].
    intros H. exfalso. apply (T mp pp gp code).
    unfold Generator.main. cbn [nth_error]. exact H. }
  split; [split; [exact U|]|split].
  - intros E. apply (V 1%Z). now rewrite E.
  - intros code H. apply U, (V code H).
  - intros mp pp gp text j m -> F J S F'.
    unfold Generator.main. cbn [nth_error]. cbv beta iota.
    unfold bind, Deno.readTextFileSync, ret. cbv beta.
    rewrite F. cbv beta iota. rewrite J. cbv beta iota. rewrite S.
    cbv beta iota. now rewrite F'.
Qed.

Lemma generator_usage_error_witness :
  Generator.main Sample.P [PString "/app/actions.json"; PNumber 2024] Sample.disk
  = (Exited 1%Z, log Sample.disk [usage_line]) /\
  Generator.main Sample.P
    [PString "/app/actions.json"; PString "/app/nothing.rs"; PString "/app/out.rs"]
    Sample.disk
  = (Thrown (NotFound "/app/nothing.rs"), Sample.disk).
Proof.
  split.
  - apply (proj1 (proj1 (generator_usage_error Sample.P
                           [PString "/app/actions.json"; PNumber 2024] Sample.disk))).
    exists 1%nat. split; [lia|]. intros path H. discriminate H.
  - apply (proj2 (proj2 (generator_usage_error Sample.P _ Sample.disk))
             "/app/actions.json" "/app/nothing.rs" "/app/out.rs"
             "text of actions.json" Sample.actions_json Sample.manifest);
      reflexivity.
Defined.



(** ** Cutting the prelude *)

Lemma marker_at_start_app (s rest : string) :
  marker_at_start s -> marker_at_start (s ++ rest).
Proof.
  intros [ws [r [W ->]]]. exists ws, (r ++ rest). split; [exact W|].
  rewrite !append_assoc. reflexivity.
Qed.

Lemma marker_at_start_nonempty (s : string) : marker_at_start s -> s <> EmptyString.
Proof. intros [ws [r [_ ->]]]. discriminate. Qed.

Lemma strip_stub_unique (prelude kept dropped : string) :
  prelude = kept ++ dropped ->
  (dropped = EmptyString \/ marker_at_start dropped) ->
  (forall a b, kept = a ++ b -> b <> EmptyString -> ~ marker_at_start (b ++ dropped)) ->
  Generator.strip_stub prelude = kept.
Proof.
  revert prelude. induction kept as [|c k IH]; intros prelude -> D L.
  - simpl. destruct D as [->|D]; [reflexivity|].
    pose proof (marker_at_start_nonempty _ D) as N.
    destruct dropped as [|x r]; [congruence|].
    cbn [Generator.strip_stub].
    now rewrite (proj2 (stub_marker_here_iff _) D).
  - cbn [append Generator.strip_stub].
    destruct (Generator.stub_marker_here (String c (k ++ dropped))) eqn:M.
    + exfalso. apply (L EmptyString (String c k) eq_refl); [discriminate|].
      apply stub_marker_here_iff. exact M.
    + f_equal. apply IH; [reflexivity | exact D |].
      intros a b E Hb. apply (L (String c a) b); [now rewrite E | exact Hb].
Qed.

(** X14.  What the generator keeps of the prelude is the part before
    the leftmost marker (two slashes, any white space, STUB_FOLLOWS) and
    nothing else fits that description; a prelude without marker is
    kept whole; the kept part holds no marker at any position, so
    cutting it again changes nothing. *)
Theorem strip_stub_keeps_up_to_first_marker (prelude : string) :
  (forall kept,
      Generator.strip_stub prelude = kept <->
      exists dropped,
        prelude = kept ++ dropped /\
        (dropped = EmptyString \/ marker_at_start dropped) /\
        (forall a b, kept = a ++ b -> b <> EmptyString ->
                     ~ marker_at_start (b ++ dropped))) /\
  ((forall a b, prelude = a ++ b -> ~ marker_at_start b) ->
   Generator.strip_stub prelude = prelude) /\
  (forall a b, Generator.strip_stub prelude = a ++ b -> ~ marker_at_start b) /\
  Generator.strip_stub (Generator.strip_stub prelude) = Generator.strip_stub prelude.
Proof.
  assert (A : forall a b, Generator.strip_stub prelude = a ++ b -> ~ marker_at_start b).
  { intros a b E M.
    destruct (strip_stub_split prelude) as [dropped [_ [_ L]]].
    pose proof (marker_at_start_nonempty _ M) as N.
    apply stub_marker_here_iff in M.
    assert (M' : Generator.stub_marker_here (b ++ dropped) = true).
    { apply stub_marker_here_iff, marker_at_start_app, stub_marker_here_iff, M. }
    rewrite (L a b E N) in M'. discriminate M'. }
  split; [|split; [|split]].
  - intros kept. split.
    + intros <-. destruct (strip_stub_split prelude) as [dropped [E [D L]]].
      exists dropped. split; [exact E|]. split.
      * destruct D as [D|D]; [now left | right; apply stub_marker_here_iff, D].
      * intros a b Ek Hb M. apply stub_marker_here_iff in M.
        rewrite (L a b Ek Hb) in M. discriminate M.
    + intros [dropped [E [D L]]]. apply (strip_stub_unique _ _ dropped E D L).
  - intros N. apply (strip_stub_unique _ _ EmptyString).
    + now rewrite append_nil_r.
    + now left.
    + intros a b E _. rewrite append_nil_r. apply (N a b E).
  - exact A.
  - apply (strip_stub_unique _ _ EmptyString).
    + now rewrite append_nil_r.
    + now left.
    + intros a b E _. rewrite append_nil_r. apply (A a b E).
Qed.

Lemma strip_stub_keeps_up_to_first_marker_witness :
  exists dropped,
    "use crate::sys;" ++ JS.nl ++ "//   STUB_FOLLOWS" ++ JS.nl ++ "impl Input {}"
    = ("use crate::sys;" ++ JS.nl) ++ dropped /\
    (dropped = EmptyString \/ marker_at_start dropped) /\
    (forall a b, "use crate::sys;" ++ JS.nl = a ++ b -> b <> EmptyString ->
                 ~ marker_at_start (b ++ dropped)).
Proof.
  apply (proj1 (proj1 (strip_stub_keeps_up_to_first_marker
                         ("use crate::sys;" ++ JS.nl ++ "//   STUB_FOLLOWS"
                            ++ JS.nl ++ "impl Input {}"))
                  ("use crate::sys;" ++ JS.nl))).
  reflexivity.
Defined.

(** ** More on [flatCode] *)

Lemma flatCode_kept_lines (s : string) :
  Generator.flatCode s = JS.join JS.nl (kept_lines s).
Proof. reflexivity. Qed.

Lemma kept_lines_nonempty (s l : string) :
  In l (kept_lines s) -> JS.nonempty l = true.
Proof. intros H. apply filter_In in H. apply H. Qed.

Lemma join_nonempty (sep x : string) (r : list string) :
  JS.nonempty x = true -> JS.nonempty (JS.join sep (x :: r)) = true.
Proof.
  intros H. destruct x as [|c x]; [discriminate H|].
  destruct r; reflexivity.
Qed.

Lemma flatCode_empty_iff_no_lines (s : string) :
  Generator.flatCode s = EmptyString <-> kept_lines s = [].
Proof.
  rewrite flatCode_kept_lines. split.
  - destruct (kept_lines s) as [|x r] eqn:E; [reflexivity|].
    intros H. assert (N : JS.nonempty x = true)
      by (apply (kept_lines_nonempty s); rewrite E; now left).
    apply (join_nonempty JS.nl x r) in N. rewrite H in N. discriminate N.
  - intros ->. reflexivity.
Qed.

Lemma split_app_lines (sep : ascii) (a b : string) :
  JS.split sep (a ++ String sep b) = (JS.split sep a ++ JS.split sep b)%list.
Proof.
  induction a as [|c r IH]; simpl.
  - now rewrite Ascii.eqb_refl.
  - destruct (Ascii.eqb c sep); rewrite IH; [reflexivity|].
    destruct (JS.split sep r) eqn:E; [|reflexivity].
    now apply split_not_nil in E.
Qed.

Lemma kept_lines_app (a b : string) :
  kept_lines (a ++ JS.nl ++ b) = (kept_lines a ++ kept_lines b)%list.
Proof.
  unfold kept_lines. change (a ++ JS.nl ++ b) with (a ++ String JS.LF b).
  now rewrite split_app_lines, map_app, filter_app.
Qed.

Lemma join_app (sep : string) (xs ys : list string) :
  xs <> [] -> ys <> [] ->
  JS.join sep (xs ++ ys) = JS.join sep xs ++ sep ++ JS.join sep ys.
Proof.
  intros Hx Hy. induction xs as [|x r IH]; [congruence|].
  destruct r as [|x' r].
  - destruct ys; [congruence | reflexivity].
  - change ((x :: x' :: r) ++ ys)%list with (x :: ((x' :: r) ++ ys))%list.
    change ((x' :: r) ++ ys)%list with (x' :: (r ++ ys))%list.
    rewrite join_cons2.
    change (x' :: (r ++ ys))%list with ((x' :: r) ++ ys)%list.
    rewrite IH by discriminate. rewrite join_cons2.
    now rewrite !append_assoc.
Qed.

(** X15.  Flattening works line by line: the flattening of two texts
    put on separate lines is the flattening of the first, a newline and
    the flattening of the second, without the newline when either
    flattening is empty. *)
Theorem flatCode_of_two_texts (a b : string) :
  Generator.flatCode (a ++ JS.nl ++ b) =
  match Generator.flatCode a, Generator.flatCode b with
  | EmptyString, fb => fb
  | fa, EmptyString => fa
  | fa, fb => fa ++ JS.nl ++ fb
  end.
Proof.
  rewrite !flatCode_kept_lines, kept_lines_app.
  pose proof (kept_lines_nonempty a) as Na.
  pose proof (kept_lines_nonempty b) as Nb.
  destruct (kept_lines a) as [|x xs].
  - reflexivity.
  - pose proof (join_nonempty JS.nl x xs (Na x (or_introl eq_refl))) as Jx.
    destruct (kept_lines b) as [|y ys].
    + rewrite app_nil_r.
      destruct (JS.join JS.nl (x :: xs)); [discriminate Jx | reflexivity].
    + pose proof (join_nonempty JS.nl y ys (Nb y (or_introl eq_refl))) as Jy.
      rewrite join_app by discriminate.
      destruct (JS.join JS.nl (x :: xs)); [discriminate Jx|].
      destruct (JS.join JS.nl (y :: ys)); [discriminate Jy|].
      reflexivity.
Qed.

(** *** White space and visible characters *)

Lemma trimStart_empty_iff (l : string) :
  JS.trimStart l = EmptyString <-> all_whitespace l = true.
Proof.
  induction l as [|c r IH]; simpl; [tauto|].
  destruct (JS.is_whitespace c); simpl; [exact IH|]. split; discriminate.
Qed.

Lemma trim_empty_iff (l : string) :
  JS.trim l = EmptyString <-> all_whitespace l = true.
Proof.
  rewrite <- trimStart_empty_iff. unfold JS.trim.
  pose proof (trimStart_clean l) as C.
  destruct (JS.trimStart l) as [|c r]; [simpl; tauto|].
  simpl in C. rewrite (trimEnd_cons_clean c r C). split; discriminate.
Qed.

Lemma all_whitespace_lines (s : string) :
  all_whitespace s = true <->
  Forall (fun l => all_whitespace l = true) (JS.split JS.LF s).
Proof.
  induction s as [|c r IH]; simpl.
  - split; [intros _; repeat constructor | reflexivity].
  - destruct (Ascii.eqb_spec c JS.LF) as [->|N].
    + change (JS.is_whitespace JS.LF) with true. simpl. rewrite IH. split.
      * intros H. constructor; [reflexivity | exact H].
      * intros H. inversion H; assumption.
    + destruct (JS.split JS.LF r) as [|l ls] eqn:E;
        [now apply split_not_nil in E|].
      rewrite andb_true_iff, IH. split.
      * intros [Hc H]. inversion H; subst.
        constructor; [simpl; rewrite Hc; assumption | assumption].
      * intros H. inversion H as [|? ? H1 H2]; subst. simpl in H1.
        apply andb_true_iff in H1 as [Hc Hl].
        split; [exact Hc | constructor; assumption].
Qed.

(** X16.  The flattened text is empty exactly when the text holds
    nothing but white space (spaces, tabs, line breaks and the like). *)
Theorem flatCode_empty_iff_blank (s : string) :
  Generator.flatCode s = EmptyString <-> all_whitespace s = true.
Proof.
  rewrite flatCode_empty_iff_no_lines, all_whitespace_lines.
  unfold kept_lines.
  induction (JS.split JS.LF s) as [|l ls IH]; simpl.
  - split; [constructor | reflexivity].
  - destruct (JS.trim l) as [|c t] eqn:T; simpl.
    + apply trim_empty_iff in T. rewrite IH. split.
      * intros H. constructor; assumption.
      * intros H. inversion H; assumption.
    + split; [discriminate|]. intros H. inversion H as [|? ? H1 _]; subst.
      apply trim_empty_iff in H1. congruence.
Qed.

Lemma visible_app (a b : string) : visible (a ++ b) = visible a ++ visible b.
Proof.
  induction a as [|c r IH]; simpl; [reflexivity|].
  destruct (JS.is_whitespace c); simpl; now rewrite IH.
Qed.

Lemma visible_blank (ws : string) :
  all_whitespace ws = true -> visible ws = EmptyString.
Proof.
  induction ws as [|c r IH]; simpl; [reflexivity|].
  intros H. apply andb_true_iff in H as [Hc Hr]. rewrite Hc. apply IH, Hr.
Qed.

Lemma trimEnd_split (s : string) :
  exists ws, all_whitespace ws = true /\ s = JS.trimEnd s ++ ws.
Proof.
  induction s as [|c r [ws [W E]]]; simpl.
  - exists EmptyString. split; reflexivity.
  - destruct (JS.trimEnd r) as [|d r'] eqn:T.
    + destruct (JS.is_whitespace c) eqn:C.
      * exists (String c ws). simpl in *. rewrite C, W. split; [reflexivity|].
        now f_equal.
      * exists ws. simpl in *. split; [exact W | now f_equal].
    + exists ws. simpl in *. split; [exact W | now f_equal].
Qed.

Lemma visible_trim (l : string) : visible (JS.trim l) = visible l.
Proof.
  unfold JS.trim.
  destruct (trimStart_split l) as [lead [Wl El]].
  destruct (trimEnd_split (JS.trimStart l)) as [trail [Wt Et]].
  rewrite El at 2. rewrite Et at 2.
  rewrite !visible_app, (visible_blank lead Wl), (visible_blank trail Wt).
  simpl. now rewrite append_nil_r.
Qed.

Lemma visible_join (ls : list string) :
  visible (JS.join JS.nl ls) = visible_of_lines ls.
Proof.
  induction ls as [|x r IH]; [reflexivity|].
  destruct r as [|y r].
  - simpl. now rewrite append_nil_r.
  - rewrite join_cons2, !visible_app, IH. reflexivity.
Qed.

Lemma visible_split (s : string) :
  visible_of_lines (JS.split JS.LF s) = visible s.
Proof.
  induction s as [|c r IH]; simpl; [reflexivity|].
  destruct (Ascii.eqb_spec c JS.LF) as [->|N].
  - simpl. exact IH.
  - destruct (JS.split JS.LF r) as [|l ls] eqn:E;
      [now apply split_not_nil in E|].
    simpl in *. rewrite <- IH.
    destruct (JS.is_whitespace c); reflexivity.
Qed.

(** X17.  Flattening touches white space only: the characters that are
    not white space are the same, in the same order, before and after. *)
Theorem flatCode_keeps_visible_characters (s : string) :
  visible (Generator.flatCode s) = visible s.
Proof.
  rewrite flatCode_kept_lines, visible_join, <- visible_split.
  unfold kept_lines.
  induction (JS.split JS.LF s) as [|l ls IH]; [reflexivity|].
  simpl. destruct (JS.trim l) as [|c t] eqn:T; simpl.
  - rewrite IH, <- (visible_trim l), T. reflexivity.
  - rewrite IH, <- (visible_trim l), T. reflexivity.
Qed.

(** *** Length *)

Lemma length_append (a b : string) :
  String.length (a ++ b) = (String.length a + String.length b)%nat.
Proof. induction a as [|c r IH]; simpl; [reflexivity | now rewrite IH]. Qed.

Lemma length_trim (l : string) : (String.length (JS.trim l) <= String.length l)%nat.
Proof.
  destruct (contains_trim_self l) as [pre [post E]].
  rewrite E at 2. rewrite !length_append. lia.
Qed.

(** One more than the length of a text made of these lines. *)
Lemma length_join (ls : list string) :
  ls <> [] ->
  S (String.length (JS.join JS.nl ls))
  = fold_right (fun l n => S (String.length l + n)) 0%nat ls.
Proof.
  induction ls as [|x r IH]; [congruence|]. intros _.
  destruct r as [|y r].
  - simpl. lia.
  - assert (IH' := IH ltac:(discriminate)).
    rewrite join_cons2, !length_append.
    cbn [fold_right] in *. change (String.length JS.nl) with 1%nat. lia.
Qed.

Lemma join_split (sep : ascii) (s : string) :
  JS.join (String sep EmptyString) (JS.split sep s) = s.
Proof.
  induction s as [|c r IH]; [reflexivity|]. cbn [JS.split].
  destruct (Ascii.eqb_spec c sep) as [->|N].
  - destruct (JS.split sep r) as [|l ls] eqn:E; [now apply split_not_nil in E|].
    rewrite (join_cons2 _ EmptyString l ls), IH. reflexivity.
  - destruct (JS.split sep r) as [|l ls] eqn:E; [now apply split_not_nil in E|].
    destruct ls as [|l' ls].
    + cbn in IH |- *. now f_equal.
    + rewrite join_cons2 in IH |- *. cbn [append]. now f_equal.
Qed.

(** X18.  Flattening never makes a text longer. *)
Theorem flatCode_never_longer (s : string) :
  (String.length (Generator.flatCode s) <= String.length s)%nat.
Proof.
  rewrite flatCode_kept_lines.
  destruct (kept_lines s) as [|x r] eqn:K; [simpl; lia|].
  assert (L : (fold_right (fun l n => S (String.length l + n)) 0%nat (kept_lines s)
               <= fold_right (fun l n => S (String.length l + n)) 0%nat
                    (JS.split JS.LF s))%nat).
  { unfold kept_lines. clear K.
    induction (JS.split JS.LF s) as [|l ls IH]; [simpl; lia|].
    cbn [map filter fold_right]. pose proof (length_trim l).
    destruct (JS.nonempty (JS.trim l)); cbn [fold_right]; lia. }
  rewrite K in L. rewrite <- length_join in L by discriminate.
  rewrite <- length_join in L by apply split_not_nil.
  change JS.nl with (String JS.LF EmptyString) in L at 2.
  rewrite join_split in L. lia.
Qed.

(** X19.  Whatever the prelude and the generated code are, the first
    line of the output is the notice that the file is generated. *)
Theorem output_starts_with_the_notice (preludeCode generatedCode : string) :
  exists more,
    JS.split JS.LF
      (Generator.flatCode
         (Generator.generationNotice ++ preludeCode ++ generatedCode))
    = "// This file is generated by utils/generate_action_codes.ts. Do not edit it manually."
        :: more.
Proof.
  pose (notice := "// This file is generated by utils/generate_action_codes.ts. Do not edit it manually.").
  assert (E : Generator.generationNotice ++ preludeCode ++ generatedCode
              = notice ++ JS.nl ++ (JS.nl ++ preludeCode ++ generatedCode)).
  { unfold Generator.generationNotice. rewrite !append_assoc. reflexivity. }
  rewrite E, flatCode_kept_lines, kept_lines_app.
  change (kept_lines notice) with [notice].
  exists (kept_lines (JS.nl ++ preludeCode ++ generatedCode)).
  change JS.nl with (String JS.LF EmptyString) at 1.
  apply split_join; [discriminate|].
  intros l [<-|H]; [reflexivity|].
  apply filter_In in H as [H _]. apply in_map_iff in H as [x [<- Hx]].
  apply has_char_trim, (split_no_sep _ _ _ Hx).
Qed.

(** ** Identifiers that collide, identifiers that cannot *)

Lemma slashes_to_underscores_injective (x y : string) :
  has_char "_" x = false -> has_char "_" y = false ->
  slashes_to_underscores x = slashes_to_underscores y -> x = y.
Proof.
  revert y. induction x as [|c r IH]; intros [|d s]; simpl; try discriminate;
    [reflexivity|].
  intros Hx Hy E.
  apply orb_false_iff in Hx as [Hc Hr]. apply orb_false_iff in Hy as [Hd Hs].
  injection E as Ec Er. f_equal; [|apply IH; assumption].
  destruct (Ascii.eqb_spec c "/") as [->|Nc], (Ascii.eqb_spec d "/") as [->|Nd].
  - reflexivity.
  - subst d. discriminate Hd.
  - subst c. discriminate Hc.
  - exact Ec.
Qed.

Lemma canonicalized_unrooted (x : string) :
  starts_with_char "/" x = false -> has_char "_" x = false ->
  canonicalizedActionName x = slashes_to_underscores x.
Proof.
  intros R U. unfold canonicalizedActionName.
  rewrite replaceAll_slash_spec, replace_at_start_underscore_spec.
  destruct x as [|c r]; [reflexivity|]. simpl in *.
  apply orb_false_iff in U as [Uc _]. rewrite R.
  destruct c as [[] [] [] [] [] [] [] []]; try reflexivity; discriminate Uc.
Qed.

(** X20.  Which names share an identifier.  A leading slash and a leading
    underscore are both dropped, so "/x" and "_x" always collide, and
    "/x" collides with "x" whenever x starts with neither; the handle
    fields of such actions get the same name.  Among names without any
    underscore that agree on being slash-rooted or not, different names
    always get different identifiers. *)
Theorem canonicalize_collisions_and_injectivity :
  (forall x, canonicalizedActionName (String "/" x)
             = canonicalizedActionName (String "_" x)) /\
  (forall x, starts_with_char "/" x = false -> starts_with_char "_" x = false ->
             canonicalizedActionName (String "/" x) = canonicalizedActionName x) /\
  (forall a b x,
      starts_with_char "/" x = false -> starts_with_char "_" x = false ->
      Action.name a = String "/" x -> Action.name b = x ->
      Emitted.action_field a = Emitted.action_field b) /\
  (forall x y,
      has_char "_" x = false -> has_char "_" y = false ->
      starts_with_char "/" x = starts_with_char "/" y ->
      canonicalizedActionName x = canonicalizedActionName y -> x = y).
Proof.
  assert (C : forall x, starts_with_char "/" x = false ->
                        starts_with_char "_" x = false ->
                        canonicalizedActionName (String "/" x)
                        = canonicalizedActionName x).
  { intros x S U. unfold canonicalizedActionName.
    change (JS.replaceAll JS.SLASH "_" (String "/" x))
      with (String "_" (JS.replaceAll JS.SLASH "_" x)).
    change (JS.replace_at_start JS.UNDERSCORE EmptyString
              (String "_" (JS.replaceAll JS.SLASH "_" x)))
      with (JS.replaceAll JS.SLASH "_" x).
    destruct x as [|c r]; [reflexivity|].
    cbn [starts_with_char] in S, U. cbn [JS.replaceAll].
    change JS.SLASH with "/"%char. change JS.UNDERSCORE with "_"%char.
    rewrite S. cbn [JS.replace_at_start]. now rewrite U. }
  split; [intros x; reflexivity|]. split; [exact C|]. split.
  - intros a b x S U Ea Eb.
    unfold Emitted.action_field, Emitted.action_handle.
    rewrite Ea, Eb, (C x S U). reflexivity.
  - intros x y Ux Uy R E.
    destruct (starts_with_char "/" x) eqn:Sx; symmetry in R.
    + destruct x as [|c x]; [discriminate Sx|].
      destruct y as [|d y]; [discriminate R|]. simpl in Sx, R.
      apply Ascii.eqb_eq in Sx, R. subst c d. f_equal.
      simpl in Ux, Uy.
      apply (slashes_to_underscores_injective x y Ux Uy).
      unfold canonicalizedActionName in E.
      rewrite !replaceAll_slash_spec in E. exact E.
    + rewrite (canonicalized_unrooted x Sx Ux),
        (canonicalized_unrooted y R Uy) in E.
      apply (slashes_to_underscores_injective x y Ux Uy E).
Qed.

Lemma canonicalize_collisions_and_injectivity_witness :
  canonicalizedActionName "/foo" = canonicalizedActionName "foo".
Proof.
  apply (proj1 (proj2 canonicalize_collisions_and_injectivity) "foo");
    reflexivity.
Defined.

(** X21.  [inputActionFunction] throws for the type "vibration" and for
    no other: its error is then "Invalid action type: vibration".  For
    each of the six other types it returns the text of an accessor
    named get_<canonicalized name>. *)
Theorem inputActionFunction_throws_only_for_vibration
        (actionName : string) (actionType : ActionType.t) :
  (forall e, Generator.inputActionFunction actionName actionType = inl e <->
             actionType = ActionType.vibration /\
             e = Error "Invalid action type: vibration") /\
  (actionType <> ActionType.vibration ->
   exists text,
     Generator.inputActionFunction actionName actionType = inr text /\
     contains text ("pub fn get_" ++ canonicalizedActionName actionName ++ "(")).
Proof.
  pose (a := {| Action.name := actionName; Action.requirement := None;
                Action.type := actionType; Action.skeleton := None |}).
  split.
  - intros e. split.
    + destruct actionType; try discriminate.
      intros H. injection H as <-. split; reflexivity.
    + intros [-> ->]. reflexivity.
  - intros N.
    assert (I : Generator.isInputAction (Action.type a) = true)
      by (simpl; destruct actionType; try reflexivity; congruence).
    exists (Generator.accessor a). split.
    + apply (inputActionFunction_of_input a I).
    + apply (accessor_head_occurs a I).
Qed.

Lemma inputActionFunction_throws_only_for_vibration_witness :
  exists text,
    Generator.inputActionFunction "/actions/main/in/Pose" ActionType.pose = inr text /\
    contains text
      ("pub fn get_" ++ canonicalizedActionName "/actions/main/in/Pose" ++ "(").
Proof.
  apply (proj2 (inputActionFunction_throws_only_for_vibration
                  "/actions/main/in/Pose" ActionType.pose)).
  discriminate.
Defined.

(** ** The manifest schema is all or nothing *)

Lemma required_array_iff {A} (key : string) (item : Zod.schema A)
      (props : list (string * json)) (xs : list A) :
  Zod.required key (Zod.array item) props = Some xs <->
  exists items, Zod.get key props = Some (JArray items) /\
                Forall2 (fun j x => item j = Some x) items xs.
Proof.
  unfold Zod.required, Zod.array.
  destruct (Zod.get key props) as [[| | | |items|]|].
  1-4, 6-7: split; [discriminate | intros [items' [H _]]; discriminate H].
  rewrite mapM_Forall2. split.
  - intros H. exists items. split; [reflexivity | exact H].
  - intros [items' [E H]]. injection E as <-. exact H.
Qed.

(** X22.  A manifest object is accepted exactly when its four lists are
    all there as arrays and every single element passes its schema; the
    manifest read then has one default binding, action, action set and
    localization entry per element, in the order of the document.  One
    element that does not pass, or one list that is missing, and the
    whole manifest is refused. *)
Theorem ActionManifestSchema_all_or_nothing
        (props : list (string * json)) (m : ActionManifest.t) :
  (ActionManifestSchema (JObject props) = Some m <->
   exists bindings actions sets localization,
     Zod.get "default_bindings" props = Some (JArray bindings) /\
     Zod.get "actions" props = Some (JArray actions) /\
     Zod.get "action_sets" props = Some (JArray sets) /\
     Zod.get "localization" props = Some (JArray localization) /\
     Forall2 (fun j x => DefaultBindingSchema j = Some x)
       bindings (ActionManifest.default_bindings m) /\
     Forall2 (fun j x => ActionSchema j = Some x)
       actions (ActionManifest.actions m) /\
     Forall2 (fun j x => ActionSetSchema j = Some x)
       sets (ActionManifest.action_sets m) /\
     Forall2 (fun j x => LocalizationSchema j = Some x)
       localization (ActionManifest.localization m)) /\
  (forall actions bad,
      Zod.get "actions" props = Some (JArray actions) ->
      In bad actions -> ActionSchema bad = None ->
      ActionManifestSchema (JObject props) = None) /\
  (forall key,
      In key ["default_bindings"; "actions"; "action_sets"; "localization"] ->
      Zod.get key props = None ->
      ActionManifestSchema (JObject props) = None).
Proof.
  split; [|split].
  - unfold ActionManifestSchema, Zod.object. destruct m as [d a s l].
    cbn [ActionManifest.default_bindings ActionManifest.actions
         ActionManifest.action_sets ActionManifest.localization].
    pose proof (required_array_iff "default_bindings" DefaultBindingSchema props) as Rd.
    pose proof (required_array_iff "actions" ActionSchema props) as Ra.
    pose proof (required_array_iff "action_sets" ActionSetSchema props) as Rs.
    pose proof (required_array_iff "localization" LocalizationSchema props) as Rl.
    destruct (Zod.required "default_bindings" _ props) as [d'|].
    2: { split; [discriminate|]. intros [jd [ja [js [jl [G [_ [_ [_ [F _]]]]]]]]].
         assert (X : None = Some d) by (apply Rd; exists jd; auto). discriminate X. }
    destruct (Zod.required "actions" _ props) as [a'|].
    2: { split; [discriminate|]. intros [jd [ja [js [jl [_ [G [_ [_ [_ [F _]]]]]]]]]].
         assert (X : None = Some a) by (apply Ra; exists ja; auto). discriminate X. }
    destruct (Zod.required "action_sets" _ props) as [s'|].
    2: { split; [discriminate|].
         intros [jd [ja [js [jl [_ [_ [G [_ [_ [_ [F _]]]]]]]]]]].
         assert (X : None = Some s) by (apply Rs; exists js; auto). discriminate X. }
    destruct (Zod.required "localization" _ props) as [l'|].
    2: { split; [discriminate|].
         intros [jd [ja [js [jl [_ [_ [_ [G [_ [_ [_ F]]]]]]]]]]].
         assert (X : None = Some l) by (apply Rl; exists jl; auto). discriminate X. }
    split.
    + intros H. injection H as <- <- <- <-.
      destruct (proj1 (Rd d') eq_refl) as [jd [Gd Fd]].
      destruct (proj1 (Ra a') eq_refl) as [ja [Ga Fa]].
      destruct (proj1 (Rs s') eq_refl) as [js [Gs Fs]].
      destruct (proj1 (Rl l') eq_refl) as [jl [Gl Fl]].
      exists jd, ja, js, jl. repeat split; assumption.
    + intros [jd [ja [js [jl [Gd [Ga [Gs [Gl [Fd [Fa [Fs Fl]]]]]]]]]]].
      assert (Xd : Some d' = Some d) by (apply Rd; exists jd; auto).
      assert (Xa : Some a' = Some a) by (apply Ra; exists ja; auto).
      assert (Xs : Some s' = Some s) by (apply Rs; exists js; auto).
      assert (Xl : Some l' = Some l) by (apply Rl; exists jl; auto).
      congruence.
  - intros actions bad G I B. unfold ActionManifestSchema, Zod.object.
    destruct (Zod.required "default_bindings" _ props); [|reflexivity].
    unfold Zod.required at 1. rewrite G. unfold Zod.array.
    now rewrite (mapM_fails _ _ _ I B).
  - intros key I G. unfold ActionManifestSchema, Zod.object, Zod.required.
    destruct I as [<-|[<-|[<-|[<-|[]]]]]; rewrite ?G;
      repeat match goal with
             | |- context [match ?x with Some _ => _ | None => None end] =>
                 destruct x; try reflexivity
             end; reflexivity.
Qed.

Lemma ActionManifestSchema_all_or_nothing_witness :
  ActionManifestSchema Sample.actions_json = Some Sample.manifest.
Proof.
  apply (proj1 (ActionManifestSchema_all_or_nothing _ Sample.manifest)).
  do 4 eexists. repeat split; try reflexivity.
  all: repeat constructor.
Defined.

(** ** What the generator reads of a manifest *)

Lemma map_through {A B C} (g : A -> B) (f : A -> C) (l1 l2 : list A) :
  (forall a b, g a = g b -> f a = f b) ->
  map g l1 = map g l2 -> map f l1 = map f l2.
Proof.
  intros Hf. revert l2.
  induction l1 as [|a l1 IH]; intros [|b l2] E; try discriminate E.
  - reflexivity.
  - cbn [map] in *. injection E as E1 E2.
    now rewrite (Hf a b E1), (IH l2 E2).
Qed.

Lemma filter_through {A B C} (g : A -> B) (p : A -> bool) (f : A -> C)
      (l1 l2 : list A) :
  (forall a b, g a = g b -> p a = p b /\ f a = f b) ->
  map g l1 = map g l2 -> map f (filter p l1) = map f (filter p l2).
Proof.
  intros Hf. revert l2.
  induction l1 as [|a l1 IH]; intros [|b l2] E; try discriminate E.
  - reflexivity.
  - cbn [map filter] in *. injection E as E1 E2.
    destruct (Hf a b E1) as [Hp Hv]. rewrite Hp.
    destruct (p b); cbn [map]; [rewrite Hv|]; now rewrite (IH l2 E2).
Qed.

Lemma map_throwing_map {A B} (f : A -> exn + B) (xs : list A) :
  Generator.map_throwing f xs = Generator.map_throwing (fun r => r) (map f xs).
Proof.
  induction xs as [|x xs IH]; [reflexivity|].
  cbn [Generator.map_throwing map]. now rewrite IH.
Qed.

(** X23.  The generated block is a function of the (name, type) pairs
    of the actions and of the names of the action sets, in their order:
    two manifests that agree on these give the same block whatever
    their default bindings, localization, requirements, skeletons and
    usages are. *)
Theorem code_reads_names_and_types_only (m1 m2 : ActionManifest.t) :
  map (fun a => (Action.name a, Action.type a)) (ActionManifest.actions m1) =
  map (fun a => (Action.name a, Action.type a)) (ActionManifest.actions m2) ->
  map ActionSet.name (ActionManifest.action_sets m1) =
  map ActionSet.name (ActionManifest.action_sets m2) ->
  Generator.code m1 = Generator.code m2.
Proof.
  intros Ha Hs.
  assert (A : forall C (f : Action.t -> C),
             (forall a b, Action.name a = Action.name b -> f a = f b) ->
             map f (ActionManifest.actions m1) = map f (ActionManifest.actions m2)).
  { intros C f Hf.
    apply (map_through (fun a => (Action.name a, Action.type a))); [|exact Ha].
    intros a b E. injection E as En _. now apply Hf. }
  assert (S : forall C (f : ActionSet.t -> C),
             (forall a b, ActionSet.name a = ActionSet.name b -> f a = f b) ->
             map f (ActionManifest.action_sets m1) =
             map f (ActionManifest.action_sets m2)).
  { intros C f Hf. now apply (map_through ActionSet.name). }
  assert (I : Generator.inputActionFunctions m1 = Generator.inputActionFunctions m2).
  { unfold Generator.inputActionFunctions.
    rewrite (map_throwing_map _ (filter _ (ActionManifest.actions m1))).
    rewrite (map_throwing_map _ (filter _ (ActionManifest.actions m2))).
    rewrite (filter_through (fun a => (Action.name a, Action.type a)) _ _
               (ActionManifest.actions m1) (ActionManifest.actions m2));
      [reflexivity | | exact Ha].
    intros a b E. injection E as En Et. now rewrite En, Et. }
  assert (F : Generator.fieldGenerationFunction m1 =
              Generator.fieldGenerationFunction m2).
  { unfold Generator.fieldGenerationFunction.
    repeat match goal with
           | |- context [map ?f (ActionManifest.actions m1)] =>
               rewrite (A _ f) by (intros a b E; now rewrite E)
           | |- context [map ?f (ActionManifest.action_sets m1)] =>
               rewrite (S _ f) by (intros a b E; now rewrite E)
           end.
    reflexivity. }
  assert (G : Generator.generatedFields m1 = Generator.generatedFields m2).
  { unfold Generator.generatedFields.
    repeat match goal with
           | |- context [map ?f (ActionManifest.actions m1)] =>
               rewrite (A _ f) by (intros a b E; now rewrite E)
           | |- context [map ?f (ActionManifest.action_sets m1)] =>
               rewrite (S _ f) by (intros a b E; now rewrite E)
           end.
    reflexivity. }
  assert (V : Generator.activationFunctions m1 = Generator.activationFunctions m2).
  { unfold Generator.activationFunctions.
    rewrite (S _ _) by (intros a b E; now rewrite E). reflexivity. }
  unfold Generator.code, Generator.initFunction. now rewrite I, F, G, V.
Qed.

Lemma code_reads_names_and_types_only_witness :
  Generator.code Sample.manifest = Generator.code Sample.bare.
Proof.
  apply (code_reads_names_and_types_only Sample.manifest Sample.bare);
    reflexivity.
Defined.

(** ** Which actions a localization entry is told to miss *)

Lemma NoDup_filter {A} (p : A -> bool) (xs : list A) :
  NoDup xs -> NoDup (filter p xs).
Proof.
  induction 1 as [|x xs Hx Hn IH]; cbn [filter]; [constructor|].
  destruct (p x); [|exact IH].
  constructor; [|exact IH]. rewrite filter_In. tauto.
Qed.

Lemma NoDup_Set_of (xs : list string) : NoDup (Validator.Set_of xs).
Proof.
  induction xs as [|x r IH]; cbn [Validator.Set_of]; [constructor|].
  constructor; [|now apply NoDup_filter].
  rewrite filter_In, String.eqb_refl. intros [_ H]. discriminate H.
Qed.

(** X24.  The list printed after "Localization is missing for actions:"
    names every uncovered action exactly once, also when the manifest
    declares it several times, and it is found from the keys of the
    entry alone: the localized strings, the order of the keys and
    repeated keys make no difference, and an entry with more keys never
    misses more. *)
Theorem missing_actions_listed_once (m : ActionManifest.t)
        (entry other : Localization) :
  NoDup (Validator.missing_for m entry) /\
  ((forall k, In k (localized_keys entry) -> In k (localized_keys other)) ->
   (forall name, In name (Validator.missing_for m other) ->
                 In name (Validator.missing_for m entry)) /\
   (Validator.deficient m entry = false -> Validator.deficient m other = false)) /\
  ((forall k, In k (localized_keys entry) <-> In k (localized_keys other)) ->
   Validator.missing_for m entry = Validator.missing_for m other).
Proof.
  split; [|split].
  - unfold Validator.missing_for. rewrite delete_localized_spec.
    apply NoDup_filter, NoDup_Set_of.
  - intros Sub. split.
    + intros name. rewrite !missing_for_In. intros [Hn Hk]. split; [exact Hn|].
      intros Hin. apply Hk. now apply Sub.
    + rewrite !deficient_iff. intros C name Hn. apply Sub. now apply C.
  - intros Same. unfold Validator.missing_for. rewrite !delete_localized_spec.
    apply filter_ext. intros name. f_equal.
    destruct (existsb (String.eqb name) (localized_keys entry)) eqn:E1;
      destruct (existsb (String.eqb name) (localized_keys other)) eqn:E2;
      try reflexivity.
    + apply existsb_exists in E1. destruct E1 as [k [Hk E]].
      apply String.eqb_eq in E. subst k. apply Same in Hk.
      assert (X : existsb (String.eqb name) (localized_keys other) = true)
        by (apply existsb_exists; exists name; split;
            [exact Hk | apply String.eqb_refl]).
      congruence.
    + apply existsb_exists in E2. destruct E2 as [k [Hk E]].
      apply String.eqb_eq in E. subst k. apply Same in Hk.
      assert (X : existsb (String.eqb name) (localized_keys entry) = true)
        by (apply existsb_exists; exists name; split;
            [exact Hk | apply String.eqb_refl]).
      congruence.
Qed.

(** ** The cookie jar of the VRChat API client *)

Section CookieJar.
Context {V : Type}.
Implicit Types (c : VRChat.Cookie V) (jar cookies : list (VRChat.Cookie V)).

Lemma name_Object_assign (target source : VRChat.Cookie V) :
  VRChat.name (VRChat.Object_assign target source) = VRChat.name source.
Proof. reflexivity. Qed.

Lemma receive_names c jar :
  map VRChat.name (VRChat.receive c jar) =
  (map VRChat.name jar ++
   if existsb (String.eqb (VRChat.name c)) (map VRChat.name jar)
   then [] else [VRChat.name c])%list.
Proof.
  induction jar as [|a jar IH]; [reflexivity|].
  cbn [VRChat.receive map existsb app].
  rewrite (String.eqb_sym (VRChat.name c) (VRChat.name a)).
  destruct (String.eqb_spec (VRChat.name a) (VRChat.name c)) as [E|N].
  - cbn [orb map]. rewrite name_Object_assign, app_nil_r. now rewrite E.
  - cbn [orb map]. now rewrite IH.
Qed.

Lemma existsb_eqb_In (n : string) (ns : list string) :
  existsb (String.eqb n) ns = true <-> In n ns.
Proof.
  rewrite existsb_exists. split.
  - intros [k [Hk E]]. apply String.eqb_eq in E. now subst k.
  - intros H. exists n. split; [exact H | apply String.eqb_refl].
Qed.

Lemma store_cookies_cons c cookies jar :
  VRChat.store_cookies (c :: cookies) jar =
  VRChat.store_cookies cookies (VRChat.receive c jar).
Proof. reflexivity. Qed.

Lemma store_cookies_names cookies jar :
  exists added,
    map VRChat.name (VRChat.store_cookies cookies jar) =
    (map VRChat.name jar ++ added)%list /\
    NoDup added /\
    forall n, In n added <->
              In n (map VRChat.name cookies) /\ ~ In n (map VRChat.name jar).
Proof.
  revert jar. induction cookies as [|c cookies IH]; intros jar.
  - exists []. cbn. rewrite app_nil_r. repeat split; try constructor; tauto.
  - rewrite store_cookies_cons.
    destruct (IH (VRChat.receive c jar)) as [added [E [D I]]].
    rewrite receive_names in E, I.
    destruct (existsb (String.eqb (VRChat.name c)) (map VRChat.name jar)) eqn:X.
    + rewrite app_nil_r in E, I. apply existsb_eqb_In in X.
      exists added. split; [exact E|]. split; [exact D|].
      intros n. rewrite I. cbn [map In]. split.
      * tauto.
      * intros [[<-|H] N]; [contradiction | tauto].
    + assert (X' : ~ In (VRChat.name c) (map VRChat.name jar)).
      { intros H. apply existsb_eqb_In in H. congruence. }
      exists (VRChat.name c :: added). split; [|split].
      * rewrite E, <- app_assoc. reflexivity.
      * constructor; [|exact D].
        rewrite I. intros [_ H]. apply H, in_or_app. right. now left.
      * intros n. cbn [map In]. rewrite I. split.
        -- intros [<-|[H N]]; [tauto|]. split; [tauto|].
           intros H'. apply N, in_or_app. now left.
        -- intros [[<-|H] N]; [now left|].
           destruct (string_dec (VRChat.name c) n) as [->|Hn]; [now left|].
           right. split; [exact H|]. intros H'.
           apply in_app_or in H'. destruct H' as [H'|[H'|[]]]; tauto.
Qed.

Lemma NoDup_append {A} (xs ys : list A) :
  NoDup xs -> NoDup ys -> (forall x, In x ys -> ~ In x xs) ->
  NoDup (xs ++ ys).
Proof.
  intros Dx Dy H. induction Dx as [|x xs Hx Dx IH]; [exact Dy|].
  cbn [app]. constructor.
  - intros Hin. apply in_app_or in Hin. destruct Hin as [Hin|Hin]; [contradiction|].
    apply (H x Hin). now left.
  - apply IH. intros y Hy Hin. apply (H y Hy). now right.
Qed.

Lemma first_arrivals_seen (seen seen' arriving : list string) :
  (forall n, existsb (String.eqb n) seen = existsb (String.eqb n) seen') ->
  VRChat.first_arrivals seen arriving = VRChat.first_arrivals seen' arriving.
Proof.
  revert seen seen'. induction arriving as [|n later IH]; intros seen seen' H;
    [reflexivity|].
  cbn [VRChat.first_arrivals]. rewrite <- H.
  destruct (existsb (String.eqb n) seen); [now apply IH|].
  f_equal. apply IH. intros k. cbn [existsb]. now rewrite H.
Qed.

Lemma store_cookies_first_arrivals cookies jar :
  map VRChat.name (VRChat.store_cookies cookies jar) =
  (map VRChat.name jar ++
   VRChat.first_arrivals (map VRChat.name jar) (map VRChat.name cookies))%list.
Proof.
  revert jar. induction cookies as [|c cookies IH]; intros jar.
  - cbn. now rewrite app_nil_r.
  - rewrite store_cookies_cons, IH, receive_names.
    cbn [map VRChat.first_arrivals].
    destruct (existsb (String.eqb (VRChat.name c)) (map VRChat.name jar)) eqn:X.
    + now rewrite app_nil_r.
    + rewrite <- app_assoc. cbn [app]. do 2 f_equal.
      apply first_arrivals_seen. intros k.
      rewrite existsb_app. cbn [existsb]. now rewrite orb_false_r, orb_comm.
Qed.

Lemma first_arrivals_In (seen arriving : list string) (y : string) :
  In y (VRChat.first_arrivals seen arriving) ->
  In y arriving /\ ~ In y seen.
Proof.
  revert seen. induction arriving as [|n later IH]; intros seen H; [destruct H|].
  cbn [VRChat.first_arrivals] in H.
  destruct (existsb (String.eqb n) seen) eqn:X.
  - destruct (IH _ H) as [H1 H2]. split; [now right | exact H2].
  - destruct H as [<-|H].
    + split; [now left|]. intros Hin. apply existsb_eqb_In in Hin. congruence.
    + destruct (IH _ H) as [H1 H2]. split; [now right|].
      intros Hin. apply H2. now right.
Qed.

Lemma first_arrivals_order (seen arriving before between after : list string)
      (n k : string) :
  VRChat.first_arrivals seen arriving = (before ++ n :: between ++ k :: after)%list ->
  exists early late,
    arriving = (early ++ n :: late)%list /\
    ~ In k early /\ ~ In n early /\ In k late.
Proof.
  revert seen before.
  induction arriving as [|x later IH]; intros seen before H.
  - destruct before; discriminate H.
  - cbn [VRChat.first_arrivals] in H.
    assert (Mn : forall s l, VRChat.first_arrivals s l
                             = (before ++ n :: between ++ k :: after)%list ->
                             In n (VRChat.first_arrivals s l) /\
                             In k (VRChat.first_arrivals s l)).
    { intros s l E. rewrite E. split.
      - apply in_or_app. right. now left.
      - apply in_or_app. right. right. apply in_or_app. right. now left. }
    destruct (existsb (String.eqb x) seen) eqn:X.
    + destruct (Mn _ _ H) as [In_n In_k].
      apply first_arrivals_In in In_n. apply first_arrivals_In in In_k.
      apply existsb_eqb_In in X.
      destruct (IH _ _ H) as [early [late [E [Nk [Nn Ik]]]]].
      exists (x :: early), late. rewrite E. split; [reflexivity|].
      split; [|split; [|exact Ik]].
      * intros [->|Hin]; [apply (proj2 In_k X) | exact (Nk Hin)].
      * intros [->|Hin]; [apply (proj2 In_n X) | exact (Nn Hin)].
    + destruct before as [|b before'].
      * cbn [app] in H. injection H as -> H.
        exists [], later. split; [reflexivity|]. split; [tauto|]. split; [tauto|].
        assert (Ik : In k (VRChat.first_arrivals (n :: seen) later)).
        { rewrite H. apply in_or_app. right. now left. }
        apply first_arrivals_In in Ik. tauto.
      * cbn [app] in H. injection H as -> H.
        assert (In_n : In n (VRChat.first_arrivals (b :: seen) later)).
        { rewrite H. apply in_or_app. right. now left. }
        assert (In_k : In k (VRChat.first_arrivals (b :: seen) later)).
        { rewrite H. apply in_or_app. right. right. apply in_or_app.
          right. now left. }
        apply first_arrivals_In in In_n. apply first_arrivals_In in In_k.
        destruct (IH _ _ H) as [early [late [E [Nk [Nn Ik]]]]].
        exists (b :: early), late. rewrite E. split; [reflexivity|].
        split; [|split; [|exact Ik]].
        -- intros [->|Hin]; [apply (proj2 In_k); now left | exact (Nk Hin)].
        -- intros [->|Hin]; [apply (proj2 In_n); now left | exact (Nn Hin)].
Qed.

(** X25.  Storing the cookies of a response never removes a cookie or
    changes the order of the jar: the names already there stay in place,
    followed by the names that are new, each once, in the order of their
    first arrival.  Names that were distinct stay distinct. *)
Theorem stored_cookies_keep_the_jar_in_order cookies jar :
  let added :=
    VRChat.first_arrivals (map VRChat.name jar) (map VRChat.name cookies) in
  map VRChat.name (VRChat.store_cookies cookies jar) =
  (map VRChat.name jar ++ added)%list /\
  NoDup added /\
  (forall n, In n added <->
             In n (map VRChat.name cookies) /\ ~ In n (map VRChat.name jar)) /\
  (forall before n between k after,
      added = (before ++ n :: between ++ k :: after)%list ->
      exists early late,
        map VRChat.name cookies = (early ++ n :: late)%list /\
        ~ In k early /\ ~ In n early /\ In k late) /\
  (NoDup (map VRChat.name jar) ->
   NoDup (map VRChat.name (VRChat.store_cookies cookies jar))).
Proof.
  intros added.
  destruct (store_cookies_names cookies jar) as [added' [E [D I]]].
  assert (A : added' = added).
  { rewrite store_cookies_first_arrivals in E. fold added in E.
    now apply app_inv_head in E. }
  subst added'.
  split; [exact E|]. split; [exact D|]. split; [exact I|]. split.
  - intros before n between k after H.
    apply (first_arrivals_order _ _ _ _ _ _ _ H).
  - intros Dj. rewrite E. apply NoDup_append; [exact Dj | exact D |].
    intros n Hn. apply I in Hn. tauto.
Qed.

Lemma find_cookie_receive_same c jar :
  option_map VRChat.value
    (VRChat.find_cookie (VRChat.name c) (VRChat.receive c jar)) =
  Some (VRChat.value c).
Proof.
  unfold VRChat.find_cookie.
  induction jar as [|a jar IH]; cbn [VRChat.receive find].
  - now rewrite String.eqb_refl.
  - destruct (String.eqb (VRChat.name a) (VRChat.name c)) eqn:E; cbn [find].
    + rewrite name_Object_assign, String.eqb_refl. reflexivity.
    + rewrite E. exact IH.
Qed.

Lemma find_cookie_receive_other (n : string) c jar :
  VRChat.name c <> n ->
  VRChat.find_cookie n (VRChat.receive c jar) = VRChat.find_cookie n jar.
Proof.
  intros N. unfold VRChat.find_cookie.
  induction jar as [|a jar IH]; cbn [VRChat.receive find].
  - now rewrite (proj2 (String.eqb_neq _ _) N).
  - destruct (String.eqb_spec (VRChat.name a) (VRChat.name c)) as [E|E];
      cbn [find].
    + rewrite name_Object_assign, E. now rewrite (proj2 (String.eqb_neq _ _) N).
    + now rewrite IH.
Qed.

Lemma find_cookie_app (n : string) jar cookies :
  VRChat.find_cookie n (jar ++ cookies)%list =
  match VRChat.find_cookie n jar with
  | Some c => Some c
  | None => VRChat.find_cookie n cookies
  end.
Proof.
  unfold VRChat.find_cookie. induction jar as [|a jar IH]; [reflexivity|].
  cbn [app find]. now destruct (String.eqb (VRChat.name a) n).
Qed.

(** X26.  After the cookies of a response are stored, the jar answers a
    name with the value of the last cookie of the response that has this
    name, and with the value it had before when the response has none:
    a later Set-Cookie of one response overrides an earlier one, and
    cookies of other names are not touched. *)
Theorem stored_cookie_value (n : string) cookies jar :
  option_map VRChat.value
    (VRChat.find_cookie n (VRChat.store_cookies cookies jar)) =
  match VRChat.find_cookie n (rev cookies) with
  | Some c => Some (VRChat.value c)
  | None => option_map VRChat.value (VRChat.find_cookie n jar)
  end.
Proof.
  revert jar. induction cookies as [|c cookies IH]; intros jar; [reflexivity|].
  rewrite store_cookies_cons, IH. cbn [rev]. rewrite find_cookie_app.
  destruct (VRChat.find_cookie n (rev cookies)) as [later|]; [reflexivity|].
  unfold VRChat.find_cookie at 2. cbn [find].
  destruct (String.eqb_spec (VRChat.name c) n) as [<-|N].
  - apply find_cookie_receive_same.
  - now rewrite find_cookie_receive_other.
Qed.

Lemma property_set_property (key k : string) (v : V) (props : list (string * V)) :
  VRChat.property key (VRChat.set_property k v props) =
  if String.eqb k key then Some v else VRChat.property key props.
Proof.
  unfold VRChat.property.
  induction props as [|[k' old] props IH]; cbn [VRChat.set_property find fst].
  - destruct (String.eqb k key); reflexivity.
  - destruct (String.eqb_spec k' k) as [->|N]; cbn [find fst].
    + destruct (String.eqb k key); reflexivity.
    + destruct (String.eqb_spec k' key) as [->|N'].
      * rewrite (proj2 (String.eqb_neq _ _) (not_eq_sym N)). reflexivity.
      * exact IH.
Qed.

Lemma property_app (key : string) (xs ys : list (string * V)) :
  VRChat.property key (xs ++ ys)%list =
  match VRChat.property key xs with
  | Some v => Some v
  | None => VRChat.property key ys
  end.
Proof.
  unfold VRChat.property. induction xs as [|[k v] xs IH]; [reflexivity|].
  cbn [app find fst]. now destruct (String.eqb k key).
Qed.

(** X27.  [Object.assign] on a cookie of the jar overwrites, it does not
    replace: the cookie takes the name, the value and every attribute of
    the new cookie, and keeps each attribute of its own that the new
    cookie does not carry (an expiry date of the old cookie outlives a
    new cookie sent without one). *)
Theorem assigned_cookie_keeps_old_attributes
        (target source : VRChat.Cookie V) (key : string) :
  VRChat.name (VRChat.Object_assign target source) = VRChat.name source /\
  VRChat.value (VRChat.Object_assign target source) = VRChat.value source /\
  VRChat.property key (VRChat.attributes (VRChat.Object_assign target source)) =
  match VRChat.property key (rev (VRChat.attributes source)) with
  | Some v => Some v
  | None => VRChat.property key (VRChat.attributes target)
  end.
Proof.
  split; [reflexivity|]. split; [reflexivity|].
  destruct target as [tn tv props], source as [sn sv news].
  cbn [VRChat.Object_assign VRChat.attributes].
  revert props. induction news as [|[k v] rest IH]; intros props; [reflexivity|].
  cbn [fold_left fst snd rev]. rewrite IH, property_app.
  destruct (VRChat.property key (rev rest)) as [later|]; [reflexivity|].
  rewrite property_set_property.
  destruct (String.eqb k key) eqn:K; unfold VRChat.property; cbn [find fst];
    rewrite K; reflexivity.
Qed.

(** X28.  In a jar of distinct names, receiving a cookie changes the
    Cookie header in one place: the item of that name carries the new
    value where it stood, or, when the name is new, the item is added
    at the end; every other item is sent as before. *)
Theorem cookie_header_after_receive c jar :
  NoDup (map VRChat.name jar) ->
  VRChat.cookieHeader (VRChat.receive c jar) =
  JS.join "; "
    (app
       (map (fun d => VRChat.name d ++ "=" ++
                      (if String.eqb (VRChat.name d) (VRChat.name c)
                       then VRChat.value c else VRChat.value d)) jar)
       (if existsb (String.eqb (VRChat.name c)) (map VRChat.name jar)
        then [] else [VRChat.name c ++ "=" ++ VRChat.value c])).
Proof.
  intros D. unfold VRChat.cookieHeader. f_equal.
  induction jar as [|a jar IH]; [reflexivity|].
  cbn [map] in D. inversion D as [|n ns Ha Dj]; subst.
  cbn [VRChat.receive map existsb app].
  rewrite (String.eqb_sym (VRChat.name c) (VRChat.name a)).
  destruct (String.eqb_spec (VRChat.name a) (VRChat.name c)) as [E|N].
  - cbn [orb map VRChat.Object_assign VRChat.name VRChat.value].
    rewrite app_nil_r, E. f_equal.
    apply map_ext_in. intros d Hd.
    destruct (String.eqb_spec (VRChat.name d) (VRChat.name c)) as [E'|_];
      [|reflexivity].
    exfalso. apply Ha. rewrite E, <- E'. now apply in_map.
  - cbn [orb map]. now rewrite (IH Dj).
Qed.

End CookieJar.

Lemma cookie_header_after_receive_witness :
  VRChat.cookieHeader
    (VRChat.receive
       {| VRChat.name := "auth"; VRChat.value := "new";
          VRChat.attributes := [("path", 1%Z)] |}
       [ {| VRChat.name := "auth"; VRChat.value := "old";
            VRChat.attributes := [("maxAge", 60%Z)] |};
         {| VRChat.name := "twoFactorAuth"; VRChat.value := "t";
            VRChat.attributes := [] |} ]) =
  "auth=new; twoFactorAuth=t".
Proof.
  rewrite cookie_header_after_receive.
  - reflexivity.
  - cbn [map VRChat.name]. repeat constructor; cbn [In]; intuition discriminate.
Defined.

(* ================================================================== *)
(** * Part IV: the generated unit, line by line                         *)
(* ================================================================== *)

(** ** The lines kept of a text that is put together *)

Lemma kept_lines_join (ls : list string) :
  kept_lines (JS.join JS.nl ls) = flat_map kept_lines ls.
Proof.
  induction ls as [|x r IH]; [reflexivity|].
  destruct r as [|y r].
  - cbn [flat_map]. rewrite app_nil_r. reflexivity.
  - rewrite join_cons2, kept_lines_app, IH. reflexivity.
Qed.

Lemma kept_lines_join_blank (ls : list string) :
  kept_lines (JS.join (JS.nl ++ JS.nl) ls) = flat_map kept_lines ls.
Proof.
  induction ls as [|x r IH]; [reflexivity|].
  destruct r as [|y r].
  - cbn [flat_map]. rewrite app_nil_r. reflexivity.
  - rewrite join_cons2.
    change (x ++ (JS.nl ++ JS.nl) ++ JS.join (JS.nl ++ JS.nl) (y :: r))
      with (x ++ JS.nl ++ (EmptyString ++ JS.nl ++ JS.join (JS.nl ++ JS.nl) (y :: r))).
    rewrite !kept_lines_app, IH. reflexivity.
Qed.

Lemma kept_lines_space (s : string) :
  kept_lines (String " " s) = kept_lines s.
Proof.
  unfold kept_lines. cbn [JS.split].
  change (Ascii.eqb " " JS.LF) with false. cbv iota.
  destruct (JS.split JS.LF s) as [|l ls] eqn:E.
  - exfalso. apply (split_not_nil JS.LF s E).
  - reflexivity.
Qed.

Lemma trimEnd_of_clean (l : string) : ends_clean l -> JS.trimEnd l = l.
Proof.
  intros [body [c [-> H]]].
  assert (E : JS.trimEnd (String c EmptyString) = String c EmptyString).
  { cbn [JS.trimEnd]. now rewrite H. }
  rewrite trimEnd_app_kept; rewrite E; [reflexivity | discriminate].
Qed.

Lemma kept_lines_one (l : string) :
  has_char JS.LF l = false -> starts_clean l -> ends_clean l ->
  kept_lines l = [l].
Proof.
  intros N S E. unfold kept_lines. rewrite (split_without_sep _ _ N).
  cbn [map]. unfold JS.trim.
  rewrite (trimStart_of_clean _ S), (trimEnd_of_clean _ E).
  destruct E as [body [c [-> _]]]. destruct body; reflexivity.
Qed.

Lemma ends_clean_visible (s : string) : last_is_visible s = true -> ends_clean s.
Proof.
  induction s as [|c r IH]; [discriminate|].
  destruct r as [|d r].
  - cbn [last_is_visible]. intros H. exists EmptyString, c. split; [reflexivity|].
    now destruct (JS.is_whitespace c).
  - intros H. destruct (IH H) as [body [e [E W]]].
    exists (String c body), e. split; [|exact W]. cbn [append]. now rewrite <- E.
Qed.

Lemma ends_clean_String (c : ascii) (s : string) :
  ends_clean s -> ends_clean (String c s).
Proof. intros H. apply (ends_clean_app (String c EmptyString) s H). Qed.

Lemma trimEnd_app_ws (s ws : string) :
  all_whitespace ws = true -> JS.trimEnd (s ++ ws) = JS.trimEnd s.
Proof.
  intros W. induction s as [|c r IH].
  - cbn [append JS.trimEnd].
    induction ws as [|d ws IHw]; [reflexivity|].
    cbn [all_whitespace] in W. apply andb_prop in W. destruct W as [Wd Ww].
    cbn [JS.trimEnd]. now rewrite (IHw Ww), Wd.
  - cbn [append JS.trimEnd]. now rewrite IH.
Qed.

Lemma trim_app_ws (l ws : string) :
  all_whitespace ws = true -> JS.trim (l ++ ws) = JS.trim l.
Proof.
  intros W. unfold JS.trim. induction l as [|c r IH].
  - cbn [append]. rewrite <- (append_nil_r ws) at 1.
    rewrite (trimStart_app_ws _ _ W). reflexivity.
  - cbn [append JS.trimStart]. destruct (JS.is_whitespace c); [exact IH|].
    apply (trimEnd_app_ws (String c r) ws W).
Qed.

Lemma split_app_char (t : string) (c : ascii) :
  JS.is_whitespace c = true -> c <> JS.LF ->
  Forall2 (fun l l' => exists ws, all_whitespace ws = true /\ l = l' ++ ws)
    (JS.split JS.LF (t ++ String c EmptyString)) (JS.split JS.LF t).
Proof.
  intros W N. induction t as [|d t IH].
  - cbn [append JS.split]. rewrite (proj2 (Ascii.eqb_neq _ _) N).
    constructor; [|constructor].
    exists (String c EmptyString). split; [|reflexivity].
    cbn [all_whitespace]. now rewrite W.
  - cbn [append JS.split]. destruct (Ascii.eqb d JS.LF).
    + constructor; [|exact IH]. exists EmptyString. split; reflexivity.
    + destruct (JS.split JS.LF (t ++ String c EmptyString)) as [|l ls] eqn:E1;
        [exfalso; apply (split_not_nil _ _ E1)|].
      destruct (JS.split JS.LF t) as [|l' ls'] eqn:E2;
        [exfalso; apply (split_not_nil _ _ E2)|].
      inversion IH as [|? ? ? ? [ws [Hw ->]] Hr]; subst.
      constructor; [|exact Hr]. exists ws. split; [exact Hw | reflexivity].
Qed.

(** White space at the end of a text adds no line to it. *)
Lemma kept_lines_app_char (t : string) (c : ascii) :
  JS.is_whitespace c = true ->
  kept_lines (t ++ String c EmptyString) = kept_lines t.
Proof.
  intros W. destruct (Ascii.eqb_spec c JS.LF) as [->|N].
  - change (t ++ String JS.LF EmptyString) with (t ++ JS.nl ++ EmptyString).
    rewrite kept_lines_app. apply app_nil_r.
  - unfold kept_lines. f_equal.
    induction (split_app_char t c W N) as [|l l' ls ls' [ws [Hw ->]] _ IH];
      [reflexivity|].
    cbn [map]. now rewrite (trim_app_ws _ _ Hw), IH.
Qed.

Lemma kept_lines_app_ws (t ws : string) :
  all_whitespace ws = true -> kept_lines (t ++ ws) = kept_lines t.
Proof.
  revert t. induction ws as [|c ws IH]; intros t W.
  - now rewrite append_nil_r.
  - cbn [all_whitespace] in W. apply andb_prop in W. destruct W as [Wc Ww].
    change (String c ws) with (String c EmptyString ++ ws).
    rewrite <- append_assoc, (IH _ Ww). now apply kept_lines_app_char.
Qed.

Lemma kept_lines_trimEnd (t s : string) :
  kept_lines (t ++ JS.trimEnd s) = kept_lines (t ++ s).
Proof.
  destruct (trimEnd_split s) as [ws [W E]].
  rewrite E at 2. rewrite <- append_assoc. now rewrite (kept_lines_app_ws _ _ W).
Qed.

Lemma flat_map_singleton {A B} (h : A -> list B) (g : A -> B) (xs : list A) :
  (forall x, In x xs -> h x = [g x]) -> flat_map h xs = map g xs.
Proof.
  induction xs as [|x r IH]; intros H; [reflexivity|].
  cbn [flat_map map]. rewrite (H x (or_introl eq_refl)). cbn [app].
  f_equal. apply IH. intros y Hy. apply H. now right.
Qed.

Lemma kept_lines_join_map {A} (f : A -> string) (xs : list A) :
  kept_lines (JS.join JS.nl (map f xs)) = flat_map (fun x => kept_lines (f x)) xs.
Proof.
  rewrite kept_lines_join. induction xs as [|x r IH]; [reflexivity|].
  cbn [map flat_map]. now rewrite IH.
Qed.

Lemma kept_lines_join_blank_map {A} (f : A -> string) (xs : list A) :
  kept_lines (JS.join (JS.nl ++ JS.nl) (map f xs))
  = flat_map (fun x => kept_lines (f x)) xs.
Proof.
  rewrite kept_lines_join_blank. induction xs as [|x r IH]; [reflexivity|].
  cbn [map flat_map]. now rewrite IH.
Qed.

(** ** The lines of the templates *)

Ltac no_line_break :=
  unfold JS.LF in *;
  repeat first
    [ progress cbn [has_char Ascii.eqb Bool.eqb orb andb]
    | rewrite has_char_app
    | match goal with
      | H : has_char _ _ = false |- _ => rewrite H
      end ];
  reflexivity.

Ltac ends_visibly :=
  first
    [ assumption
    | apply ends_clean_visible; reflexivity
    | apply ends_clean_String; ends_visibly
    | apply ends_clean_app; ends_visibly ].

Ltac one_line :=
  rewrite kept_lines_one;
  [ | no_line_break | cbn [starts_clean]; reflexivity | ends_visibly ].

Ltac template_lines :=
  unfold Generator.template; rewrite kept_lines_join;
  cbn [flat_map app append];
  repeat rewrite kept_lines_space;
  change (kept_lines EmptyString) with (@nil string); cbn [app].

Lemma canonicalized_one_line (name : string) :
  has_char JS.LF name = false ->
  has_char JS.LF (canonicalizedActionName name) = false /\
  has_char JS.LF (canonicalizedActionSetName name) = false.
Proof.
  intros H. split; apply (canonicalized_has_char JS.LF name eq_refl H).
Qed.

Section UnitLines.
Variable m : ActionManifest.t.
Hypothesis action_names :
  forall action, In action (ActionManifest.actions m) ->
                 has_char JS.LF (Action.name action) = false.
Hypothesis set_names :
  forall actionSet, In actionSet (ActionManifest.action_sets m) ->
                    has_char JS.LF (ActionSet.name actionSet) = false /\
                    ends_clean (ActionSet.name actionSet).

Lemma structure_lines :
  kept_lines (Generator.generatedFields m) = Unit.structure m.
Proof.
  unfold Generator.generatedFields. template_lines.
  rewrite !kept_lines_join_map.
  rewrite (flat_map_singleton _ Emitted.action_field).
  2: { intros a Ha. destruct (canonicalized_one_line _ (action_names a Ha)) as [C _].
       template_lines. one_line. reflexivity. }
  rewrite (flat_map_singleton _ Emitted.action_set_field).
  2: { intros a Ha.
       destruct (canonicalized_one_line _ (proj1 (set_names a Ha))) as [_ C].
       template_lines. one_line. reflexivity. }
  reflexivity.
Qed.

Lemma field_generation_lines :
  kept_lines (Generator.fieldGenerationFunction m) = Unit.field_generation m.
Proof.
  unfold Generator.fieldGenerationFunction. template_lines.
  rewrite !kept_lines_join_map.
  rewrite (flat_map_singleton _ Emitted.action_declaration).
  2: { intros a Ha. pose proof (action_names a Ha) as N.
       destruct (canonicalized_one_line _ N) as [C _].
       template_lines. one_line. reflexivity. }
  rewrite (flat_map_singleton _ Emitted.action_set_declaration).
  2: { intros a Ha. pose proof (proj1 (set_names a Ha)) as N.
       destruct (canonicalized_one_line _ N) as [_ C].
       template_lines. one_line. reflexivity. }
  rewrite (flat_map_singleton _ Emitted.action_field_value).
  2: { intros a Ha. destruct (canonicalized_one_line _ (action_names a Ha)) as [C _].
       template_lines. one_line. reflexivity. }
  rewrite (flat_map_singleton _ Emitted.action_set_field_value).
  2: { intros a Ha.
       destruct (canonicalized_one_line _ (proj1 (set_names a Ha))) as [_ C].
       template_lines. one_line. reflexivity. }
  reflexivity.
Qed.

Lemma accessor_lines (action : Action.t) :
  In action (ActionManifest.actions m) ->
  Generator.isInputAction (Action.type action) = true ->
  kept_lines (Generator.accessor action) = Unit.accessor action.
Proof.
  intros Ha I. destruct (canonicalized_one_line _ (action_names action Ha)) as [C _].
  unfold Generator.accessor, Unit.accessor.
  destruct (Action.type action); try discriminate I;
    cbn [Generator.inputActionFunctionByType];
    template_lines; repeat one_line; reflexivity.
Qed.

Lemma accessors_lines (accessors : string) :
  Generator.inputActionFunctions m = inr accessors ->
  kept_lines accessors = flat_map Unit.accessor (ActionManifest.actions m).
Proof.
  rewrite inputActionFunctions_total. intros H. injection H as <-.
  rewrite kept_lines_join_blank_map.
  assert (G : forall actions,
             (forall a, In a actions -> In a (ActionManifest.actions m)) ->
             flat_map (fun x => kept_lines (Generator.accessor x))
               (filter (fun action => Generator.isInputAction (Action.type action))
                  actions)
             = flat_map Unit.accessor actions).
  { induction actions as [|a r IH]; intros Sub; [reflexivity|].
    cbn [filter flat_map].
    destruct (Generator.isInputAction (Action.type a)) eqn:I.
    - cbn [flat_map]. rewrite (accessor_lines a (Sub a (or_introl eq_refl)) I).
      f_equal. apply IH. intros b Hb. apply Sub. now right.
    - assert (E : Unit.accessor a = []).
      { unfold Unit.accessor. destruct (Action.type a); try discriminate I.
        reflexivity. }
      rewrite E. cbn [app]. apply IH. intros b Hb. apply Sub. now right. }
  apply G. auto.
Qed.

Lemma activation_lines :
  kept_lines (Generator.activationFunctions m)
  = flat_map Unit.activation (ActionManifest.action_sets m).
Proof.
  unfold Generator.activationFunctions. rewrite kept_lines_join_map.
  assert (G : forall sets,
             (forall a, In a sets -> In a (ActionManifest.action_sets m)) ->
             flat_map
               (fun x => kept_lines
                  (Generator.template
                     [EmptyString;
                      "            pub fn activate_"
                        ++ canonicalizedActionSetName (ActionSet.name x)
                        ++ "(&mut self) {";
                      "                self.activate_action_set(self.generated_fields.action_set_handle_"
                        ++ canonicalizedActionSetName (ActionSet.name x) ++ ")";
                      "            }";
                      EmptyString;
                      "            pub fn deactivate_"
                        ++ canonicalizedActionSetName (ActionSet.name x)
                        ++ "(&mut self) {";
                      "                // Deactivation logic for " ++ ActionSet.name x;
                      "                self.deactivate_action_set(self.generated_fields.action_set_handle_"
                        ++ canonicalizedActionSetName (ActionSet.name x) ++ ")";
                      "            }";
                      "        "])) sets
             = flat_map Unit.activation sets).
  { induction sets as [|a r IH]; intros Sub; [reflexivity|].
    cbn [flat_map]. rewrite IH by (intros b Hb; apply Sub; now right).
    f_equal.
    destruct (set_names a (Sub a (or_introl eq_refl))) as [N E].
    destruct (canonicalized_one_line _ N) as [_ C].
    template_lines. repeat one_line. reflexivity. }
  apply G. auto.
Qed.

Lemma block_lines (before block : string) :
  Generator.code m = inr block ->
  kept_lines (before ++ block)
  = (kept_lines (before ++ "impl Input {") ++ Unit.body m)%list.
Proof.
  destruct (code_total m) as [accessors [A C]]. rewrite C.
  intros H. injection H as <-. unfold JS.trim.
  match goal with
  | |- context [JS.trimStart (Generator.template (_ :: _ :: ?rest))] =>
      change (JS.trimStart (Generator.template (_ :: _ :: rest)))
        with ("impl Input {" ++ JS.nl ++ JS.join JS.nl rest)
  end.
  rewrite kept_lines_trimEnd, <- (append_assoc before "impl Input {"),
    kept_lines_app, kept_lines_join.
  f_equal.
  cbn [flat_map app append]. repeat rewrite kept_lines_space.
  unfold Generator.initFunction.
  rewrite field_generation_lines, (accessors_lines _ A), activation_lines,
    structure_lines.
  unfold Unit.body.
  change (kept_lines EmptyString) with (@nil string).
  change (kept_lines "}") with ["}"].
  cbn [app]. now rewrite app_nil_r.
Qed.

Lemma output_lines (kept block : string) :
  Generator.code m = inr block ->
  kept_lines (Generator.generationNotice ++ kept ++ block)
  = (Unit.notice :: kept_lines (kept ++ "impl Input {") ++ Unit.body m)%list.
Proof.
  intros C.
  change (Generator.generationNotice ++ kept ++ block)
    with (Unit.notice ++ JS.nl ++ (EmptyString ++ JS.nl ++ (kept ++ block))).
  rewrite !kept_lines_app, (block_lines kept block C). reflexivity.
Qed.

End UnitLines.

(** C5.  For a manifest that is readable, JSON and inside the schema,
    and a readable prelude, the text handed to the one write of the run
    is: the notice, then the prelude up to its first marker (a
    line-comment opener, any white space, STUB_FOLLOWS; nothing is cut
    when there is none), then the generated block, the whole split into
    lines, each line trimmed, empty lines dropped, joined by newlines
    again; the run completes with that text in the output file when the
    write succeeds.  For names that hold no line break (and action set
    names that end in a visible character) the lines of the block are:
    the opening of [impl Input], the function that declares one handle
    per action and per action set and fills the structure with them,
    the accessors of the input actions, the activation and deactivation
    functions of the action sets, the closing brace, and the trailing
    structure with one handle field per action and per action set; the
    output is the notice, the lines of the kept prelude (the last of
    them running into the opening line of the block when the prelude
    does not end in a line break) and those lines. *)
Theorem generator_output_assembly
        (P : Platform) (w : World)
        (manifestPath preludePath generatedPath manifestText preludeText : string)
        (j : json) (m : ActionManifest.t) :
  files w manifestPath = Some manifestText ->
  JSON_parse P manifestText = Some j ->
  ActionManifestSchema j = Some m ->
  files w preludePath = Some preludeText ->
  exists kept dropped block,
    preludeText = kept ++ dropped /\
    (dropped = EmptyString \/ marker_at_start dropped) /\
    (forall a b, kept = a ++ b -> b <> EmptyString -> ~ marker_at_start (b ++ dropped)) /\
    Generator.code m = inr block /\
    let text := Unit.notice ++ JS.nl ++ JS.nl ++ kept ++ block in
    let out :=
      JS.join JS.nl (filter JS.nonempty (map JS.trim (JS.split JS.LF text))) in
    let args := [PString manifestPath; PString preludePath; PString generatedPath] in
    Generator.main P args w = Deno.writeTextFileSync generatedPath out w /\
    (write_failure w generatedPath out = None ->
     Generator.main P args w = (Normal tt, written w generatedPath out)) /\
    ((forall action, In action (ActionManifest.actions m) ->
                     has_char JS.LF (Action.name action) = false) ->
     (forall actionSet, In actionSet (ActionManifest.action_sets m) ->
                        has_char JS.LF (ActionSet.name actionSet) = false /\
                        ends_clean (ActionSet.name actionSet)) ->
     filter JS.nonempty (map JS.trim (JS.split JS.LF block)) = Unit.block m /\
     out = JS.join JS.nl
             (Unit.notice
                :: filter JS.nonempty
                     (map JS.trim (JS.split JS.LF (kept ++ "impl Input {")))
                ++ Unit.body m)%list).
Proof.
  intros F J S F'.
  destruct (code_total m) as [accessors [A C]].
  destruct (strip_stub_split preludeText) as [dropped [E [D L]]].
  exists (Generator.strip_stub preludeText), dropped. eexists.
  split; [exact E|]. split.
  { destruct D as [D|D]; [now left | right; apply stub_marker_here_iff, D]. }
  split.
  { intros a b Hk Hb Hm. apply stub_marker_here_iff in Hm.
    rewrite (L a b Hk Hb) in Hm. discriminate. }
  split; [exact C|]. cbv zeta.
  pose proof (main_reaches_write P w _ _ generatedPath _ _ j m _ F J S F' C) as R.
  split; [exact R|]. split.
  - intros W. rewrite R. apply write_succeeds. exact W.
  - intros Ha Hs. split.
    + apply (block_lines m Ha Hs EmptyString _ C).
    + f_equal. apply (output_lines m Ha Hs _ _ C).
Qed.

Lemma generator_output_assembly_witness :
  exists kept,
    Generator.main Sample.P
      [PString "/app/actions.json"; PString "/app/prelude.rs"; PString "/app/out.rs"]
      Sample.disk
    = (Normal tt,
       written Sample.disk "/app/out.rs"
         (JS.join JS.nl
            (Unit.notice
               :: filter JS.nonempty
                    (map JS.trim (JS.split JS.LF (kept ++ "impl Input {")))
               ++ Unit.body Sample.manifest)%list)).
Proof.
  destruct (generator_output_assembly Sample.P Sample.disk
              "/app/actions.json" "/app/prelude.rs" "/app/out.rs"
              "text of actions.json" ("use crate::sys;" ++ JS.nl)
              Sample.actions_json Sample.manifest
              eq_refl eq_refl eq_refl eq_refl)
    as [kept [dropped [block [_ [_ [_ [_ [_ [W L]]]]]]]]].
  cbv zeta in W, L.
  assert (Ha : forall action, In action (ActionManifest.actions Sample.manifest) ->
                              has_char JS.LF (Action.name action) = false).
  { intros a [<-|[<-|[]]]; reflexivity. }
  assert (Hs : forall actionSet,
             In actionSet (ActionManifest.action_sets Sample.manifest) ->
             has_char JS.LF (ActionSet.name actionSet) = false /\
             ends_clean (ActionSet.name actionSet)).
  { intros a [<-|[]]. split; [reflexivity | apply ends_clean_visible; reflexivity]. }
  destruct (L Ha Hs) as [_ O]. rewrite O in W.
  exists kept. apply W. reflexivity.
Defined.
